(** * TLend partner iframe integration: protocol model and properties

    A shallow embedding of the protocol logic of the repository:
    - the type guards of the [@tlend/iframe-types] package (utilities.ts),
    - the HMAC challenge payload codec of RFC-001, section 12.3 (Option A),
    - the partner mock test stand (app.js): its [state] object, its
      [CONFIG.TLEND_ORIGINS] list, the message handlers and senders.

    Conventions of the embedding.
    - A value that crosses [postMessage] is a [JsVal]: the JSON-like part of
      what the structured clone algorithm carries: no functions, no
      cycles, arrays without named properties.  Numbers are integers (the
      ones JavaScript holds exactly) or NaN.  A string is the sequence of
      its UTF-16 code units, each below 256: one [ascii] per code unit, so
      that [length], [slice] and comparison are those of JavaScript.
    - [logInfo], [logEvent] and the DOM rendering ([updateButtonStates], the
      status dot) only write to the page and the console.  What is kept of
      a log line is the conversion to strings of the substitutions of its
      template literal: it is done before [logInfo] is entered, and its
      TypeError aborts the handler.  [logEvent] converts the message type,
      when the log element is there; the handlers that call it say why
      nothing of it remains.  Whether the repay panel and modal can be
      rendered depends on the page: the world answers it.
    - [Date.now()] reads the [now] field of the world, [Math.random()] reads
      its entropy oracle, [setTimeout] adds a task to the timer table, and
      [postMessage] asks the world's URL parser whether it takes the target
      origin.  The outbox lists the calls of [postMessage] that went
      through. *)

From Stdlib Require Import ZArith Lia Bool List Ascii String.
From Stdlib Require Strings.Byte DecimalString HexadecimalString.
From stdpp Require Import gmap strings list.
Import ListNotations.

#[local] Set Warnings "-register-all".
Local Open Scope string_scope.
Local Open Scope list_scope.
Local Open Scope Z_scope.

(* ===================================================================== *)
(** ** JavaScript values *)
(* ===================================================================== *)

Module Js.

Inductive JsVal : Type :=
| JUndefined
| JNull
| JBool (b : bool)
| JNum (n : Z)
| JNaN
| JStr (s : string)
| JArr (items : list JsVal)
| JObj (props : list (string * JsVal)).

Inductive JsType : Type := TUndefined | TObject | TBoolean | TNumber | TString.

Definition JsType_eqb (a b : JsType) : bool :=
  match a, b with
  | TUndefined, TUndefined | TObject, TObject | TBoolean, TBoolean
  | TNumber, TNumber | TString, TString => true
  | _, _ => false
  end.

(** [typeof v] *)
Definition typeof (v : JsVal) : JsType :=
  match v with
  | JUndefined => TUndefined
  | JNull | JArr _ | JObj _ => TObject
  | JBool _ => TBoolean
  | JNum _ | JNaN => TNumber
  | JStr _ => TString
  end.

(** ToBoolean: what [if (v)], [!v], [a || b] and [a && b] test. *)
Definition truthy (v : JsVal) : bool :=
  match v with
  | JUndefined | JNull | JNaN => false
  | JBool b => b
  | JNum n => negb (n =? 0)
  | JStr s => negb (s =? "")%string
  | JArr _ | JObj _ => true
  end.

Definition nullish (v : JsVal) : bool :=
  match v with JUndefined | JNull => true | _ => false end.

(** [v === null] *)
Definition is_null (v : JsVal) : bool :=
  match v with JNull => true | _ => false end.

Fixpoint assoc (k : string) (props : list (string * JsVal)) : JsVal :=
  match props with
  | [] => JUndefined
  | (k', v) :: rest => if (k =? k')%string then v else assoc k rest
  end.

(** [v.k] for a value [v] that is neither [null] nor [undefined]. *)
Definition get (v : JsVal) (k : string) : JsVal :=
  match v with
  | JObj props => assoc k props
  | JArr items => if (k =? "length")%string then JNum (Z.of_nat (List.length items)) else JUndefined
  | JStr s => if (k =? "length")%string then JNum (Z.of_nat (String.length s)) else JUndefined
  | _ => JUndefined
  end.

(** [v.k]; [None] is the TypeError of reading a property of [null] or
    [undefined]. *)
Definition prop (v : JsVal) (k : string) : option JsVal :=
  if nullish v then None else Some (get v k).

(** [v?.k] *)
Definition optget (v : JsVal) (k : string) : JsVal :=
  if nullish v then JUndefined else get v k.

(** [a || b] *)
Definition or_else (a b : JsVal) : JsVal := if truthy a then a else b.

(** [v === 'lit'] *)
Definition is_str (v : JsVal) (lit : string) : bool :=
  match v with JStr s => (s =? lit)%string | _ => false end.

(** Decimal rendering of an integer, as a template literal does it. *)
Definition show_Z (z : Z) : string := DecimalString.NilZero.string_of_int (Z.to_int z).

(** Whether an object has an own property [k]. *)
Definition has_own (k : string) (props : list (string * JsVal)) : bool :=
  existsb (fun p => (fst p =? k)%string) props.

(** [items.join(sep)], given the conversion of an element: [null] and
    [undefined] give the empty string. *)
Definition join_with (conv : JsVal -> option string) (sep : string)
  : list JsVal -> option string :=
  fix join (l : list JsVal) : option string :=
    match l with
    | [] => Some ""
    | x :: rest =>
        match (if nullish x then Some "" else conv x) with
        | None => None
        | Some sx =>
            match rest with
            | [] => Some sx
            | _ :: _ => option_map (fun r => sx ++ sep ++ r)%string (join rest)
            end
        end
    end.

(** ToString, used by template literals and by [Array.prototype.join];
    [None] is its TypeError.  A cloned object has no callable property, so
    an own [toString] hides [Object.prototype.toString] and the conversion
    fails ([Object.prototype.valueOf] returns the object itself); without
    one the object prints as [[object Object]].  An array prints as its
    [join(',')]. *)
Fixpoint to_string (v : JsVal) : option string :=
  match v with
  | JUndefined => Some "undefined"
  | JNull => Some "null"
  | JBool true => Some "true"
  | JBool false => Some "false"
  | JNum n => Some (show_Z n)
  | JNaN => Some "NaN"
  | JStr s => Some s
  | JObj props => if has_own "toString" props then None else Some "[object Object]"
  | JArr items => join_with to_string "," items
  end.

(** [items.join(sep)] *)
Definition join (sep : string) (items : list JsVal) : option string :=
  join_with to_string sep items.

(** The white space StringToNumber drops, among the code units below 256:
    tab, line feed, vertical tab, form feed, carriage return, space and
    no-break space. *)
Definition is_space (c : ascii) : bool :=
  let n := nat_of_ascii c in
  ((n =? 32) || (n =? 9) || (n =? 10) || (n =? 11) || (n =? 12) || (n =? 13) || (n =? 160))%nat.

Fixpoint trim_left (s : string) : string :=
  match s with
  | String c rest => if is_space c then trim_left rest else s
  | EmptyString => EmptyString
  end.

Fixpoint string_rev_onto (s acc : string) : string :=
  match s with
  | EmptyString => acc
  | String c rest => string_rev_onto rest (String c acc)
  end.

Definition string_rev (s : string) : string := string_rev_onto s EmptyString.

Definition trim (s : string) : string :=
  string_rev (trim_left (string_rev (trim_left s))).

(** The value of a digit in a radix up to 16. *)
Definition digit_of (radix : Z) (c : ascii) : option Z :=
  let n := Z.of_nat (nat_of_ascii c) in
  let d := if (48 <=? n) && (n <=? 57) then n - 48
           else if (97 <=? n) && (n <=? 102) then n - 87
           else if (65 <=? n) && (n <=? 70) then n - 55
           else 16 in
  if d <? radix then Some d else None.

(** The value of a string made of digits only. *)
Fixpoint digits_value (radix : Z) (s : string) (acc : Z) : option Z :=
  match s with
  | EmptyString => Some acc
  | String c rest =>
      match digit_of radix c with
      | Some d => digits_value radix rest (radix * acc + d)
      | None => None
      end
  end.

(** A string of one digit at least. *)
Definition numeral (radix : Z) (s : string) : option Z :=
  match s with
  | EmptyString => None
  | _ => digits_value radix s 0
  end.

(** The decimal digits a string starts with, and what follows them. *)
Fixpoint take_digits (s : string) : string * string :=
  match s with
  | String c rest =>
      match digit_of 10 c with
      | Some _ => let (d, r) := take_digits rest in (String c d, r)
      | None => (EmptyString, s)
      end
  | EmptyString => (EmptyString, EmptyString)
  end.

(** What a string denotes as a number: [Dec m e] is [m * 10^e]. *)
Inductive Num : Type :=
| NaN
| Infinity (negative : bool)
| Dec (m e : Z).

Definition negate (x : Num) : Num :=
  match x with
  | NaN => NaN
  | Infinity negative => Infinity (negb negative)
  | Dec m e => Dec (- m) e
  end.

(** ExponentPart, or nothing: the exponent, [None] when the text is
    neither. *)
Definition exponent_part (s : string) : option Z :=
  match s with
  | EmptyString => Some 0
  | String c r =>
      if ((c =? "e") || (c =? "E"))%char then
        match r with
        | String "-" d => option_map Z.opp (numeral 10 d)
        | String "+" d => numeral 10 d
        | d => numeral 10 d
        end
      else None
  end.

(** StrUnsignedDecimalLiteral: [Infinity], or digits with an optional
    fraction and an optional exponent, one digit at least before the
    exponent. *)
Definition unsigned_decimal (s : string) : Num :=
  if (s =? "Infinity")%string then Infinity false
  else
    let (ip, r1) := take_digits s in
    let (fp, r2) := match r1 with
                    | String "." r => take_digits r
                    | _ => (EmptyString, r1)
                    end in
    match (ip ++ fp)%string, exponent_part r2 with
    | EmptyString, _ => NaN
    | digits, Some e =>
        match digits_value 10 digits 0 with
        | Some m => Dec m (e - Z.of_nat (String.length fp))
        | None => NaN
        end
    | _, None => NaN
    end.

(** An integer literal of radix 16, 8 or 2 after its prefix. *)
Definition radix_literal (radix : Z) (digits : string) : Num :=
  match numeral radix digits with
  | Some m => Dec m 0
  | None => NaN
  end.

(** StringToNumber: surrounding white space is dropped, the empty string
    is 0; then a radix literal without sign, or a decimal literal with an
    optional sign; every other text is NaN. *)
Definition string_to_number (s : string) : Num :=
  match trim s with
  | EmptyString => Dec 0 0
  | String "0" (String "x" d) | String "0" (String "X" d) => radix_literal 16 d
  | String "0" (String "o" d) | String "0" (String "O" d) => radix_literal 8 d
  | String "0" (String "b" d) | String "0" (String "B" d) => radix_literal 2 d
  | String "-" d => negate (unsigned_decimal d)
  | String "+" d => unsigned_decimal d
  | d => unsigned_decimal d
  end.

(** ToNumber; [None] is the TypeError of converting an object that has an
    own [toString]. *)
Definition to_number (v : JsVal) : option Num :=
  match v with
  | JUndefined | JNaN => Some NaN
  | JNull => Some (Dec 0 0)
  | JBool b => Some (Dec (if b then 1 else 0) 0)
  | JNum n => Some (Dec n 0)
  | JStr s => Some (string_to_number s)
  | JArr _ | JObj _ => option_map string_to_number (to_string v)
  end.

(** [x <= n] for the number a text denotes and a literal [n] that is a
    power of two (16 in the code).  The denoted value is rounded to the
    nearest double, ties to even, so it is at most [n] exactly when it is
    at most [n * (1 + 2^-53)]. *)
Definition le_literal (x : Num) (n : Z) : bool :=
  match x with
  | NaN => false
  | Infinity negative => negative
  | Dec m e =>
      if 0 <=? e then m * 10 ^ e * 2 ^ 53 <=? n * (2 ^ 53 + 1)
      else m * 2 ^ 53 <=? n * (2 ^ 53 + 1) * 10 ^ (- e)
  end.

(** [v <= n]; [None] is the TypeError of ToNumber. *)
Definition le_num (v : JsVal) (n : Z) : option bool :=
  option_map (fun x => le_literal x n) (to_number v).

(** The substitutions of a template literal, converted in order. *)
Fixpoint to_strings (vs : list JsVal) : option (list string) :=
  match vs with
  | [] => Some []
  | v :: rest =>
      match to_string v with
      | Some s => option_map (cons s) (to_strings rest)
      | None => None
      end
  end.

End Js.

Import Js.

(* ===================================================================== *)
(** ** Regular expressions, for the address patterns of utilities.ts *)
(* ===================================================================== *)

Module Regex.

(** The patterns used are character classes, sequences, options and
    bounded or unbounded repetitions; [/^r$/.test(s)] asks whether the
    whole of [s] matches [r]. *)
Inductive re : Type :=
| Never
| Eps
| Class (p : ascii -> bool)
| Seq (a b : re)
| Alt (a b : re)
| Star (a : re).

(** [a?], [a+] and [a{n}] *)
Definition Opt (a : re) : re := Alt Eps a.
Definition Plus (a : re) : re := Seq a (Star a).
Fixpoint Rep (n : nat) (a : re) : re :=
  match n with O => Eps | S n' => Seq a (Rep n' a) end.

Fixpoint nullable (r : re) : bool :=
  match r with
  | Never => false
  | Eps => true
  | Class _ => false
  | Seq a b => nullable a && nullable b
  | Alt a b => nullable a || nullable b
  | Star _ => true
  end.

(** What is left to match once the character [c] has been read. *)
Fixpoint deriv (c : ascii) (r : re) : re :=
  match r with
  | Never | Eps => Never
  | Class p => if p c then Eps else Never
  | Seq a b => if nullable a then Alt (Seq (deriv c a) b) (deriv c b) else Seq (deriv c a) b
  | Alt a b => Alt (deriv c a) (deriv c b)
  | Star a => Seq (deriv c a) (Star a)
  end.

(** [/^r$/.test(s)] *)
Fixpoint test (r : re) (s : string) : bool :=
  match s with
  | EmptyString => nullable r
  | String c rest => test (deriv c r) rest
  end.

(** The strings a pattern stands for. *)
Inductive matches : re -> string -> Prop :=
| m_eps : matches Eps EmptyString
| m_class p c : p c = true -> matches (Class p) (String c EmptyString)
| m_seq a b s1 s2 : matches a s1 -> matches b s2 -> matches (Seq a b) (s1 ++ s2)%string
| m_alt_l a b s : matches a s -> matches (Alt a b) s
| m_alt_r a b s : matches b s -> matches (Alt a b) s
| m_star_nil a : matches (Star a) EmptyString
| m_star_cons a s1 s2 :
    matches a s1 -> matches (Star a) s2 -> matches (Star a) (s1 ++ s2)%string.

Definition code (c : ascii) : nat := nat_of_ascii c.
Definition between (lo hi : nat) (c : ascii) : bool :=
  ((lo <=? code c) && (code c <=? hi))%nat.
Definition is_char (x : ascii) (c : ascii) : bool := (code c =? code x)%nat.

(** [\d] (without the [u] or [v] flag), [a-z], [A-Z], [a-f], [A-F] *)
Definition digit (c : ascii) : bool := between 48 57 c.
Definition lower (c : ascii) : bool := between 97 122 c.
Definition upper (c : ascii) : bool := between 65 90 c.

End Regex.

(* ===================================================================== *)
(** ** Type guards of the types package (utilities.ts) *)
(* ===================================================================== *)

Module Guards.

Definition validTypes : list string :=
  [ "TLEND_LOADED"; "STYLES_UPGRADE"; "SET_LOGO"; "AUTH_CHECK_REQUEST";
    "AUTH_CHECK_RESPONSE"; "AUTH_CREDENTIALS"; "AUTH_RESULT"; "AUTH_REQUEST";
    "TLEND_READY"; "DISCONNECT"; "REPAY_REQUEST"; "REPAY_RESULT"; "ERROR" ].

(** [validTypes.includes(type)] *)
Definition isValidMessageType (type : string) : bool :=
  existsb (String.eqb type) validTypes.

Definition isIframeMessage (value : JsVal) : bool :=
  if negb (JsType_eqb (typeof value) TObject) || is_null value then false
  else
    let msg := value in
    JsType_eqb (typeof (get msg "type")) TString
    && JsType_eqb (typeof (get msg "timestamp")) TNumber
    && match get msg "type" with
       | JStr t => isValidMessageType t
       | _ => false
       end.

(** [list.includes(v)] for a list of string literals. *)
Definition includes_type (v : JsVal) (list : list string) : bool :=
  match v with
  | JStr s => existsb (String.eqb s) list
  | _ => false
  end.

Definition tlendTypes : list string :=
  [ "TLEND_LOADED"; "AUTH_CHECK_RESPONSE"; "AUTH_RESULT"; "AUTH_REQUEST";
    "TLEND_READY"; "REPAY_REQUEST"; "ERROR" ].

Definition partnerTypes : list string :=
  [ "STYLES_UPGRADE"; "SET_LOGO"; "AUTH_CHECK_REQUEST"; "AUTH_CREDENTIALS";
    "DISCONNECT"; "REPAY_RESULT" ].

(** [tlendTypes.includes(msg.type)]; [None] is the TypeError of reading
    [type] from [null] or [undefined]. *)
Definition isTLendToPartnerMessage (msg : JsVal) : option bool :=
  option_map (fun t => includes_type t tlendTypes) (prop msg "type").

Definition isPartnerToTLendMessage (msg : JsVal) : option bool :=
  option_map (fun t => includes_type t partnerTypes) (prop msg "type").

(** [createBaseMessage(type)], with [now] for [Date.now()]. *)
Definition createBaseMessage (type : string) (now : Z) : JsVal :=
  JObj [("type", JStr type); ("timestamp", JNum now)].

(** [/^-?\d+:[a-fA-F0-9]{64}$/] *)
Definition raw_address : Regex.re :=
  Regex.Seq (Regex.Opt (Regex.Class (Regex.is_char "-")))
    (Regex.Seq (Regex.Plus (Regex.Class Regex.digit))
       (Regex.Seq (Regex.Class (Regex.is_char ":"))
          (Regex.Rep 64 (Regex.Class (fun c => Regex.between 97 102 c || Regex.between 65 70 c
                                               || Regex.digit c))))).

(** [/^[EU]Q[A-Za-z0-9_-]{46}$/] *)
Definition friendly_address : Regex.re :=
  Regex.Seq (Regex.Class (fun c => Regex.is_char "E" c || Regex.is_char "U" c))
    (Regex.Seq (Regex.Class (Regex.is_char "Q"))
       (Regex.Rep 46 (Regex.Class (fun c => Regex.upper c || Regex.lower c || Regex.digit c
                                            || Regex.is_char "_" c || Regex.is_char "-" c)))).

(** [isValidTonAddress(address, format)]; an omitted [format] is
    [JUndefined]. *)
Definition isValidTonAddress (address format : JsVal) : bool :=
  if negb (truthy address) || negb (JsType_eqb (typeof address) TString) then false
  else
    match address with
    | JStr a =>
        if is_str format "raw" then Regex.test raw_address a
        else if is_str format "user-friendly" then Regex.test friendly_address a
        else Regex.test raw_address a || Regex.test friendly_address a
    | _ => false
    end.

End Guards.

(* ===================================================================== *)
(** ** Challenge payload codec (RFC-001, section 12.3, Option A) *)
(* ===================================================================== *)

Module Codec.

Abbreviation byte := Init.Byte.byte.

Definition byte_val (b : byte) : Z := Z.of_N (Strings.Byte.to_N b).

Definition byte_of (z : Z) : byte :=
  match Strings.Byte.of_N (Z.to_N (z mod 256)) with
  | Some b => b
  | None => Init.Byte.x00
  end.

(** *** SHA-256 (FIPS 180-4) on 32-bit words held in [Z] *)

Definition w32 (x : Z) : Z := x mod 2 ^ 32.
Definition add32 (x y : Z) : Z := w32 (x + y).
Definition rotr (n x : Z) : Z := Z.lor (Z.shiftr x n) (w32 (Z.shiftl x (32 - n))).
Definition not32 (x : Z) : Z := Z.lxor x 0xffffffff.

Definition Ch (x y z : Z) : Z := Z.lxor (Z.land x y) (Z.land (not32 x) z).
Definition Maj (x y z : Z) : Z :=
  Z.lxor (Z.lxor (Z.land x y) (Z.land x z)) (Z.land y z).
Definition Sigma0 (x : Z) : Z := Z.lxor (Z.lxor (rotr 2 x) (rotr 13 x)) (rotr 22 x).
Definition Sigma1 (x : Z) : Z := Z.lxor (Z.lxor (rotr 6 x) (rotr 11 x)) (rotr 25 x).
Definition sigma0 (x : Z) : Z := Z.lxor (Z.lxor (rotr 7 x) (rotr 18 x)) (Z.shiftr x 3).
Definition sigma1 (x : Z) : Z := Z.lxor (Z.lxor (rotr 17 x) (rotr 19 x)) (Z.shiftr x 10).

(** The round constants are derived as FIPS 180-4 defines them: the first
    32 bits of the fractional parts of the cube roots (square roots, for the
    initial hash value) of the first primes. *)
Definition is_prime (n : nat) : bool :=
  (2 <=? n)%nat && forallb (fun d => negb (n mod d =? 0)%nat) (seq 2 (n - 2)).

Definition first_primes (count : nat) : list Z :=
  map Z.of_nat (firstn count (List.filter is_prime (seq 2 310))).

(** Largest [r] below [2 ^ bits] whose cube is at most [n]. *)
Fixpoint cube_root_bits (bits : nat) (n r : Z) : Z :=
  match bits with
  | O => r
  | S b =>
      let c := r + 2 ^ Z.of_nat b in
      cube_root_bits b n (if c * c * c <=? n then c else r)
  end.

Definition frac_cube_root (p : Z) : Z := cube_root_bits 48 (p * 2 ^ 96) 0 mod 2 ^ 32.
Definition frac_square_root (p : Z) : Z := Z.sqrt (p * 2 ^ 64) mod 2 ^ 32.

Definition K256 : list Z := Eval vm_compute in map frac_cube_root (first_primes 64).

Record Hash8 : Type := mkHash8 { ha : Z; hb : Z; hc : Z; hd : Z; he : Z; hf : Z; hg : Z; hh : Z }.

Definition H256_words : list Z := Eval vm_compute in map frac_square_root (first_primes 8).

Definition H256_init : Hash8 :=
  mkHash8 (nth 0 H256_words 0) (nth 1 H256_words 0) (nth 2 H256_words 0) (nth 3 H256_words 0)
          (nth 4 H256_words 0) (nth 5 H256_words 0) (nth 6 H256_words 0) (nth 7 H256_words 0).

(** One round.  [win] is the window W[t .. t+15] of the message schedule. *)
Definition sha_round (acc : Hash8 * list Z) (k : Z) : Hash8 * list Z :=
  let '(s, win) := acc in
  let w := nth 0 win 0 in
  let t1 := add32 (add32 (add32 (add32 (hh s) (Sigma1 (he s))) (Ch (he s) (hf s) (hg s))) k) w in
  let t2 := add32 (Sigma0 (ha s)) (Maj (ha s) (hb s) (hc s)) in
  let next := add32 (add32 (add32 (sigma1 (nth 14 win 0)) (nth 9 win 0)) (sigma0 (nth 1 win 0))) w in
  (mkHash8 (add32 t1 t2) (ha s) (hb s) (hc s) (add32 (hd s) t1) (he s) (hf s) (hg s),
   tl win ++ [next]).

Fixpoint be_words (bytes : list Z) : list Z :=
  match bytes with
  | a :: b :: c :: d :: rest => (a * 2 ^ 24 + b * 2 ^ 16 + c * 2 ^ 8 + d) :: be_words rest
  | _ => []
  end.

Definition compress (s : Hash8) (block : list Z) : Hash8 :=
  let '(r, _) := fold_left sha_round K256 (s, be_words block) in
  mkHash8 (add32 (ha s) (ha r)) (add32 (hb s) (hb r)) (add32 (hc s) (hc r)) (add32 (hd s) (hd r))
          (add32 (he s) (he r)) (add32 (hf s) (hf r)) (add32 (hg s) (hg r)) (add32 (hh s) (hh r)).

Definition be_bytes (n : nat) (x : Z) : list Z :=
  map (fun i => Z.shiftr x (8 * Z.of_nat (n - 1 - i)) mod 256) (seq 0 n).

Definition sha_pad (msg : list Z) : list Z :=
  let len := Z.of_nat (List.length msg) in
  let zeros := Z.to_nat ((55 - len) mod 64) in
  msg ++ [0x80] ++ repeat 0 zeros ++ be_bytes 8 (8 * len).

Fixpoint sha_blocks (n : nat) (s : Hash8) (bytes : list Z) : Hash8 :=
  match n with
  | O => s
  | S n' => sha_blocks n' (compress s (firstn 64 bytes)) (skipn 64 bytes)
  end.

Definition digest_bytes (s : Hash8) : list byte :=
  map byte_of
    (be_bytes 4 (ha s) ++ be_bytes 4 (hb s) ++ be_bytes 4 (hc s) ++ be_bytes 4 (hd s)
     ++ be_bytes 4 (he s) ++ be_bytes 4 (hf s) ++ be_bytes 4 (hg s) ++ be_bytes 4 (hh s)).

Definition sha256 (msg : list byte) : list byte :=
  let padded := sha_pad (map byte_val msg) in
  digest_bytes (sha_blocks (List.length padded / 64) H256_init padded).

(** *** HMAC (RFC 2104) with SHA-256: [crypto.createHmac('sha256', key)] *)

Definition xor_pad (c : Z) (key : list byte) : list byte :=
  map (fun b => byte_of (Z.lxor (byte_val b) c)) key.

Definition hmac_key (key : list byte) : list byte :=
  let k := if (64 <? List.length key)%nat then sha256 key else key in
  k ++ repeat Init.Byte.x00 (64 - List.length k).

Definition hmac_sha256 (key msg : list byte) : list byte :=
  let k := hmac_key key in
  sha256 (xor_pad 0x5c k ++ sha256 (xor_pad 0x36 k ++ msg)).

(** *** Hex strings: [buf.toString('hex')] and [Buffer.from(s, 'hex')] *)

Definition hex_digit (n : Z) : ascii :=
  ascii_of_nat (Z.to_nat (if n <? 10 then 48 + n else 87 + n)).

Definition unhex (c : ascii) : option Z :=
  let n := Z.of_nat (nat_of_ascii c) in
  if (48 <=? n) && (n <=? 57) then Some (n - 48)
  else if (97 <=? n) && (n <=? 102) then Some (n - 87)
  else if (65 <=? n) && (n <=? 70) then Some (n - 55)
  else None.

Fixpoint hex_encode (buf : list byte) : string :=
  match buf with
  | [] => EmptyString
  | b :: rest =>
      String (hex_digit (byte_val b / 16)) (String (hex_digit (byte_val b mod 16)) (hex_encode rest))
  end.

(** Decoding reads two characters at a time and stops at the first pair that
    is not made of hex digits; a trailing single character is dropped. *)
Fixpoint hex_decode (s : string) : list byte :=
  match s with
  | String a (String b rest) =>
      match unhex a, unhex b with
      | Some x, Some y => byte_of (16 * x + y) :: hex_decode rest
      | _, _ => []
      end
  | _ => []
  end.

(** *** Buffer primitives *)

(** [buf.readUInt32BE(0)] on a buffer of at least four bytes. *)
Definition readUInt32BE (buf : list byte) : Z :=
  match map byte_val (firstn 4 buf) with
  | [a; b; c; d] => a * 2 ^ 24 + b * 2 ^ 16 + c * 2 ^ 8 + d
  | _ => 0
  end.

(** [Buffer.alloc(4)] then [writeUInt32BE(v, 0)]; a value outside the
    unsigned 32-bit range is a RangeError ([None]). *)
Definition writeUInt32BE (v : Z) : option (list byte) :=
  if (0 <=? v) && (v <? 2 ^ 32) then Some (map byte_of (be_bytes 4 v)) else None.

Fixpoint bytes_eqb (a b : list byte) : bool :=
  match a, b with
  | [], [] => true
  | x :: a', y :: b' => Strings.Byte.eqb x y && bytes_eqb a' b'
  | _, _ => false
  end.

(** [crypto.timingSafeEqual(a, b)]: an error ([None]) when the lengths
    differ, else whether the contents are equal.  The running time is not
    modelled. *)
Definition timingSafeEqual (a b : list byte) : option bool :=
  if (List.length a =? List.length b)%nat then Some (bytes_eqb a b) else None.

(** [buf.subarray(lo, hi)] *)
Definition subarray (lo hi : nat) (buf : list byte) : list byte :=
  firstn (hi - lo) (skipn lo buf).

(** *** The two functions of section 12.3.  [now_ms] is [Date.now()];
    [None] is a thrown exception. *)

Definition generatePayload (sharedSecret : list byte) (now_ms : Z) : option string :=
  let expirationTime := now_ms / 1000 + 15 * 60 in
  match writeUInt32BE expirationTime with
  | None => None
  | Some expirationBuffer =>
      let signature := subarray 0 28 (hmac_sha256 sharedSecret expirationBuffer) in
      Some (hex_encode (expirationBuffer ++ signature))
  end.

Definition verifyPartnerPayload (payloadHex : string) (sharedSecret : list byte) (now_ms : Z)
  : option bool :=
  let payloadBuffer := hex_decode payloadHex in
  if (List.length payloadBuffer <? 32)%nat then Some false
  else
    let expirationTimestamp := readUInt32BE payloadBuffer in
    let now := now_ms / 1000 in
    if (expirationTimestamp <=? now) || (now + 30 * 60 <? expirationTimestamp) then Some false
    else
      let receivedSignature := subarray 4 32 payloadBuffer in
      match writeUInt32BE expirationTimestamp with
      | None => None
      | Some expirationBuffer =>
          let expectedSignature := subarray 0 28 (hmac_sha256 sharedSecret expirationBuffer) in
          timingSafeEqual receivedSignature expectedSignature
      end.

(** Bytes of an ASCII string, for test vectors. *)
Definition bytes_of_string (s : string) : list byte :=
  map (fun c => byte_of (Z.of_nat (nat_of_ascii c))) (list_ascii_of_string s).

End Codec.

(* ===================================================================== *)
(** ** The partner mock test stand (app.js) *)
(* ===================================================================== *)

Module App.

(** *** Data *)

Inductive Lifecycle : Type := LOADING | PENDING_AUTH | READY | ERROR.

Inductive PendingKind : Type := AUTH_CHECK | AUTH_CREDENTIALS.

(** A value of the [state.pendingRequests] map; [p_timeout] is the handle
    returned by [setTimeout]. *)
Record PendingRequest : Type := mkPending {
  p_type : PendingKind;
  p_timestamp : Z;
  p_timeout : nat
}.

Record RepayRequest : Type := mkRepay {
  r_requestId : JsVal;
  r_payload : JsVal;
  r_timestamp : Z
}.

(** The [state] object. *)
Record State : Type := mkState {
  iframeLoaded : bool;
  tlendState : option Lifecycle;
  walletConnected : bool;
  walletAddress : JsVal;
  walletPublicKey : JsVal;
  walletAccount : JsVal;
  tonProof : JsVal;
  pendingRequests : gmap string PendingRequest;
  pendingRepayRequest : option RepayRequest;
  tlendOrigin : option string;
  tlendVersion : JsVal;
  tlendCapabilities : JsVal;
  tonConnectUI : bool
}.

(** Callbacks handed to [setTimeout]. *)
Inductive Task : Type :=
| TSendStylesUpgrade
| TSendSetLogo
| TSendAuthCheckRequest
| TSendAuthCredentials
| TAuthCheckTimeout (requestId : string)
| TAuthCredentialsTimeout (requestId : string)
| TSetReady
| TOnloadReady
| TMockRepayResult (requestId : JsVal).

Record Timer : Type := mkTimer { t_id : nat; t_delay : Z; t_task : Task }.

(** The [elements] table: the [value] of each configuration input, [None]
    when the element is not in the page. *)
Record Elements : Type := mkElements {
  el_tlendUrl : option string;
  el_partnerId : option string;
  el_partnerName : option string;
  el_partnerTheme : option string;
  el_logoMode : option string;
  el_autoReadyMode : option string;
  el_skipAuth : option string;
  el_iframeContainer : bool
}.

(** Where the [try] block of [approveRepayRequest] met a TypeError of the
    engine: building the arguments of [sendTransaction] from the
    transaction, or reading and printing the result. *)
Inductive Fault : Type :=
| BadTransaction (transaction : JsVal)
| BadResult (result : JsVal).

(** Everything the script can read or change. *)
Record World : Type := mkWorld {
  state : State;
  TLEND_ORIGINS : list string;            (* CONFIG.TLEND_ORIGINS *)
  elements : Elements;
  iframe : option string;                 (* the iframe of #iframeContainer and its src *)
  timers : list Timer;                    (* pending setTimeout callbacks *)
  nextTimer : nat;
  signing : list JsVal;                   (* requestIds awaiting sendTransaction *)
  now : Z;                                (* Date.now() *)
  entropy : nat -> string;                (* strings made from Math.random() *)
  drawn : nat;
  url_parses : string -> bool;            (* the browser's URL parser: is it an absolute URL *)
  renders : JsVal -> bool;                (* the page: can the repay panel and modal show it *)
  fault_text : Fault -> string;           (* the engine: the message of its TypeError *)
  outbox : list (JsVal * string)          (* postMessage(message, targetOrigin), newest first *)
}.

Definition CONFIG_TLEND_ORIGINS : list string := [ "https://tlend.co"; "https://staging.tlend.co" ].
Definition AUTH_CHECK_TIMEOUT : Z := 5000.
Definition AUTH_CREDENTIALS_TIMEOUT : Z := 30000.
Definition REPAY_TIMEOUT : Z := 60000.

Definition initial_state : State :=
  mkState false None false JNull JNull JNull JNull ∅ None None JNull (JArr []) false.

(** *** Field updates *)

Definition set_iframeLoaded (v : bool) (s : State) : State :=
  mkState v (tlendState s) (walletConnected s) (walletAddress s) (walletPublicKey s)
    (walletAccount s) (tonProof s) (pendingRequests s) (pendingRepayRequest s) (tlendOrigin s)
    (tlendVersion s) (tlendCapabilities s) (tonConnectUI s).
Definition set_tlendState (v : option Lifecycle) (s : State) : State :=
  mkState (iframeLoaded s) v (walletConnected s) (walletAddress s) (walletPublicKey s)
    (walletAccount s) (tonProof s) (pendingRequests s) (pendingRepayRequest s) (tlendOrigin s)
    (tlendVersion s) (tlendCapabilities s) (tonConnectUI s).
Definition set_walletConnected (v : bool) (s : State) : State :=
  mkState (iframeLoaded s) (tlendState s) v (walletAddress s) (walletPublicKey s)
    (walletAccount s) (tonProof s) (pendingRequests s) (pendingRepayRequest s) (tlendOrigin s)
    (tlendVersion s) (tlendCapabilities s) (tonConnectUI s).
Definition set_walletAddress (v : JsVal) (s : State) : State :=
  mkState (iframeLoaded s) (tlendState s) (walletConnected s) v (walletPublicKey s)
    (walletAccount s) (tonProof s) (pendingRequests s) (pendingRepayRequest s) (tlendOrigin s)
    (tlendVersion s) (tlendCapabilities s) (tonConnectUI s).
Definition set_walletAccount (v : JsVal) (s : State) : State :=
  mkState (iframeLoaded s) (tlendState s) (walletConnected s) (walletAddress s) (walletPublicKey s)
    v (tonProof s) (pendingRequests s) (pendingRepayRequest s) (tlendOrigin s)
    (tlendVersion s) (tlendCapabilities s) (tonConnectUI s).
Definition set_tonProof (v : JsVal) (s : State) : State :=
  mkState (iframeLoaded s) (tlendState s) (walletConnected s) (walletAddress s) (walletPublicKey s)
    (walletAccount s) v (pendingRequests s) (pendingRepayRequest s) (tlendOrigin s)
    (tlendVersion s) (tlendCapabilities s) (tonConnectUI s).
Definition set_pendingRequests (v : gmap string PendingRequest) (s : State) : State :=
  mkState (iframeLoaded s) (tlendState s) (walletConnected s) (walletAddress s) (walletPublicKey s)
    (walletAccount s) (tonProof s) v (pendingRepayRequest s) (tlendOrigin s)
    (tlendVersion s) (tlendCapabilities s) (tonConnectUI s).
Definition set_pendingRepayRequest (v : option RepayRequest) (s : State) : State :=
  mkState (iframeLoaded s) (tlendState s) (walletConnected s) (walletAddress s) (walletPublicKey s)
    (walletAccount s) (tonProof s) (pendingRequests s) v (tlendOrigin s)
    (tlendVersion s) (tlendCapabilities s) (tonConnectUI s).
Definition set_tlendOrigin (v : option string) (s : State) : State :=
  mkState (iframeLoaded s) (tlendState s) (walletConnected s) (walletAddress s) (walletPublicKey s)
    (walletAccount s) (tonProof s) (pendingRequests s) (pendingRepayRequest s) v
    (tlendVersion s) (tlendCapabilities s) (tonConnectUI s).
Definition set_tlendVersion (v : JsVal) (s : State) : State :=
  mkState (iframeLoaded s) (tlendState s) (walletConnected s) (walletAddress s) (walletPublicKey s)
    (walletAccount s) (tonProof s) (pendingRequests s) (pendingRepayRequest s) (tlendOrigin s)
    v (tlendCapabilities s) (tonConnectUI s).
Definition set_tlendCapabilities (v : JsVal) (s : State) : State :=
  mkState (iframeLoaded s) (tlendState s) (walletConnected s) (walletAddress s) (walletPublicKey s)
    (walletAccount s) (tonProof s) (pendingRequests s) (pendingRepayRequest s) (tlendOrigin s)
    (tlendVersion s) v (tonConnectUI s).
Definition set_tonConnectUI (v : bool) (s : State) : State :=
  mkState (iframeLoaded s) (tlendState s) (walletConnected s) (walletAddress s) (walletPublicKey s)
    (walletAccount s) (tonProof s) (pendingRequests s) (pendingRepayRequest s) (tlendOrigin s)
    (tlendVersion s) (tlendCapabilities s) v.

Definition with_state (f : State -> State) (w : World) : World :=
  mkWorld (f (state w)) (TLEND_ORIGINS w) (elements w) (iframe w) (timers w) (nextTimer w)
    (signing w) (now w) (entropy w) (drawn w) (url_parses w) (renders w) (fault_text w)
    (outbox w).
Definition with_origins (v : list string) (w : World) : World :=
  mkWorld (state w) v (elements w) (iframe w) (timers w) (nextTimer w)
    (signing w) (now w) (entropy w) (drawn w) (url_parses w) (renders w) (fault_text w)
    (outbox w).
Definition with_elements (v : Elements) (w : World) : World :=
  mkWorld (state w) (TLEND_ORIGINS w) v (iframe w) (timers w) (nextTimer w)
    (signing w) (now w) (entropy w) (drawn w) (url_parses w) (renders w) (fault_text w)
    (outbox w).
Definition with_iframe (v : option string) (w : World) : World :=
  mkWorld (state w) (TLEND_ORIGINS w) (elements w) v (timers w) (nextTimer w)
    (signing w) (now w) (entropy w) (drawn w) (url_parses w) (renders w) (fault_text w)
    (outbox w).
Definition with_timers (v : list Timer) (n : nat) (w : World) : World :=
  mkWorld (state w) (TLEND_ORIGINS w) (elements w) (iframe w) v n
    (signing w) (now w) (entropy w) (drawn w) (url_parses w) (renders w) (fault_text w)
    (outbox w).
Definition with_signing (v : list JsVal) (w : World) : World :=
  mkWorld (state w) (TLEND_ORIGINS w) (elements w) (iframe w) (timers w) (nextTimer w)
    v (now w) (entropy w) (drawn w) (url_parses w) (renders w) (fault_text w)
    (outbox w).
Definition with_now (v : Z) (w : World) : World :=
  mkWorld (state w) (TLEND_ORIGINS w) (elements w) (iframe w) (timers w) (nextTimer w)
    (signing w) v (entropy w) (drawn w) (url_parses w) (renders w) (fault_text w)
    (outbox w).
Definition with_drawn (v : nat) (w : World) : World :=
  mkWorld (state w) (TLEND_ORIGINS w) (elements w) (iframe w) (timers w) (nextTimer w)
    (signing w) (now w) (entropy w) v (url_parses w) (renders w) (fault_text w)
    (outbox w).
Definition with_outbox (v : list (JsVal * string)) (w : World) : World :=
  mkWorld (state w) (TLEND_ORIGINS w) (elements w) (iframe w) (timers w) (nextTimer w)
    (signing w) (now w) (entropy w) (drawn w) (url_parses w) (renders w) (fault_text w) v.

(** *** Statements: a state monad over [World] in which [None] is an
    uncaught exception.  The world reached when the exception is raised is
    kept: what the handler changed before it stays changed. *)

Definition M (A : Type) : Type := World -> option A * World.

Definition ret {A} (a : A) : M A := fun w => (Some a, w).
Definition throw {A} : M A := fun w => (None, w).
Definition bind {A B} (m : M A) (k : A -> M B) : M B :=
  fun w => match m w with
           | (Some a, w') => k a w'
           | (None, w') => (None, w')
           end.

Notation "x <- m ;; k" := (bind m (fun x => k))
  (at level 62, m at next level, right associativity).
Notation "m ;;; k" := (bind m (fun _ => k))
  (at level 62, right associativity).

Definition read {A} (f : World -> A) : M A := fun w => (Some (f w), w).
Definition world : M World := fun w => (Some w, w).
Definition modify (f : World -> World) : M unit := fun w => (Some tt, f w).
Definition lift {A} (o : option A) : M A :=
  match o with Some a => ret a | None => throw end.
Definition when (b : bool) (m : M unit) : M unit := if b then m else ret tt.

(** Running a handler from the event loop: the exception, if any, ends it. *)
Definition exec (m : M unit) (w : World) : World := snd (m w).

(** *** Utility functions *)

(** [elements.x?.value || dflt] *)
Definition input_or (v : option string) (dflt : string) : string :=
  match v with
  | Some s => if (s =? "")%string then dflt else s
  | None => dflt
  end.

(** [elements.x?.value === lit] *)
Definition input_is (v : option string) (lit : string) : bool :=
  match v with Some s => (s =? lit)%string | None => false end.

Definition generateRequestId (prefix : string) : M string :=
  fun w =>
    (Some (prefix ++ "-" ++ show_Z (now w) ++ "-" ++ entropy w (drawn w))%string,
     with_drawn (S (drawn w)) w).

(** A string built from [Math.random()]. *)
Definition random_string : M string :=
  fun w => (Some (entropy w (drawn w)), with_drawn (S (drawn w)) w).

Definition string_take (n : nat) (s : string) : string := substring 0 n s.
Definition string_last (n : nat) (s : string) : string :=
  substring (String.length s - n) n s.

Definition lastn {A} (n : nat) (l : list A) : list A := skipn (List.length l - n) l.

(** [truncateAddress(address)] with the default [chars = 8]; [None] is a
    TypeError: of comparing a [length] that cannot be converted, of calling
    [slice] on a value that has none, or of printing a slice. *)
Definition truncateAddress (address : JsVal) : option JsVal :=
  if negb (truthy address) then Some (JStr "")
  else
    match le_num (get address "length") (8 * 2) with
    | None => None
    | Some true => Some address
    | Some false =>
        match address with
        | JStr s => Some (JStr (string_take 8 s ++ "..." ++ string_last 8 s)%string)
        | JArr l =>
            match to_string (JArr (firstn 8 l)), to_string (JArr (lastn 8 l)) with
            | Some a, Some b => Some (JStr (a ++ "..." ++ b)%string)
            | _, _ => None
            end
        | _ => None
        end
    end.

(** [logInfo(`...`)]: the substitutions of the template literal are
    converted to strings, in order, before [logInfo] is entered; the text
    then only reaches the page and the console. *)
Definition logInfo (substitutions : list JsVal) : M unit :=
  lift (to_strings substitutions) ;;; ret tt.

(** [logInfo(`... ${truncateAddress(address)}`)] *)
Definition logAddress (address : JsVal) : M unit :=
  shown <- lift (truncateAddress address) ;;
  logInfo [shown].

(** The text of [`${truncateAddress(address)}`]; [None] is a TypeError. *)
Definition address_text (address : JsVal) : option string :=
  match truncateAddress address with
  | Some shown => to_string shown
  | None => None
  end.

Definition setTimeout (task : Task) (delay : Z) : M nat :=
  fun w =>
    (Some (nextTimer w),
     with_timers (timers w ++ [mkTimer (nextTimer w) delay task]) (S (nextTimer w)) w).

Definition without_timer (id : nat) (ts : list Timer) : list Timer :=
  List.filter (fun t => negb (t_id t =? id)%nat) ts.

Definition clearTimeout (id : nat) : M unit :=
  modify (fun w => with_timers (without_timer id (timers w)) (nextTimer w) w).

Definition updateTLendState (newState : Lifecycle) : M unit :=
  modify (with_state (set_tlendState (Some newState))).

(** [state.pendingRequests.get(requestId)]: the keys are strings, so a
    [requestId] of another type finds nothing. *)
Definition pending_get (requestId : JsVal) (w : World) : option (string * PendingRequest) :=
  match requestId with
  | JStr k => option_map (fun p => (k, p)) (pendingRequests (state w) !! k)
  | _ => None
  end.

Definition pending_delete (k : string) : M unit :=
  modify (with_state (fun s => set_pendingRequests (delete k (pendingRequests s)) s)).

Definition pending_set (k : string) (p : PendingRequest) : M unit :=
  modify (with_state (fun s => set_pendingRequests (<[k := p]> (pendingRequests s)) s)).

(** *** Message sending *)

Definition message (type : string) (requestId : option JsVal) (timestamp : Z) (payload : JsVal)
  : JsVal :=
  JObj ([("type", JStr type)]
        ++ match requestId with Some r => [("requestId", r)] | None => [] end
        ++ [("timestamp", JNum timestamp); ("payload", payload)]).

(** [state.tlendOrigin || '*'] *)
Definition targetOrigin (s : State) : string :=
  match tlendOrigin s with
  | Some o => if (o =? "")%string then "*" else o
  | None => "*"
  end.

(** Whether [postMessage] takes [target] as its target origin: ["*"],
    ["/"] or a string that parses as an absolute URL; for any other string
    it throws a SyntaxError. *)
Definition accepts_target (w : World) (target : string) : bool :=
  (target =? "*")%string || (target =? "/")%string || url_parses w target.

Definition sendToTLend (msg : JsVal) : M bool :=
  fun w =>
    match iframe w with
    | None => (Some false, w)
    | Some _ =>
        let targetOrigin := targetOrigin (state w) in
        if accepts_target w targetOrigin
        then (Some true, with_outbox ((msg, targetOrigin) :: outbox w) w)
        else (None, w)
    end.

(** [sendToTLend] of a message that holds a function: without the iframe
    it returns as usual, with it [postMessage] throws (a DataCloneError, or
    the SyntaxError of the target origin). *)
Definition sendUncloneable : M bool :=
  fun w =>
    match iframe w with
    | None => (Some false, w)
    | Some _ => (None, w)
    end.

(** Whether a message sent now is posted: the iframe is in the page and
    the target origin is one [postMessage] takes. *)
Definition can_post (w : World) : bool :=
  match iframe w with
  | Some _ => accepts_target w (targetOrigin (state w))
  | None => false
  end.

(** *** Track 1: styles, logo, disconnect *)

Definition styles_dark : JsVal :=
  JObj [ ("--primary-color", JStr "#6366f1"); ("--secondary-color", JStr "#8b5cf6");
         ("--background-color", JStr "#0f0f23"); ("--surface-color", JStr "#1a1a2e");
         ("--text-color", JStr "#ffffff"); ("--text-secondary", JStr "#a0a0b0");
         ("--border-color", JStr "#2d2d44"); ("--border-radius", JStr "12px");
         ("--button-bg", JStr "#6366f1"); ("--button-text", JStr "#ffffff");
         ("--card-bg", JStr "#1a1a2e"); ("--success-color", JStr "#10b981");
         ("--error-color", JStr "#ef4444"); ("--warning-color", JStr "#f59e0b") ].

Definition styles_light : JsVal :=
  JObj [ ("--primary-color", JStr "#6366f1"); ("--secondary-color", JStr "#8b5cf6");
         ("--background-color", JStr "#f8fafc"); ("--surface-color", JStr "#ffffff");
         ("--text-color", JStr "#1e293b"); ("--text-secondary", JStr "#64748b");
         ("--border-color", JStr "#e2e8f0"); ("--border-radius", JStr "12px");
         ("--button-bg", JStr "#6366f1"); ("--button-text", JStr "#ffffff");
         ("--card-bg", JStr "#ffffff"); ("--success-color", JStr "#10b981");
         ("--error-color", JStr "#ef4444"); ("--warning-color", JStr "#f59e0b") ].

(** The functions every object inherits from [Object.prototype]. *)
Definition inherited_functions : list string :=
  [ "constructor"; "hasOwnProperty"; "isPrototypeOf"; "propertyIsEnumerable";
    "toLocaleString"; "toString"; "valueOf";
    "__defineGetter__"; "__defineSetter__"; "__lookupGetter__"; "__lookupSetter__" ].

(** [styles[theme] || styles.dark].  The table has the own keys [dark] and
    [light].  [styles.__proto__] is [Object.prototype], a truthy object that
    is cloned as an empty one; the other inherited members are functions
    ([None]), truthy as well. *)
Definition getPartnerStyles (theme : string) : option JsVal :=
  if (theme =? "light")%string then Some styles_light
  else if (theme =? "dark")%string then Some styles_dark
  else if (theme =? "__proto__")%string then Some (JObj [])
  else if existsb (String.eqb theme) inherited_functions then None
  else Some styles_dark.

Definition sendStylesUpgrade : M unit :=
  els <- read elements ;;
  t <- read now ;;
  let theme := input_or (el_partnerTheme els) "dark" in
  match getPartnerStyles theme with
  | Some styles =>
      sendToTLend (message "STYLES_UPGRADE" None t
                     (JObj [("styles", styles); ("theme", JStr theme)])) ;;;
      ret tt
  | None => sendUncloneable ;;; ret tt
  end.

Definition sendSetLogo : M unit :=
  els <- read elements ;;
  t <- read now ;;
  let logoMode := input_or (el_logoMode els) "combined" in
  let partnerName := input_or (el_partnerName els) "Partner Finance" in
  sendToTLend (message "SET_LOGO" None t
                 (JObj [("mode", JStr logoMode); ("partnerName", JStr partnerName);
                        ("partnerLogoUrl", JStr "https://partner.example.com/logo.svg")])) ;;;
  ret tt.

(** [sendDisconnect(reason = 'user_initiated')] *)
Definition sendDisconnect (reason : JsVal) : M unit :=
  let reason := match reason with JUndefined => JStr "user_initiated" | r => r end in
  t <- read now ;;
  sendToTLend (message "DISCONNECT" None t (JObj [("reason", reason)])) ;;;
  logInfo [reason].

(** *** Track 2: authentication *)

Definition sendAuthCheckRequest : M unit :=
  s <- read state ;;
  if negb (truthy (walletAddress s)) then ret tt
  else
    let walletAddress := walletAddress s in
    requestId <- generateRequestId "auth-check" ;;
    t <- read now ;;
    let msg := message "AUTH_CHECK_REQUEST" (Some (JStr requestId)) t
                 (JObj [("walletAddress", walletAddress)]) in
    tid <- setTimeout (TAuthCheckTimeout requestId) AUTH_CHECK_TIMEOUT ;;
    pending_set requestId (mkPending AUTH_CHECK t tid) ;;;
    sendToTLend msg ;;;
    ret tt.

Definition handleAuthCheckTimeout (requestId : string) : M unit :=
  w <- world ;;
  match pending_get (JStr requestId) w with
  | Some (k, _) => pending_delete k
  | None => ret tt
  end.

(** The block shared by both reply handlers:
    [if (pending) { clearTimeout(pending.timeout); pendingRequests.delete(requestId) }] *)
Definition clear_pending (requestId : JsVal) : M unit :=
  w <- world ;;
  match pending_get requestId w with
  | Some (k, pending) => clearTimeout (p_timeout pending) ;;; pending_delete k
  | None => ret tt
  end.

(** [handleAuthCheckResponse] after that block. *)
Definition afterAuthCheckResponse (payload : JsVal) : M unit :=
  (* const { authenticated, matchesRequested, address, expiresAt } = payload *)
  authenticated <- lift (prop payload "authenticated") ;;
  let matchesRequested := get payload "matchesRequested" in
  let address := get payload "address" in
  if negb (truthy authenticated) || negb (truthy matchesRequested) then
    updateTLendState PENDING_AUTH ;;;
    s <- read state ;;
    if walletConnected s then setTimeout TSendAuthCredentials 500 ;;; ret tt else ret tt
  else
    logAddress address.

Definition handleAuthCheckResponse (msg : JsVal) : M unit :=
  let requestId := get msg "requestId" in
  let payload := get msg "payload" in
  clear_pending requestId ;;;
  afterAuthCheckResponse payload.

(** Hexadecimal rendering of a number: [n.toString(16)]. *)
Definition show_hex (z : Z) : string :=
  HexadecimalString.NilZero.string_of_int (Z.to_hex_int z).

Fixpoint pad_zeros (n : nat) (s : string) : string :=
  match n with
  | O => s
  | S n' => String "0" (pad_zeros n' s)
  end.

(** [s.padStart(width, '0')] *)
Definition padStart0 (width : nat) (s : string) : string :=
  pad_zeros (width - String.length s) s.

Definition generateMockTonProof (address : JsVal) : M JsVal :=
  t <- read now ;;
  let expirationTime := t / 1000 + 30 * 60 in
  let expirationHex := padStart0 8 (show_hex expirationTime) in
  mockHmacSignature <- random_string ;;
  let payloadHex := (expirationHex ++ mockHmacSignature)%string in
  mockPublicKey <- random_string ;;
  r1 <- random_string ;;
  let mockStateInit := ("te6cckECFgEAAwQA" ++ r1)%string in
  mockSignature <- random_string ;;
  ret (JObj [ ("account", JObj [ ("address", address); ("chain", JStr "-239");
                                 ("publicKey", JStr mockPublicKey);
                                 ("walletStateInit", JStr mockStateInit) ]);
              ("proof", JObj [ ("timestamp", JNum (t / 1000));
                               ("domain", JObj [ ("lengthBytes", JNum 15);
                                                 ("value", JStr "partner.example") ]);
                               ("payload", JStr payloadHex);
                               ("signature", JStr mockSignature) ]) ]).

Definition sendAuthCredentials : M unit :=
  s <- read state ;;
  if negb (truthy (walletAddress s)) then ret tt
  else
    let walletAddress := walletAddress s in
    requestId <- generateRequestId "auth-cred" ;;
    credentials <-
      (if truthy (walletAccount s) && truthy (tonProof s) then
         ret (JObj [ ("account", JObj [ ("address", get (walletAccount s) "address");
                                        ("chain", get (walletAccount s) "chain");
                                        ("publicKey", get (walletAccount s) "publicKey");
                                        ("walletStateInit", get (walletAccount s) "walletStateInit") ]);
                     ("proof", tonProof s) ])
       else generateMockTonProof walletAddress) ;;
    els <- read elements ;;
    t <- read now ;;
    let partnerId := input_or (el_partnerId els) "partner_xyz" in
    let msg := message "AUTH_CREDENTIALS" (Some (JStr requestId)) t
                 (JObj [ ("account", get credentials "account");
                         ("proof", get credentials "proof");
                         ("partnerId", JStr partnerId);
                         ("referenceId", JStr (partnerId ++ "-session-" ++ show_Z t)%string) ]) in
    tid <- setTimeout (TAuthCredentialsTimeout requestId) AUTH_CREDENTIALS_TIMEOUT ;;
    pending_set requestId (mkPending AUTH_CREDENTIALS t tid) ;;;
    sendToTLend msg ;;;
    ret tt.

Definition handleAuthCredentialsTimeout (requestId : string) : M unit :=
  w <- world ;;
  match pending_get (JStr requestId) w with
  | Some (k, _) =>
      pending_delete k ;;;
      let autoReady := el_autoReadyMode (elements w) in
      when (input_is autoReady "immediate") (updateTLendState READY)
  | None => ret tt
  end.

(** [handleAuthResult] after the block that resolves the request. *)
Definition afterAuthResult (payload : JsVal) : M unit :=
  success <- lift (prop payload "success") ;;
  if truthy success then
    logAddress (get payload "address") ;;;
    modify (with_state (set_walletAddress (get payload "address")))
  else
    let error := get payload "error" in
    logInfo [optget error "code"; optget error "message"] ;;;
    els <- read elements ;;
    let autoReady := el_autoReadyMode els in
    if input_is autoReady "immediate" then updateTLendState READY
    else updateTLendState ERROR.

Definition handleAuthResult (msg : JsVal) : M unit :=
  let requestId := get msg "requestId" in
  let payload := get msg "payload" in
  clear_pending requestId ;;;
  afterAuthResult payload.

Definition handleAuthRequest (msg : JsVal) : M unit :=
  let payload := get msg "payload" in
  let reason := or_else (optget payload "reason") (JStr "unknown") in
  let currentAddress := optget payload "currentAddress" in
  logInfo [reason] ;;;
  (if truthy currentAddress then logAddress currentAddress else ret tt) ;;;
  s <- read state ;;
  if walletConnected s && truthy (walletAddress s) then
    updateTLendState PENDING_AUTH ;;;
    setTimeout TSendAuthCredentials 500 ;;;
    ret tt
  else
    sendDisconnect (JStr "session_expired").

(** *** Track 3: repayment *)

(** [showRepayPanel] and [showRepayModal] follow the assignment.  They
    write the payload into the panel and the modal, when the page has them;
    a payload they cannot show (no [amount], no [transaction], a field that
    cannot be printed) ends the handler with a TypeError. *)
Definition handleRepayRequest (msg : JsVal) : M unit :=
  t <- read now ;;
  modify (with_state (set_pendingRepayRequest
                        (Some (mkRepay (get msg "requestId") (get msg "payload") t)))) ;;;
  w <- world ;;
  if renders w (get msg "payload") then ret tt else throw.

Fixpoint contains (needle hay : string) : bool :=
  if String.prefix needle hay then true
  else match hay with
       | EmptyString => false
       | String _ rest => contains needle rest
       end.

(** [m?.includes('rejected')]; [None] is the TypeError of a value without
    an [includes] method. *)
Definition includes_rejected (m : JsVal) : option JsVal :=
  match m with
  | JUndefined | JNull => Some JUndefined
  | JStr s => Some (JBool (contains "rejected" s))
  | JArr items => Some (JBool (existsb (fun x => is_str x "rejected") items))
  | _ => None
  end.

(** Outcome of [tonConnectUI.sendTransaction]: the value the promise
    resolves to, or the error it rejects with. *)
Inductive SignOutcome : Type :=
| SignOk (result : JsVal)
| SignFail (error : JsVal).

(** The TypeError the engine raises inside the [try] block. *)
Definition type_error (w : World) (f : Fault) : JsVal :=
  JObj [("message", JStr (fault_text w f))].

(** The [catch (error)] block of [approveRepayRequest]. *)
Definition approve_catch (requestId error : JsVal) : M unit :=
  emsg <- lift (prop error "message") ;;
  logInfo [emsg] ;;;
  rejected <- lift (includes_rejected emsg) ;;
  t <- read now ;;
  sendToTLend
    (message "REPAY_RESULT" (Some requestId) t
       (JObj [ ("success", JBool false);
               ("error", JObj [ ("code", JStr (if truthy rejected then "USER_REJECTED"
                                               else "TRANSACTION_FAILED"));
                                ("message", emsg);
                                ("userCancelled", rejected) ]) ])) ;;;
  ret tt.

(** The [try] block after the [await]: [result.boc] is read and printed
    into the explorer URL.  A TypeError there is caught.  An exception of
    [postMessage] is caught too, and raised again by the [sendToTLend] of
    the [catch] block, with nothing changed in between: it is left to
    propagate. *)
Definition approve_signed (requestId result : JsVal) : M unit :=
  w <- world ;;
  match prop result "boc" with
  | None => approve_catch requestId (type_error w (BadResult result))
  | Some boc =>
      match to_string boc with
      | None => approve_catch requestId (type_error w (BadResult result))
      | Some text =>
          t <- read now ;;
          sendToTLend
            (message "REPAY_RESULT" (Some requestId) t
               (JObj [ ("success", JBool true);
                       ("transactionHash", boc);
                       ("explorerUrl", JStr ("https://tonscan.org/tx/" ++ text)%string) ])) ;;;
          ret tt
      end
  end.

Definition repay_cleanup : M unit :=
  modify (with_state (set_pendingRepayRequest None)).

(** Whether the argument of [sendTransaction] can be built:
    [payload.transaction.messages.map(msg => ({ address: msg.address, ... }))]. *)
Definition transaction_args_ok (transaction : JsVal) : bool :=
  match get transaction "messages" with
  | JArr items => forallb (fun m => negb (nullish m)) items
  | _ => false
  end.

(** [approveRepayRequest] up to its [await]: with a signer, the request is
    handed to it and the function is suspended (its [requestId] joins
    [signing]); the slot is freed only when the function resumes. *)
Definition approveRepayRequest : M unit :=
  s <- read state ;;
  match pendingRepayRequest s with
  | None => ret tt
  | Some req =>
      let requestId := r_requestId req in
      let payload := r_payload req in
      useSigner <-
        (if tonConnectUI s && walletConnected s then
           transaction <- lift (prop payload "transaction") ;; ret (truthy transaction)
         else ret false) ;;
      if useSigner : bool then
        if transaction_args_ok (get payload "transaction") then
          modify (fun w => with_signing (signing w ++ [requestId]) w)
        else
          w <- world ;;
          approve_catch requestId (type_error w (BadTransaction (get payload "transaction"))) ;;;
          repay_cleanup
      else
        setTimeout (TMockRepayResult requestId) 2000 ;;;
        repay_cleanup
  end.

(** [approveRepayRequest] from the [await] on. *)
Definition approve_resume (requestId : JsVal) (outcome : SignOutcome) : M unit :=
  match outcome with
  | SignOk result => approve_signed requestId result
  | SignFail error => approve_catch requestId error
  end ;;;
  repay_cleanup.

(** The callback of the simulated transaction. *)
Definition mockRepayResult (requestId : JsVal) : M unit :=
  mockTxHash <- random_string ;;
  t <- read now ;;
  sendToTLend
    (message "REPAY_RESULT" (Some requestId) t
       (JObj [ ("success", JBool true);
               ("transactionHash", JStr mockTxHash);
               ("explorerUrl", JStr ("https://tonscan.org/tx/" ++ mockTxHash)%string) ])) ;;;
  ret tt.

(** [rejectRepayRequest(reason = 'USER_REJECTED')] *)
Definition rejectRepayRequest (reason : JsVal) : M unit :=
  let reason := match reason with JUndefined => JStr "USER_REJECTED" | r => r end in
  s <- read state ;;
  match pendingRepayRequest s with
  | None => ret tt
  | Some req =>
      let requestId := r_requestId req in
      t <- read now ;;
      let result :=
        message "REPAY_RESULT" (Some requestId) t
          (JObj [ ("success", JBool false);
                  ("error", JObj [ ("code", reason);
                                   ("message", JStr (if is_str reason "USER_REJECTED"
                                                     then "Transaction was rejected by user"
                                                     else "Transaction failed"));
                                   ("userCancelled", JBool (is_str reason "USER_REJECTED")) ]) ]) in
      sendToTLend result ;;;
      repay_cleanup
  end.

(** *** Message handler *)

Definition handleTLendLoaded (msg : JsVal) : M unit :=
  modify (with_state (set_iframeLoaded true)) ;;;
  modify (with_state (set_tlendVersion (optget (get msg "payload") "version"))) ;;;
  let capabilities := or_else (optget (get msg "payload") "capabilities") (JArr []) in
  modify (with_state (set_tlendCapabilities capabilities)) ;;;
  updateTLendState LOADING ;;;
  (* logInfo(`TLend loaded: v${state.tlendVersion}, capabilities:
     ${state.tlendCapabilities.join(', ')}`) *)
  logInfo [optget (get msg "payload") "version"] ;;;
  lift (match capabilities with JArr items => join ", " items | _ => None end) ;;;
  setTimeout TSendStylesUpgrade 100 ;;;
  setTimeout TSendSetLogo 200 ;;;
  els <- read elements ;;
  let skipAuth := input_is (el_skipAuth els) "yes" in
  let autoReady := el_autoReadyMode els in
  if skipAuth then
    if input_is autoReady "immediate" then setTimeout TSetReady 500 ;;; ret tt else ret tt
  else
    setTimeout TSendAuthCheckRequest 300 ;;; ret tt.

Definition handleTLendReady (msg : JsVal) : M unit :=
  modify (with_state (set_iframeLoaded true)) ;;;
  logAddress (optget (get msg "payload") "address") ;;;
  els <- read elements ;;
  s <- read state ;;
  let skipAuth := input_is (el_skipAuth els) "yes" in
  if negb skipAuth && walletConnected s then
    setTimeout TSendStylesUpgrade 100 ;;;
    setTimeout TSendSetLogo 200 ;;;
    setTimeout TSendAuthCheckRequest 400 ;;;
    ret tt
  else if skipAuth then updateTLendState READY
  else updateTLendState READY.

Definition handleError (msg : JsVal) : M unit :=
  let payload := get msg "payload" in
  code <- lift (prop payload "code") ;;
  logInfo [code; get payload "message"] ;;;
  if negb (truthy (get payload "recoverable")) then updateTLendState ERROR else ret tt.

(** [CONFIG.TLEND_ORIGINS.includes(origin)] *)
Definition origin_listed (origin : string) (origins : list string) : bool :=
  existsb (String.eqb origin) origins.

(** [!state.tlendOrigin] *)
Definition no_origin (s : State) : bool :=
  match tlendOrigin s with
  | Some o => (o =? "")%string
  | None => true
  end.

(** The first statement of [handleMessage]. *)
Definition store_origin (origin : string) : M unit :=
  s <- read state ;;
  if no_origin s then
    modify (with_state (set_tlendOrigin (Some origin))) ;;;
    origins <- read TLEND_ORIGINS ;;
    if negb (origin_listed origin origins) then modify (with_origins (origins ++ [origin]))
    else ret tt
  else ret tt.

(** [handleMessage(event)], with [event.origin] and [event.data].  The
    [logEvent] before the [switch] prints the type when the page has the
    log element; a type it cannot print is not a string, so that the
    [default] branch is taken and fails on the same conversion: the outcome
    does not depend on the log element. *)
Definition handleMessage (origin : string) (data : JsVal) : M unit :=
  store_origin origin ;;;
  let msg := data in
  if negb (truthy msg) || negb (JsType_eqb (typeof msg) TObject) || negb (truthy (get msg "type"))
  then ret tt
  else
    let type := get msg "type" in
    if is_str type "TLEND_LOADED" then handleTLendLoaded msg
    else if is_str type "AUTH_CHECK_RESPONSE" then handleAuthCheckResponse msg
    else if is_str type "AUTH_RESULT" then handleAuthResult msg
    else if is_str type "TLEND_READY" then handleTLendReady msg
    else if is_str type "REPAY_REQUEST" then handleRepayRequest msg
    else if is_str type "AUTH_REQUEST" then handleAuthRequest msg
    else if is_str type "ERROR" then handleError msg
    else logInfo [type].

(** *** Iframe management *)

Definition loadIframe : M unit :=
  els <- read elements ;;
  match el_tlendUrl els with
  | None => ret tt
  | Some url =>
      if (url =? "")%string then ret tt
      else if negb (el_iframeContainer els) then ret tt
      else
        modify (with_iframe None) ;;;
        modify (with_state (set_iframeLoaded false)) ;;;
        modify (with_state (set_tlendState None)) ;;;
        modify (with_state (set_tlendOrigin None)) ;;;
        modify (with_state (set_tlendVersion JNull)) ;;;
        modify (with_state (set_tlendCapabilities (JArr []))) ;;;
        modify (with_state (set_pendingRequests ∅)) ;;;
        modify (with_iframe (Some url)) ;;;
        updateTLendState LOADING
  end.

(** [iframe.onload] *)
Definition iframe_onload : M unit :=
  els <- read elements ;;
  s <- read state ;;
  let autoReady := el_autoReadyMode els in
  let skipAuth := input_is (el_skipAuth els) "yes" in
  if negb (iframeLoaded s) then
    if input_is autoReady "immediate" && skipAuth then setTimeout TOnloadReady 2000 ;;; ret tt
    else ret tt
  else ret tt.

Definition onloadReady : M unit :=
  s <- read state ;;
  if negb (iframeLoaded s) then
    modify (with_state (set_iframeLoaded true)) ;;;
    updateTLendState READY
  else ret tt.

Definition reloadIframe : M unit :=
  w <- world ;;
  match iframe w with
  | Some _ =>
      modify (with_state (set_iframeLoaded false)) ;;;
      modify (with_state (set_tlendState None)) ;;;
      modify (with_state (set_pendingRequests ∅)) ;;;
      updateTLendState LOADING
  | None => ret tt
  end.

Definition forceSetReady : M unit :=
  modify (with_state (set_iframeLoaded true)) ;;;
  updateTLendState READY.

(** *** Wallet *)

(** What [onStatusChange] receives for a connected wallet:
    [wallet.account] and [wallet.connectItems]. *)
Record Wallet : Type := mkWallet { wl_account : JsVal; wl_connectItems : JsVal }.

Definition onStatusChange (wallet : option Wallet) : M unit :=
  match wallet with
  | Some wl =>
      modify (with_state (set_walletConnected true)) ;;;
      address <- lift (prop (wl_account wl) "address") ;;
      modify (with_state (set_walletAddress address)) ;;;
      modify (with_state (set_walletAccount (wl_account wl))) ;;;
      (* if (wallet.connectItems?.tonProof && 'proof' in wallet.connectItems.tonProof) *)
      let item := optget (wl_connectItems wl) "tonProof" in
      (if truthy item then
         match item with
         | JObj props =>
             if has_own "proof" props then modify (with_state (set_tonProof (get item "proof")))
             else ret tt
         | JArr _ => ret tt
         | _ => throw
         end
       else ret tt) ;;;
      logAddress address
  | None =>
      s <- read state ;;
      let wasConnected := walletConnected s in
      modify (with_state (set_walletConnected false)) ;;;
      modify (with_state (set_walletAddress JNull)) ;;;
      modify (with_state (set_walletAccount JNull)) ;;;
      modify (with_state (set_tonProof JNull)) ;;;
      if wasConnected && iframeLoaded s then sendDisconnect (JStr "user_initiated") else ret tt
  end.

(** *** The event loop *)

Definition run_task (task : Task) : M unit :=
  match task with
  | TSendStylesUpgrade => sendStylesUpgrade
  | TSendSetLogo => sendSetLogo
  | TSendAuthCheckRequest => sendAuthCheckRequest
  | TSendAuthCredentials => sendAuthCredentials
  | TAuthCheckTimeout requestId => handleAuthCheckTimeout requestId
  | TAuthCredentialsTimeout requestId => handleAuthCredentialsTimeout requestId
  | TSetReady => updateTLendState READY
  | TOnloadReady => onloadReady
  | TMockRepayResult requestId => mockRepayResult requestId
  end.

Definition find_timer (id : nat) (w : World) : option Timer :=
  List.find (fun t => (t_id t =? id)%nat) (timers w).

(** A timer expires: it leaves the table and its callback runs. *)
Definition fire (id : nat) : M unit :=
  w <- world ;;
  match find_timer id w with
  | Some t => clearTimeout id ;;; run_task (t_task t)
  | None => ret tt
  end.

(** A [sendTransaction] promise settles: the suspended
    [approveRepayRequest] at position [i] resumes. *)
Definition settle (i : nat) (outcome : SignOutcome) : M unit :=
  w <- world ;;
  match List.nth_error (signing w) i with
  | Some requestId =>
      modify (with_signing (firstn i (signing w) ++ skipn (S i) (signing w))) ;;;
      approve_resume requestId outcome
  | None => ret tt
  end.

(** Everything that can happen to the page once the script is running. *)
Inductive Action : Type :=
| AMessage (origin : string) (data : JsVal)       (* window 'message' event *)
| AFire (id : nat)                                (* a timer expires *)
| ASettle (i : nat) (outcome : SignOutcome)       (* the signer answers *)
| ATick (ms : Z)                                  (* the clock moves *)
| AEdit (els : Elements)                          (* the user edits the inputs *)
| AWalletStatus (wallet : option Wallet)          (* TON Connect status change *)
| ATonConnectReady                                (* initTonConnect succeeded *)
| AIframeOnload
| AThemeChange
| AClickLoadIframe
| AClickReloadIframe
| AClickSendStyles
| AClickSendLogo
| AClickSendAuthCheck
| AClickSendAuthCreds
| AClickSetReady
| AClickApprove
| ACallSendDisconnect (reason : JsVal)            (* button, or window.PartnerMock *)
| ACallReject (reason : JsVal).                   (* buttons, or window.PartnerMock *)

Definition handler (a : Action) : M unit :=
  match a with
  | AMessage origin data => handleMessage origin data
  | AFire id => fire id
  | ASettle i outcome => settle i outcome
  | ATick ms => modify (fun w => with_now (now w + ms) w)
  | AEdit els => modify (with_elements els)
  | AWalletStatus wallet => onStatusChange wallet
  | ATonConnectReady => modify (with_state (set_tonConnectUI true))
  | AIframeOnload => iframe_onload
  | AThemeChange =>
      s <- read state ;;
      if iframeLoaded s then sendStylesUpgrade else ret tt
  | AClickLoadIframe => loadIframe
  | AClickReloadIframe => reloadIframe
  | AClickSendStyles => sendStylesUpgrade
  | AClickSendLogo => sendSetLogo
  | AClickSendAuthCheck => sendAuthCheckRequest
  | AClickSendAuthCreds => sendAuthCredentials
  | AClickSetReady => forceSetReady
  | AClickApprove => approveRepayRequest
  | ACallSendDisconnect reason => sendDisconnect reason
  | ACallReject reason => rejectRepayRequest reason
  end.

Definition step (a : Action) (w : World) : World := exec (handler a) w.

Definition run (acts : list Action) (w : World) : World := fold_left (fun w a => step a w) acts w.

(** The world when the script has just been loaded. *)
Definition initial_world (els : Elements) (entropy : nat -> string) (url_parses : string -> bool)
    (renders : JsVal -> bool) (fault_text : Fault -> string) (now : Z) : World :=
  mkWorld initial_state CONFIG_TLEND_ORIGINS els None [] O [] now entropy O url_parses renders
    fault_text [].

(** *** Notions used to state the properties *)

(** The world after the first statement of [handleMessage]. *)
Definition record_origin (origin : string) (w : World) : World :=
  if no_origin (state w) then
    let w1 := with_state (set_tlendOrigin (Some origin)) w in
    if origin_listed origin (TLEND_ORIGINS w) then w1
    else with_origins (TLEND_ORIGINS w ++ [origin]) w1
  else w.

(** The world after the block that resolves a pending request. *)
Definition resolved (requestId : JsVal) (w : World) : World :=
  match pending_get requestId w with
  | Some (k, pending) =>
      exec (pending_delete k) (exec (clearTimeout (p_timeout pending)) w)
  | None => w
  end.

(** [posted_since w w' target]: the outbox of [w'] is that of [w] with
    messages added, every one of them posted to [target]. *)
Definition posted_since (w w' : World) (target : string) : Prop :=
  exists new, outbox w' = new ++ outbox w /\ Forall (fun p => snd p = target) new.

(** [frame w w']: from [w] to [w'] the stored origin and the allow-list are
    unchanged, and what was posted went to the target origin of [w]. *)
Definition frame (w w' : World) : Prop :=
  tlendOrigin (state w') = tlendOrigin (state w)
  /\ TLEND_ORIGINS w' = TLEND_ORIGINS w
  /\ posted_since w w' (targetOrigin (state w)).

Definition keeps {A} (m : M A) : Prop := forall w, frame w (snd (m w)).

Definition is_load (a : Action) : bool :=
  match a with AClickLoadIframe => true | _ => false end.

Definition is_message (a : Action) : bool :=
  match a with AMessage _ _ => true | _ => false end.

(** The error code [rejectRepayRequest] reports for its argument. *)
Definition reject_code (reason : JsVal) : JsVal :=
  match reason with JUndefined => JStr "USER_REJECTED" | r => r end.

(** [currentAddress?: string] of the AUTH_REQUEST payload. *)
Definition address_or_absent (v : JsVal) : Prop :=
  match v with JUndefined | JStr _ => True | _ => False end.

(** Payloads that are not an object, or whose [type] is not a string, or
    whose [type] is not one of the thirteen protocol types. *)
Definition dropped (v : JsVal) : Prop :=
  typeof v <> TObject \/ v = JNull \/ typeof (get v "type") <> TString
  \/ exists t, get v "type" = JStr t /\ Guards.isValidMessageType t = false.

(** Malformed payloads: the above, or a missing or non-numeric
    [timestamp]. *)
Definition malformed (v : JsVal) : Prop :=
  dropped v \/ typeof (get v "timestamp") <> TNumber.

(** *** Further code of the script, and notions for the further properties *)

(** [generateProofPayload()], the synchronous mock challenge. *)
Definition generateProofPayload (now_ms : Z) : string :=
  ("partner-mock-" ++ show_Z (now_ms / 1000 + 300))%string.

(** A message as the protocol wants the partner to send it: it passes the
    validator of the types package and is of a Partner -> TLend type. *)
Definition outbound (msg : JsVal) : Prop :=
  Guards.isIframeMessage msg = true /\ Guards.isPartnerToTLendMessage msg = Some true.

(** [sends P m]: [m] only adds to the outbox, and what it adds satisfies
    [P]. *)
Definition sends (P : JsVal -> Prop) {A} (m : M A) : Prop :=
  forall w, exists new,
    outbox (snd (m w)) = new ++ outbox w /\ Forall (fun p => P (fst p)) new.

(** The stored origin, if any, is on the allow-list. *)
Definition origin_on_list (w : World) : Prop :=
  match tlendOrigin (state w) with
  | Some o => In o (TLEND_ORIGINS w)
  | None => True
  end.

(** The origins of the messages received during a run. *)
Fixpoint senders (acts : list Action) : list string :=
  match acts with
  | [] => []
  | AMessage origin _ :: rest => origin :: senders rest
  | _ :: rest => senders rest
  end.

(** The request whose timeout a callback is. *)
Definition timeout_of (task : Task) : option string :=
  match task with
  | TAuthCheckTimeout requestId | TAuthCredentialsTimeout requestId => Some requestId
  | _ => None
  end.

(** The timer table holds the timeout of the pending request [k -> p]. *)
Definition has_timeout (k : string) (p : PendingRequest) (w : World) : Prop :=
  exists t, In t (timers w) /\ t_id t = p_timeout p /\ timeout_of (t_task t) = Some k.

(** Timer handles are below [nextTimer] and all different, and every
    pending request, but for the one named by [x], has its timeout in the
    table. *)
Definition timed_except (x : option string) (w : World) : Prop :=
  Forall (fun t => (t_id t < nextTimer w)%nat) (timers w)
  /\ NoDup (map t_id (timers w))
  /\ forall k p, pendingRequests (state w) !! k = Some p -> Some k <> x -> has_timeout k p w.

Definition pending_timed (w : World) : Prop := timed_except None w.

Definition keeps_timed {A} (m : M A) : Prop :=
  forall w, pending_timed w -> pending_timed (snd (m w)).

(** Outcomes of [sendTransaction] that the code after the [await] handles
    without an exception: a result whose [boc] can be printed into the
    explorer URL, or an error whose [message] is a string. *)
Definition settles (outcome : SignOutcome) : Prop :=
  match outcome with
  | SignOk result => nullish result = false /\ to_string (get result "boc") <> None
  | SignFail error => exists s, get error "message" = JStr s
  end.

Definition signed_ok (outcome : SignOutcome) : bool :=
  match outcome with SignOk _ => true | SignFail _ => false end.

End App.

(* ===================================================================== *)
(** ** Scenarios: concrete pages, messages and runs *)
(* ===================================================================== *)

Module Scenario.
Import App.

Definition page : Elements :=
  mkElements (Some "https://app-test.tlend.co") (Some "partner_xyz") (Some "Partner Finance")
             (Some "dark") (Some "combined") (Some "wait") (Some "no") true.

Definition entropy (n : nat) : string := ("k3j9x" ++ show_Z (Z.of_nat n))%string.

Definition tlend : string := "https://app-test.tlend.co".
Definition stranger : string := "https://evil.example".

(** A stand-in for the URL parser: what starts with a web scheme. *)
Definition url_parses (s : string) : bool :=
  String.prefix "https://" s || String.prefix "http://" s.

(** A stand-in for the page: its panel shows a request that has an amount
    and a transaction. *)
Definition renders (payload : JsVal) : bool :=
  negb (nullish (get payload "amount")) && negb (nullish (get payload "transaction")).

(** A stand-in for the engine's wording. *)
Definition fault_text (f : Fault) : string :=
  match f with
  | BadTransaction _ => "Cannot read properties of undefined (reading 'map')"
  | BadResult _ => "Cannot read properties of undefined (reading 'boc')"
  end.

Definition start : World := initial_world page entropy url_parses renders fault_text 1734278400000.

Definition msg_loaded : JsVal :=
  JObj [("type", JStr "TLEND_LOADED"); ("timestamp", JNum 1734278400050);
        ("payload", JObj [("version", JStr "2.1.0");
                          ("capabilities", JArr [JStr "auth_delegation"; JStr "custom_styles"])])].

Definition msg_ready : JsVal :=
  JObj [("type", JStr "TLEND_READY"); ("timestamp", JNum 1734278400100);
        ("payload", JObj [("address", JNull)])].

Definition wallet : Wallet :=
  mkWallet
    (JObj [("address", JStr "0:fcb91a3a3816d0f7b8c2c76108b8a9bc5a6b7a55bd79f8ab101c52db29232260");
           ("chain", JStr "-239"); ("publicKey", JStr "a1b2"); ("walletStateInit", JStr "te6c")])
    JUndefined.

(** The iframe is loaded and has announced itself; no wallet yet. *)
Definition ready : World := run [AClickLoadIframe; AMessage tlend msg_ready] start.

(** ... and then the wallet connects. *)
Definition connected : World := run [AWalletStatus (Some wallet)] ready.




Definition msg_auth_failed (requestId : JsVal) : JsVal :=
  JObj [("type", JStr "AUTH_RESULT"); ("requestId", requestId); ("timestamp", JNum 1734278401000);
        ("payload", JObj [("success", JBool false);
                          ("error", JObj [("code", JStr "INVALID_PROOF");
                                          ("message", JStr "TON Proof verification failed")])])].

(** The same failure report without its [timestamp]. *)
Definition msg_auth_failed_no_timestamp : JsVal :=
  JObj [("type", JStr "AUTH_RESULT"); ("requestId", JStr "auth-001");
        ("payload", JObj [("success", JBool false)])].

Definition msg_auth_request : JsVal :=
  JObj [("type", JStr "AUTH_REQUEST"); ("timestamp", JNum 1734290000000);
        ("payload", JObj [("reason", JStr "jwt_expired")])].

Definition msg_repay_request : JsVal :=
  JObj [("type", JStr "REPAY_REQUEST"); ("requestId", JStr "repay-001");
        ("timestamp", JNum 1734278500000);
        ("payload", JObj [("lendId", JNum 12345); ("nftIndex", JNum 42)])].

Definition msg_unknown : JsVal :=
  JObj [("type", JStr "PING"); ("timestamp", JNum 1734278400500)].

(** The same, with the auto-ready input set to [immediate]. *)
Definition connected_immediate : World :=
  run [AEdit (mkElements (Some "https://app-test.tlend.co") (Some "partner_xyz")
                (Some "Partner Finance") (Some "dark") (Some "combined") (Some "immediate")
                (Some "no") true)] connected.

(** A repayment request is waiting for the user. *)
Definition repay_pending : World := run [AMessage tlend msg_repay_request] ready.

(** Credentials have been submitted and their reply is awaited ... *)
Definition credentials_sent : World := run [AClickSendAuthCreds] connected.
Definition sent_id : string := "auth-cred-1734278400000-k3j9x0".

(** ... until the 30 s timer expires. *)
Definition timed_out : World := run [ATick 30000; AFire 0] credentials_sent.

(** A Partner -> TLend message sent back to the page. *)
Definition msg_echo : JsVal :=
  JObj [("type", JStr "DISCONNECT"); ("timestamp", JNum 1734278400700);
        ("payload", JObj [("reason", JStr "user_initiated")])].

Definition msg_auth_ok : JsVal :=
  JObj [("type", JStr "AUTH_RESULT"); ("requestId", JStr sent_id);
        ("timestamp", JNum 1734278401000);
        ("payload", JObj [("success", JBool true);
                          ("address", JStr "0:fcb91a3a3816d0f7b8c2c76108b8a9bc5a6b7a55bd79f8ab101c52db29232260");
                          ("expiresAt", JNum 1734282001000)])].

(** A repayment request that carries the transaction to sign. *)
Definition msg_repay_tx : JsVal :=
  JObj [("type", JStr "REPAY_REQUEST"); ("requestId", JStr "repay-002");
        ("timestamp", JNum 1734278500000);
        ("payload",
         JObj [("lendId", JNum 12345);
               ("transaction",
                JObj [("validUntil", JNum 1734278800);
                      ("messages",
                       JArr [JObj [("address", JStr "EQBvW8Z5huBkMJYdnfAEM5JqTNkuWX3diqYENkWsIL0XggGG");
                                   ("amount", JStr "1000000000");
                                   ("payload", JStr "te6cckEBAQEAAgAAAEysuc0=")]])])])].

(** TON Connect is up, the wallet is connected, a request waits. *)
Definition signer_ready : World :=
  run [ATonConnectReady; AMessage tlend msg_repay_tx] connected.

(** ... and the user has approved it: the wallet is signing. *)
Definition signing_now : World := run [AClickApprove] signer_ready.

Definition sign_rejected : SignOutcome :=
  SignFail (JObj [("message", JStr "User rejected the transaction")]).

Definition sign_done : SignOutcome := SignOk (JObj [("boc", JStr "te6cckEBAgEAqgAB4YgB")]).

(** The wallet is connected before the iframe announces itself. *)
Definition wallet_first : World := run [AClickLoadIframe; AWalletStatus (Some wallet)] start.

(** Messages that a log line cannot print: a number has no [slice], and
    an object with a [toString] member of its own, which is no function
    once the message has been cloned, cannot be converted to a string. *)
Definition unprintable : JsVal := JObj [("toString", JNum 0)].

Definition msg_ready_numeric : JsVal :=
  JObj [("type", JStr "TLEND_READY"); ("timestamp", JNum 1734278400100);
        ("payload", JObj [("address", JNum 5)])].

Definition msg_loaded_unprintable : JsVal :=
  JObj [("type", JStr "TLEND_LOADED"); ("timestamp", JNum 1734278400050);
        ("payload", JObj [("version", unprintable); ("capabilities", JArr [])])].

Definition msg_unprintable_type : JsVal :=
  JObj [("type", unprintable); ("timestamp", JNum 1734278400050)].

Definition msg_check_unauthenticated : JsVal :=
  JObj [("type", JStr "AUTH_CHECK_RESPONSE"); ("requestId", JStr "auth-check-001");
        ("timestamp", JNum 1734278400400);
        ("payload", JObj [("authenticated", JBool false); ("matchesRequested", JBool false);
                          ("address", JNull)])].

End Scenario.


(* ===================================================================== *)
(** * Properties *)
(* ===================================================================== *)

(** ** The codec *)

Section CodecFacts.
Import Codec.

(** The hash and the MAC agree with the published test vectors
    (FIPS 180-4 "abc", RFC 4231 test case 2). *)
Example sha256_abc :
  hex_encode (sha256 (bytes_of_string "abc"))
  = "ba7816bf8f01cfea414140de5dae2223b00361a396177a9cb410ff61f20015ad".
Proof. vm_compute. reflexivity. Qed.

Example hmac_sha256_rfc4231_2 :
  hex_encode (hmac_sha256 (bytes_of_string "Jefe") (bytes_of_string "what do ya want for nothing?"))
  = "5bdcc146bf60754e6a042426089575c75a003f089d2739839dec58b964ec3843".
Proof. vm_compute. reflexivity. Qed.

Lemma byte_val_range (b : byte) : 0 <= byte_val b < 256.
Proof.
  unfold byte_val. pose proof (Strings.Byte.to_N_bounded b). lia.
Qed.

Lemma byte_of_val (b : byte) : byte_of (byte_val b) = b.
Proof.
  unfold byte_of. rewrite Z.mod_small by apply byte_val_range.
  unfold byte_val. rewrite N2Z.id, Strings.Byte.of_to_N. reflexivity.
Qed.

Lemma hex_byte_roundtrip (b : byte) (rest : string) :
  hex_decode (String (hex_digit (byte_val b / 16)) (String (hex_digit (byte_val b mod 16)) rest))
  = b :: hex_decode rest.
Proof.
  destruct b; reflexivity.
Qed.

Lemma hex_roundtrip (buf : list byte) : hex_decode (hex_encode buf) = buf.
Proof.
  induction buf as [|b rest IH].
  - reflexivity.
  - cbn [hex_encode]. rewrite hex_byte_roundtrip, IH. reflexivity.
Qed.

Lemma length_digest_bytes (s : Hash8) : List.length (digest_bytes s) = 32%nat.
Proof. reflexivity. Qed.

Lemma length_sha256 (msg : list byte) : List.length (sha256 msg) = 32%nat.
Proof. unfold sha256. apply length_digest_bytes. Qed.

Lemma length_hmac_sha256 (key msg : list byte) : List.length (hmac_sha256 key msg) = 32%nat.
Proof. unfold hmac_sha256. apply length_sha256. Qed.

Lemma bytes_eqb_eq (a b : list byte) : bytes_eqb a b = true <-> a = b.
Proof.
  revert b. induction a as [|x a IH]; intros [|y b]; cbn; try (split; congruence).
  rewrite andb_true_iff, IH. split.
  - intros [Hxy ->]. apply Strings.Byte.byte_dec_bl in Hxy. congruence.
  - intros [= -> ->]. split; [apply Strings.Byte.byte_dec_lb|]; reflexivity.
Qed.

Lemma timingSafeEqual_true (a b : list byte) : timingSafeEqual a b = Some true <-> a = b.
Proof.
  unfold timingSafeEqual. split.
  - destruct (List.length a =? List.length b)%nat; [|discriminate].
    intros [= H]. apply bytes_eqb_eq, H.
  - intros ->. rewrite Nat.eqb_refl. f_equal. apply bytes_eqb_eq. reflexivity.
Qed.

Lemma timingSafeEqual_total (a b : list byte) :
  List.length a = List.length b -> exists r, timingSafeEqual a b = Some r.
Proof.
  intros H. unfold timingSafeEqual. rewrite H, Nat.eqb_refl. eauto.
Qed.

Lemma be_bytes_4 (x : Z) :
  be_bytes 4 x = [ (x / 2 ^ 24) mod 256; (x / 2 ^ 16) mod 256; (x / 2 ^ 8) mod 256; x mod 256 ].
Proof.
  unfold be_bytes. cbn [seq map Nat.sub Z.of_nat Pos.of_succ_nat Pos.succ Z.mul Pos.mul Pos.add].
  rewrite !Z.shiftr_div_pow2 by lia. rewrite Z.pow_0_r, Z.div_1_r. reflexivity.
Qed.

Lemma be32_recompose (v : Z) :
  0 <= v < 4294967296 ->
  (v / 256 / 256 / 256) mod 256 * 16777216 + (v / 256 / 256) mod 256 * 65536
  + (v / 256) mod 256 * 256 + v mod 256 = v.
Proof.
  intros H.
  pose proof (Z.div_mod v 256 ltac:(lia)).
  pose proof (Z.div_mod (v / 256) 256 ltac:(lia)).
  pose proof (Z.div_mod (v / 256 / 256) 256 ltac:(lia)).
  assert (0 <= v / 256 / 256 / 256 < 256).
  { split.
    - repeat apply Z.div_pos; lia.
    - repeat (apply Z.div_lt_upper_bound; [lia|]). lia. }
  rewrite (Z.mod_small (v / 256 / 256 / 256)) by lia.
  lia.
Qed.

(** Reading back the four bytes that were written. *)
Lemma read_write_UInt32BE (v : Z) (eb rest : list byte) :
  writeUInt32BE v = Some eb -> readUInt32BE (eb ++ rest) = v /\ List.length eb = 4%nat.
Proof.
  unfold writeUInt32BE. rewrite be_bytes_4.
  destruct ((0 <=? v) && (v <? 2 ^ 32)) eqn:Hr; [|discriminate].
  intros [= <-]. apply andb_true_iff in Hr as [H0 H1].
  apply Z.leb_le in H0. apply Z.ltb_lt in H1.
  split; [|reflexivity].
  unfold readUInt32BE. cbn [map app firstn].
  assert (Hb : forall z, 0 <= z < 256 -> byte_val (byte_of z) = z).
  { intros z Hz. unfold byte_of, byte_val. rewrite Z.mod_small by lia.
    destruct (Strings.Byte.of_N (Z.to_N z)) as [b|] eqn:E.
    - apply Strings.Byte.to_of_N in E. rewrite E. lia.
    - pose proof (Strings.Byte.to_of_N_option_map (Z.to_N z)) as P.
      rewrite E in P. cbn in P.
      destruct (N.leb_spec (Z.to_N z) 255); [discriminate | lia]. }
  rewrite !Hb by (apply Z.mod_pos_bound; lia).
  rewrite firstn_O. cbn [map].
  change (2 ^ 24) with 16777216 in *. change (2 ^ 16) with 65536 in *.
  change (2 ^ 8) with 256 in *. change (2 ^ 32) with 4294967296 in *.
  replace (v / 65536) with (v / 256 / 256)
    by (rewrite Z.div_div by lia; reflexivity).
  replace (v / 16777216) with (v / 256 / 256 / 256)
    by (rewrite !Z.div_div by lia; reflexivity).
  apply be32_recompose. lia.
Qed.

Lemma be32_decompose (a b c d : Z) :
  0 <= a < 256 -> 0 <= b < 256 -> 0 <= c < 256 -> 0 <= d < 256 ->
  let x := a * 16777216 + b * 65536 + c * 256 + d in
  (x / 16777216) mod 256 = a /\ (x / 65536) mod 256 = b
  /\ (x / 256) mod 256 = c /\ x mod 256 = d.
Proof.
  intros Ha Hb Hc Hd x.
  assert (E1 : x / 16777216 = a).
  { symmetry. apply (Z.div_unique x 16777216 a (b * 65536 + c * 256 + d)); unfold x; lia. }
  assert (E2 : x / 65536 = a * 256 + b).
  { symmetry. apply (Z.div_unique x 65536 _ (c * 256 + d)); unfold x; lia. }
  assert (E3 : x / 256 = a * 65536 + b * 256 + c).
  { symmetry. apply (Z.div_unique x 256 _ d); unfold x; lia. }
  rewrite E1, E2, E3. repeat split.
  - apply Z.mod_small; lia.
  - symmetry. apply (Z.mod_unique _ 256 a b); lia.
  - symmetry. apply (Z.mod_unique _ 256 (a * 256 + b) c); lia.
  - symmetry. apply (Z.mod_unique x 256 (a * 65536 + b * 256 + c) d); unfold x; lia.
Qed.

(** Writing the number that was read gives the first four bytes back. *)
Lemma write_read_UInt32BE (buf : list byte) :
  (4 <= List.length buf)%nat ->
  writeUInt32BE (readUInt32BE buf) = Some (firstn 4 buf).
Proof.
  intros Hlen.
  destruct buf as [|a [|b [|c [|d rest]]]]; cbn in Hlen; try lia.
  unfold readUInt32BE.
  change (firstn 4 (a :: b :: c :: d :: rest)) with [a; b; c; d]. cbn [map].
  pose proof (byte_val_range a) as Ha. pose proof (byte_val_range b) as Hb.
  pose proof (byte_val_range c) as Hc. pose proof (byte_val_range d) as Hd.
  change (2 ^ 24) with 16777216. change (2 ^ 16) with 65536. change (2 ^ 8) with 256.
  set (x := byte_val a * 16777216 + byte_val b * 65536 + byte_val c * 256 + byte_val d).
  unfold writeUInt32BE.
  assert (Hx : 0 <= x < 4294967296) by (unfold x; lia).
  change (2 ^ 32) with 4294967296.
  destruct (Z.leb_spec 0 x); [|lia]. destruct (Z.ltb_spec x 4294967296); [|lia].
  cbn [andb]. rewrite be_bytes_4. cbn [map].
  change (2 ^ 24) with 16777216. change (2 ^ 16) with 65536. change (2 ^ 8) with 256.
  destruct (be32_decompose _ _ _ _ Ha Hb Hc Hd) as (E1 & E2 & E3 & E4).
  fold x in E1, E2, E3, E4. rewrite E1, E2, E3, E4.
  rewrite !byte_of_val. reflexivity.
Qed.

Lemma length_subarray (lo hi : nat) (buf : list byte) :
  (hi <= List.length buf)%nat -> List.length (subarray lo hi buf) = (hi - lo)%nat.
Proof.
  intros H. unfold subarray. rewrite length_firstn, length_skipn. lia.
Qed.

(** What [verifyPartnerPayload] decides. *)
Lemma verify_spec
    (payloadHex : string) (sharedSecret : list byte) (now_ms : Z) :
  (exists r, verifyPartnerPayload payloadHex sharedSecret now_ms = Some r)
  /\ (verifyPartnerPayload payloadHex sharedSecret now_ms = Some true <->
      (32 <= List.length (hex_decode payloadHex))%nat
      /\ now_ms / 1000 < readUInt32BE (hex_decode payloadHex) <= now_ms / 1000 + 30 * 60
      /\ subarray 4 32 (hex_decode payloadHex)
         = subarray 0 28 (hmac_sha256 sharedSecret (firstn 4 (hex_decode payloadHex)))).
Proof.
  unfold verifyPartnerPayload.
  set (buf := hex_decode payloadHex).
  destruct (Nat.ltb_spec (List.length buf) 32) as [Hshort|Hlen].
  { split; [eauto|]. split; [discriminate | intros (H & _); lia]. }
  set (e := readUInt32BE buf). set (n := now_ms / 1000).
  destruct ((e <=? n) || (n + 30 * 60 <? e)) eqn:Ht.
  { split; [eauto|]. split; [discriminate|].
    intros (_ & Hw & _). apply orb_true_iff in Ht as [Ht|Ht].
    - apply Z.leb_le in Ht. lia.
    - apply Z.ltb_lt in Ht. lia. }
  apply orb_false_iff in Ht as [Ht1 Ht2].
  apply Z.leb_gt in Ht1. apply Z.ltb_ge in Ht2.
  unfold e. rewrite write_read_UInt32BE by lia.
  split.
  - apply timingSafeEqual_total.
    rewrite !length_subarray; [reflexivity | rewrite length_hmac_sha256; lia | lia].
  - rewrite timingSafeEqual_true. fold e. split.
    + intros H. repeat split; [lia | lia | lia | exact H].
    + intros (_ & _ & H). exact H.
Qed.

End CodecFacts.

Section CodecClaims.
Import Codec.

(** C6 (as amended).  [verifyPartnerPayload] always returns a boolean, and
    it returns [true] exactly when the decoded payload has at least 32
    bytes, its first four bytes read as a big-endian expiration time that is
    strictly after the current second and at most 30 minutes after it, and
    bytes 4..31 equal the first 28 bytes of the HMAC-SHA256 of the first
    four bytes under the shared secret.  Bytes after the 32nd are ignored. *)
Theorem verifyPartnerPayload_true_iff
    (payloadHex : string) (sharedSecret : list byte) (now_ms : Z) :
  (exists r, verifyPartnerPayload payloadHex sharedSecret now_ms = Some r)
  /\ (verifyPartnerPayload payloadHex sharedSecret now_ms = Some true <->
      (32 <= List.length (hex_decode payloadHex))%nat
      /\ now_ms / 1000 < readUInt32BE (hex_decode payloadHex) <= now_ms / 1000 + 30 * 60
      /\ subarray 4 32 (hex_decode payloadHex)
         = subarray 0 28 (hmac_sha256 sharedSecret (firstn 4 (hex_decode payloadHex)))).
Proof. apply verify_spec. Qed.

(** C6, the claim as stated fails: a payload that decodes to 33 bytes is
    accepted. *)
Lemma verifyPartnerPayload_accepts_33_bytes :
  let payloadHex := "6553f484cb8eda38e03cf7869cf7d97b83eefddf12203b911ac379b751e8986a00" in
  verifyPartnerPayload payloadHex (bytes_of_string "secret") 1700000000000 = Some true
  /\ List.length (hex_decode payloadHex) <> 32%nat.
Proof.
  split.
  - vm_compute. reflexivity.
  - vm_compute. discriminate.
Qed.

(** C7.  A payload issued with a secret at a time whose expiration fits the
    four-byte field is accepted under the same secret, at once and for as
    long as its expiration stays inside the verifier's window (the verifier's
    clock within 15 minutes of the issuer's). *)
Theorem generatePayload_verifies (sharedSecret : list byte) (now_ms now_ms' : Z) :
  0 <= now_ms / 1000 + 15 * 60 < 2 ^ 32 ->
  now_ms / 1000 - 15 * 60 <= now_ms' / 1000 < now_ms / 1000 + 15 * 60 ->
  exists payloadHex,
    generatePayload sharedSecret now_ms = Some payloadHex
    /\ verifyPartnerPayload payloadHex sharedSecret now_ms' = Some true.
Proof.
  intros Hrange Hwin.
  unfold generatePayload.
  set (e := now_ms / 1000 + 15 * 60) in *.
  destruct (writeUInt32BE e) as [eb|] eqn:Hw.
  2:{ unfold writeUInt32BE in Hw.
      destruct (Z.leb_spec 0 e); [|lia]. destruct (Z.ltb_spec e (2 ^ 32)); [|lia].
      discriminate. }
  set (sig := subarray 0 28 (hmac_sha256 sharedSecret eb)).
  exists (hex_encode (eb ++ sig)). split; [reflexivity|].
  destruct (read_write_UInt32BE e eb sig Hw) as [Hread Hlen4].
  assert (Hsig : List.length sig = 28%nat).
  { unfold sig. rewrite length_subarray; [reflexivity | rewrite length_hmac_sha256; lia]. }
  apply (proj2 (verify_spec _ _ _)).
  rewrite hex_roundtrip, Hread.
  repeat split.
  - rewrite length_app. lia.
  - unfold e. lia.
  - unfold e. lia.
  - assert (Hsplit : firstn 4 (eb ++ sig) = eb /\ skipn 4 (eb ++ sig) = sig).
    { clear - Hlen4. destruct eb as [|a [|b [|c [|d [|x eb]]]]]; try discriminate.
      split; reflexivity. }
    destruct Hsplit as [Hf Hs].
    rewrite Hf. fold sig.
    unfold subarray at 1. rewrite Hs.
    change (32 - 4)%nat with 28%nat. rewrite <- Hsig. apply firstn_all.
Qed.

Lemma generatePayload_verifies_witness :
  exists payloadHex,
    generatePayload (bytes_of_string "secret") 1700000000000 = Some payloadHex
    /\ verifyPartnerPayload payloadHex (bytes_of_string "secret") 1700000060000 = Some true.
Proof.
  apply (generatePayload_verifies (bytes_of_string "secret") 1700000000000 1700000060000).
  - vm_compute. split; congruence.
  - vm_compute. split; congruence.
Defined.

End CodecClaims.

(** ** The message handler: origin bookkeeping *)

Section OriginFacts.
Import App.

Lemma store_origin_spec origin w : store_origin origin w = (Some tt, record_origin origin w).
Proof.
  unfold store_origin, record_origin, bind, read, modify, ret.
  destruct (no_origin (state w)); [|reflexivity].
  cbn [TLEND_ORIGINS with_state].
  destruct (origin_listed origin (TLEND_ORIGINS w)); reflexivity.
Qed.

Lemma record_origin_stored origin w :
  no_origin (state w) = false -> record_origin origin w = w.
Proof. unfold record_origin. intros ->. reflexivity. Qed.

Lemma record_origin_fresh origin w :
  no_origin (state w) = true ->
  tlendOrigin (state (record_origin origin w)) = Some origin
  /\ TLEND_ORIGINS (record_origin origin w)
     = (if origin_listed origin (TLEND_ORIGINS w) then TLEND_ORIGINS w
        else TLEND_ORIGINS w ++ [origin])
  /\ outbox (record_origin origin w) = outbox w.
Proof.
  intros Hn. unfold record_origin. rewrite Hn.
  destruct (origin_listed origin (TLEND_ORIGINS w)); repeat split.
Qed.

(** Recording the origin touches nothing but the origin and the list. *)
Lemma record_origin_rest origin w :
  walletConnected (state (record_origin origin w)) = walletConnected (state w)
  /\ walletAddress (state (record_origin origin w)) = walletAddress (state w)
  /\ tlendState (state (record_origin origin w)) = tlendState (state w)
  /\ timers (record_origin origin w) = timers w
  /\ nextTimer (record_origin origin w) = nextTimer w
  /\ pendingRequests (state (record_origin origin w)) = pendingRequests (state w)
  /\ outbox (record_origin origin w) = outbox w
  /\ iframe (record_origin origin w) = iframe w
  /\ elements (record_origin origin w) = elements w.
Proof.
  unfold record_origin. destruct (no_origin _); [|repeat split].
  destruct (origin_listed _ _); repeat split.
Qed.


Lemma targetOrigin_eq s s' : tlendOrigin s' = tlendOrigin s -> targetOrigin s' = targetOrigin s.
Proof. unfold targetOrigin. intros ->. reflexivity. Qed.

Lemma targetOrigin_none s : no_origin s = true -> targetOrigin s = "*".
Proof.
  unfold no_origin, targetOrigin. destruct (tlendOrigin s) as [o|]; [|reflexivity].
  intros ->. reflexivity.
Qed.

Lemma targetOrigin_some s o : tlendOrigin s = Some o -> o <> "" -> targetOrigin s = o.
Proof.
  unfold targetOrigin. intros -> Ho. destruct (String.eqb_spec o ""); congruence.
Qed.

Lemma no_origin_some s o : tlendOrigin s = Some o -> o <> "" -> no_origin s = false.
Proof.
  unfold no_origin. intros -> Ho. destruct (String.eqb_spec o ""); congruence.
Qed.

Lemma posted_since_refl w T : posted_since w w T.
Proof. exists []. split; [reflexivity | constructor]. Qed.

Lemma posted_since_trans w1 w2 w3 T :
  posted_since w1 w2 T -> posted_since w2 w3 T -> posted_since w1 w3 T.
Proof.
  intros (n1 & E1 & F1) (n2 & E2 & F2). exists (n2 ++ n1). split.
  - rewrite E2, E1, app_assoc. reflexivity.
  - apply Forall_app. split; assumption.
Qed.

Lemma posted_since_same w w' T : outbox w' = outbox w -> posted_since w w' T.
Proof. intros H. exists []. split; [exact H | constructor]. Qed.

Lemma frame_refl w : frame w w.
Proof. repeat split. apply posted_since_refl. Qed.

Lemma frame_trans w1 w2 w3 : frame w1 w2 -> frame w2 w3 -> frame w1 w3.
Proof.
  intros (Ho & Hl & P1) (Ho' & Hl' & P2).
  repeat split; try congruence.
  rewrite (targetOrigin_eq _ _ Ho) in P2.
  eapply posted_since_trans; eassumption.
Qed.

Lemma frame_same w w' :
  tlendOrigin (state w') = tlendOrigin (state w) ->
  TLEND_ORIGINS w' = TLEND_ORIGINS w -> outbox w' = outbox w -> frame w w'.
Proof.
  intros H1 H2 H3. repeat split; try assumption. apply posted_since_same, H3.
Qed.

Lemma keeps_ret {A} (a : A) : keeps (ret a).
Proof. intros w. apply frame_refl. Qed.

Lemma keeps_throw {A} : keeps (@throw A).
Proof. intros w. apply frame_refl. Qed.

Lemma keeps_read {A} (f : World -> A) : keeps (read f).
Proof. intros w. apply frame_refl. Qed.

Lemma keeps_world : keeps world.
Proof. intros w. apply frame_refl. Qed.

Lemma keeps_lift {A} (o : option A) : keeps (lift o).
Proof. destruct o; [apply keeps_ret | apply keeps_throw]. Qed.

Lemma keeps_bind {A B} (m : M A) (k : A -> M B) :
  keeps m -> (forall a, keeps (k a)) -> keeps (bind m k).
Proof.
  intros Hm Hk w. unfold bind. specialize (Hm w).
  destruct (m w) as [[a|] w1]; cbn in *; [|exact Hm].
  eapply frame_trans; [exact Hm | apply Hk].
Qed.

Lemma keeps_modify (f : World -> World) :
  (forall w, tlendOrigin (state (f w)) = tlendOrigin (state w)
             /\ TLEND_ORIGINS (f w) = TLEND_ORIGINS w /\ outbox (f w) = outbox w) ->
  keeps (modify f).
Proof.
  intros H w. destruct (H w) as (H1 & H2 & H3). apply frame_same; assumption.
Qed.

(** The one place that posts: the target is the stored origin, or ["*"]. *)
Lemma keeps_sendToTLend msg : keeps (sendToTLend msg).
Proof.
  intros w. unfold sendToTLend. destruct (iframe w); [|apply frame_refl].
  destruct (accepts_target w (targetOrigin (state w))); [|apply frame_refl].
  repeat split. exists [(msg, targetOrigin (state w))].
  split; [reflexivity | repeat constructor].
Qed.

Lemma keeps_setTimeout task delay : keeps (setTimeout task delay).
Proof. intros w. apply frame_same; reflexivity. Qed.

Lemma keeps_clearTimeout id : keeps (clearTimeout id).
Proof. apply keeps_modify. intros w. repeat split. Qed.

Lemma keeps_generateRequestId prefix : keeps (generateRequestId prefix).
Proof. intros w. apply frame_same; reflexivity. Qed.

Lemma keeps_random_string : keeps random_string.
Proof. intros w. apply frame_same; reflexivity. Qed.

Lemma keeps_logInfo vs : keeps (logInfo vs).
Proof. unfold logInfo. apply keeps_bind; [apply keeps_lift | intros; apply keeps_ret]. Qed.

Lemma keeps_logAddress a : keeps (logAddress a).
Proof. unfold logAddress. apply keeps_bind; [apply keeps_lift | intros; apply keeps_logInfo]. Qed.

Lemma keeps_sendUncloneable : keeps sendUncloneable.
Proof. intros w. unfold sendUncloneable. destruct (iframe w); apply frame_refl. Qed.

End OriginFacts.

Create HintDb keeps.

(** One step of a [keeps] proof: follow the structure of the handler. *)
Ltac keeps_step :=
  match goal with
  | |- App.keeps (App.bind _ _) => apply keeps_bind; [|intros ?]
  | |- App.keeps (App.ret _) => apply keeps_ret
  | |- App.keeps App.throw => apply keeps_throw
  | |- App.keeps (App.read _) => apply keeps_read
  | |- App.keeps App.world => apply keeps_world
  | |- App.keeps (App.lift _) => apply keeps_lift
  | |- App.keeps (App.sendToTLend _) => apply keeps_sendToTLend
  | |- App.keeps (App.setTimeout _ _) => apply keeps_setTimeout
  | |- App.keeps (App.clearTimeout _) => apply keeps_clearTimeout
  | |- App.keeps (App.generateRequestId _) => apply keeps_generateRequestId
  | |- App.keeps App.random_string => apply keeps_random_string
  | |- App.keeps (App.logInfo _) => apply keeps_logInfo
  | |- App.keeps (App.logAddress _) => apply keeps_logAddress
  | |- App.keeps App.sendUncloneable => apply keeps_sendUncloneable
  | |- App.keeps (App.modify _) => apply keeps_modify; intros ?; repeat split
  | |- App.keeps (App.when ?b _) => unfold App.when
  | |- App.keeps (if ?c then _ else _) => destruct c
  | |- App.keeps (match ?x with _ => _ end) => destruct x
  | |- App.keeps _ => solve [auto with keeps]
  end.

Ltac keeps_tac := repeat keeps_step.

Section HandlersKeep.
Import App.

Lemma keeps_updateTLendState s : keeps (updateTLendState s).
Proof. unfold updateTLendState. keeps_tac. Qed.

Lemma keeps_pending_delete k : keeps (pending_delete k).
Proof. unfold pending_delete. keeps_tac. Qed.

Lemma keeps_pending_set k p : keeps (pending_set k p).
Proof. unfold pending_set. keeps_tac. Qed.

Lemma keeps_repay_cleanup : keeps repay_cleanup.
Proof. unfold repay_cleanup. keeps_tac. Qed.

#[local] Hint Resolve keeps_updateTLendState keeps_pending_delete keeps_pending_set
  keeps_repay_cleanup : keeps.

Lemma keeps_sendStylesUpgrade : keeps sendStylesUpgrade.
Proof. unfold sendStylesUpgrade. keeps_tac. Qed.

Lemma keeps_sendSetLogo : keeps sendSetLogo.
Proof. unfold sendSetLogo. keeps_tac. Qed.

Lemma keeps_sendDisconnect r : keeps (sendDisconnect r).
Proof. unfold sendDisconnect. keeps_tac. Qed.

Lemma keeps_sendAuthCheckRequest : keeps sendAuthCheckRequest.
Proof. unfold sendAuthCheckRequest. keeps_tac. Qed.

Lemma keeps_clear_pending r : keeps (clear_pending r).
Proof. unfold clear_pending. keeps_tac. Qed.

Lemma keeps_generateMockTonProof a : keeps (generateMockTonProof a).
Proof. unfold generateMockTonProof. keeps_tac. Qed.

#[local] Hint Resolve keeps_sendStylesUpgrade keeps_sendSetLogo keeps_sendDisconnect
  keeps_sendAuthCheckRequest keeps_clear_pending keeps_generateMockTonProof : keeps.

Lemma keeps_sendAuthCredentials : keeps sendAuthCredentials.
Proof. unfold sendAuthCredentials. keeps_tac. Qed.

Lemma keeps_handleAuthCheckTimeout r : keeps (handleAuthCheckTimeout r).
Proof. unfold handleAuthCheckTimeout. keeps_tac. Qed.

Lemma keeps_handleAuthCredentialsTimeout r : keeps (handleAuthCredentialsTimeout r).
Proof. unfold handleAuthCredentialsTimeout. keeps_tac. Qed.

Lemma keeps_afterAuthCheckResponse p : keeps (afterAuthCheckResponse p).
Proof. unfold afterAuthCheckResponse. keeps_tac. Qed.

Lemma keeps_afterAuthResult p : keeps (afterAuthResult p).
Proof. unfold afterAuthResult. keeps_tac. Qed.

#[local] Hint Resolve keeps_afterAuthCheckResponse keeps_afterAuthResult : keeps.

Lemma keeps_handleAuthCheckResponse m : keeps (handleAuthCheckResponse m).
Proof. unfold handleAuthCheckResponse. keeps_tac. Qed.

Lemma keeps_handleAuthResult m : keeps (handleAuthResult m).
Proof. unfold handleAuthResult. keeps_tac. Qed.

Lemma keeps_handleAuthRequest m : keeps (handleAuthRequest m).
Proof. unfold handleAuthRequest. keeps_tac. Qed.

Lemma keeps_handleRepayRequest m : keeps (handleRepayRequest m).
Proof. unfold handleRepayRequest. keeps_tac. Qed.

Lemma keeps_approve_catch r e : keeps (approve_catch r e).
Proof. unfold approve_catch. keeps_tac. Qed.

#[local] Hint Resolve keeps_approve_catch : keeps.

Lemma keeps_approve_signed r x : keeps (approve_signed r x).
Proof. unfold approve_signed. keeps_tac. Qed.

#[local] Hint Resolve keeps_approve_signed : keeps.

Lemma keeps_approveRepayRequest : keeps approveRepayRequest.
Proof. unfold approveRepayRequest. keeps_tac. Qed.

Lemma keeps_approve_resume r o : keeps (approve_resume r o).
Proof. unfold approve_resume. keeps_tac. Qed.

Lemma keeps_mockRepayResult r : keeps (mockRepayResult r).
Proof. unfold mockRepayResult. keeps_tac. Qed.

Lemma keeps_rejectRepayRequest r : keeps (rejectRepayRequest r).
Proof. unfold rejectRepayRequest. keeps_tac. Qed.

Lemma keeps_handleTLendLoaded m : keeps (handleTLendLoaded m).
Proof. unfold handleTLendLoaded. keeps_tac. Qed.

Lemma keeps_handleTLendReady m : keeps (handleTLendReady m).
Proof. unfold handleTLendReady. keeps_tac. Qed.

Lemma keeps_handleError m : keeps (handleError m).
Proof. unfold handleError. keeps_tac. Qed.

Lemma keeps_iframe_onload : keeps iframe_onload.
Proof. unfold iframe_onload. keeps_tac. Qed.

Lemma keeps_onloadReady : keeps onloadReady.
Proof. unfold onloadReady. keeps_tac. Qed.

Lemma keeps_reloadIframe : keeps reloadIframe.
Proof. unfold reloadIframe. keeps_tac. Qed.

Lemma keeps_forceSetReady : keeps forceSetReady.
Proof. unfold forceSetReady. keeps_tac. Qed.

Lemma keeps_onStatusChange wl : keeps (onStatusChange wl).
Proof. unfold onStatusChange. keeps_tac. Qed.

#[local] Hint Resolve keeps_sendAuthCredentials keeps_handleAuthCheckTimeout
  keeps_handleAuthCredentialsTimeout keeps_handleAuthCheckResponse keeps_handleAuthResult
  keeps_handleAuthRequest keeps_handleRepayRequest keeps_approveRepayRequest
  keeps_approve_resume keeps_mockRepayResult keeps_rejectRepayRequest keeps_handleTLendLoaded
  keeps_handleTLendReady keeps_handleError keeps_iframe_onload keeps_onloadReady
  keeps_reloadIframe keeps_forceSetReady keeps_onStatusChange : keeps.

Lemma keeps_run_task t : keeps (run_task t).
Proof. destruct t; cbn [run_task]; auto with keeps. Qed.

#[local] Hint Resolve keeps_run_task : keeps.

Lemma keeps_fire id : keeps (fire id).
Proof. unfold fire. keeps_tac. Qed.

Lemma keeps_settle i o : keeps (settle i o).
Proof. unfold settle. keeps_tac. Qed.

#[local] Hint Resolve keeps_fire keeps_settle : keeps.

(** The dispatch of [handleMessage], after the origin has been recorded. *)
Lemma handleMessage_frame origin data w :
  frame (record_origin origin w) (snd (handleMessage origin data w)).
Proof.
  unfold handleMessage, bind. rewrite store_origin_spec.
  match goal with |- frame _ (snd (?m _)) => assert (K : keeps m) end.
  { keeps_tac. }
  apply K.
Qed.

Lemma step_frame_other a w :
  is_load a = false -> is_message a = false -> frame w (step a w).
Proof.
  intros Hl Hm. unfold step, exec.
  assert (K : keeps (handler a)).
  { destruct a; try discriminate; cbn [handler]; keeps_tac. }
  apply K.
Qed.

Lemma step_frame_message origin data w :
  frame (record_origin origin w) (step (AMessage origin data) w).
Proof. apply handleMessage_frame. Qed.

(** Loading the iframe posts nothing; it clears the stored origin or, when
    it returns early, leaves it. *)
Lemma step_load w :
  outbox (step AClickLoadIframe w) = outbox w
  /\ (tlendOrigin (state (step AClickLoadIframe w)) = None
      \/ tlendOrigin (state (step AClickLoadIframe w)) = tlendOrigin (state w)).
Proof.
  unfold step, exec, handler, loadIframe, bind, read.
  destruct (el_tlendUrl (elements w)) as [url|]; [|split; [reflexivity | right; reflexivity]].
  destruct (url =? "")%string; [split; [reflexivity | right; reflexivity]|].
  destruct (el_iframeContainer (elements w)); cbn.
  - split; [reflexivity | left; reflexivity].
  - split; [reflexivity | right; reflexivity].
Qed.

Lemma run_cons a acts w : run (a :: acts) w = run acts (step a w).
Proof. reflexivity. Qed.

(** Before any message has been received. *)
Lemma run_without_origin acts w :
  no_origin (state w) = true ->
  forallb (fun a => negb (is_message a)) acts = true ->
  no_origin (state (run acts w)) = true /\ posted_since w (run acts w) "*".
Proof.
  revert w. induction acts as [|a acts IH]; intros w Hn Hacts.
  - split; [exact Hn | apply posted_since_refl].
  - cbn [forallb] in Hacts. apply andb_true_iff in Hacts as [Ha Hacts].
    apply negb_true_iff in Ha. rewrite run_cons.
    assert (Hs : no_origin (state (step a w)) = true /\ posted_since w (step a w) "*").
    { destruct (is_load a) eqn:Hl.
      - destruct a; try discriminate.
        destruct (step_load w) as [Ho [Hnone|Hsame]].
        + split; [unfold no_origin; rewrite Hnone; reflexivity|].
          apply posted_since_same, Ho.
        + split; [unfold no_origin in *; rewrite Hsame; exact Hn|].
          apply posted_since_same, Ho.
      - pose proof (step_frame_other a w Hl Ha) as F.
        split.
        + destruct F as (Ho & _). unfold no_origin in *. rewrite Ho. exact Hn.
        + rewrite <- (targetOrigin_none _ Hn). apply F. }
    destruct Hs as [Hn' Hp]. destruct (IH _ Hn' Hacts) as [Hn'' Hp'].
    split; [exact Hn''|]. eapply posted_since_trans; eassumption.
Qed.

(** Once an origin is stored. *)
Lemma run_with_origin acts w o :
  tlendOrigin (state w) = Some o -> o <> "" ->
  forallb (fun a => negb (is_load a)) acts = true ->
  tlendOrigin (state (run acts w)) = Some o /\ posted_since w (run acts w) o.
Proof.
  revert w. induction acts as [|a acts IH]; intros w Ho Hne Hacts.
  - split; [exact Ho | apply posted_since_refl].
  - cbn [forallb] in Hacts. apply andb_true_iff in Hacts as [Ha Hacts].
    apply negb_true_iff in Ha. rewrite run_cons.
    assert (F : frame w (step a w)).
    { destruct (is_message a) eqn:Hm.
      - destruct a as [o' d| | | | | | | | | | | | | | | | | |]; try discriminate.
        rewrite <- (record_origin_stored o' w (no_origin_some _ _ Ho Hne)) at 1.
        apply step_frame_message.
      - apply step_frame_other; assumption. }
    assert (Ho' : tlendOrigin (state (step a w)) = Some o).
    { destruct F as (E & _). rewrite E. exact Ho. }
    destruct (IH _ Ho' Hne Hacts) as [Ho'' Hp].
    split; [exact Ho''|]. eapply posted_since_trans; [|exact Hp].
    rewrite <- (targetOrigin_some _ _ Ho Hne). apply F.
Qed.

End HandlersKeep.

(** ** Handler facts *)

Section HandlerFacts.
Import App.

Lemma get_nullish_undefined v k : nullish v = true -> get v k = JUndefined.
Proof. destruct v; try discriminate; reflexivity. Qed.

Lemma prop_defined v k x : get v k = x -> x <> JUndefined -> prop v k = Some x.
Proof.
  intros H Hx. unfold prop. destruct (nullish v) eqn:E.
  - rewrite (get_nullish_undefined _ _ E) in H. congruence.
  - congruence.
Qed.

Lemma JsType_eqb_eq a b : JsType_eqb a b = true <-> a = b.
Proof. destruct a, b; cbn; split; congruence. Qed.

(** A value with a non-empty string property passes the guard of
    [handleMessage]. *)
Lemma get_str_guard msg k s :
  get msg k = JStr s -> s <> "" ->
  negb (truthy msg) || negb (JsType_eqb (typeof msg) TObject) || negb (truthy (get msg k)) = false.
Proof.
  intros H Hs. rewrite H. destruct msg; cbn in *; try discriminate.
  - destruct (k =? "length")%string; discriminate.
  - destruct (k =? "length")%string; discriminate.
  - destruct s; [congruence | reflexivity].
Qed.

Lemma handleMessage_AUTH_RESULT origin msg w :
  get msg "type" = JStr "AUTH_RESULT" ->
  exec (handleMessage origin msg) w = exec (handleAuthResult msg) (record_origin origin w).
Proof.
  intros Ht. unfold exec, handleMessage, bind. rewrite store_origin_spec.
  rewrite (get_str_guard _ _ _ Ht) by discriminate.
  rewrite Ht. reflexivity.
Qed.


Lemma clear_pending_spec requestId w :
  clear_pending requestId w = (Some tt, resolved requestId w).
Proof.
  unfold clear_pending, resolved, bind, world.
  destruct (pending_get requestId w) as [[k p]|]; reflexivity.
Qed.

Lemma elements_resolved requestId w : elements (resolved requestId w) = elements w.
Proof.
  unfold resolved. destruct (pending_get requestId w) as [[k p]|]; reflexivity.
Qed.

Lemma sendToTLend_posts msg w :
  can_post w = true ->
  sendToTLend msg w = (Some true, with_outbox ((msg, targetOrigin (state w)) :: outbox w) w).
Proof.
  unfold can_post, sendToTLend. destruct (iframe w); [|discriminate].
  intros ->. reflexivity.
Qed.

Lemma truncateAddress_string s : exists t, truncateAddress (JStr s) = Some (JStr t).
Proof.
  unfold truncateAddress. destruct (negb (truthy (JStr s))); [eauto|].
  change (get (JStr s) "length") with (JNum (Z.of_nat (String.length s))).
  unfold le_num, to_number, option_map.
  destruct (le_literal _ _); eauto.
Qed.

(** A log line runs when its substitutions can be converted, and changes
    nothing either way. *)
Lemma logInfo_spec vs w :
  logInfo vs w = (option_map (fun _ => tt) (to_strings vs), w).
Proof. unfold logInfo, bind, lift. destruct (to_strings vs); reflexivity. Qed.


Lemma logAddress_spec a w :
  logAddress a w = (option_map (fun _ => tt) (address_text a), w).
Proof.
  unfold logAddress, address_text, bind, lift.
  destruct (truncateAddress a) as [r|]; [|reflexivity].
  cbn. rewrite logInfo_spec. cbn. destruct (to_string r); reflexivity.
Qed.

Lemma address_text_absent a : address_or_absent a -> address_text a <> None.
Proof.
  destruct a; cbn [address_or_absent]; try contradiction; intros _.
  - discriminate.
  - unfold address_text. destruct (truncateAddress_string s) as [t ->]. discriminate.
Qed.

Lemma logAddress_ok a w : address_text a <> None -> logAddress a w = (Some tt, w).
Proof.
  intros H. rewrite logAddress_spec. destruct (address_text a); [reflexivity | congruence].
Qed.


Lemma sendAuthCredentials_posts w :
  truthy (walletAddress (state w)) = true ->
  can_post w = true ->
  exists m,
    outbox (exec sendAuthCredentials w) = (m, targetOrigin (state w)) :: outbox w
    /\ get m "type" = JStr "AUTH_CREDENTIALS".
Proof.
  intros Ha Hi. unfold exec, sendAuthCredentials, bind, read. rewrite Ha. cbn [negb].
  unfold generateRequestId.
  destruct (truthy (walletAccount (state w)) && truthy (tonProof (state w)));
    cbn -[message show_Z show_hex padStart0 String.append Z.div Z.add Z.mul sendToTLend];
    (rewrite sendToTLend_posts by exact Hi);
    eexists; split; reflexivity.
Qed.



Lemma exec_sendDisconnect reason w :
  exec (sendDisconnect (JStr reason)) w
  = if can_post w then
      with_outbox ((message "DISCONNECT" None (now w) (JObj [("reason", JStr reason)]),
                    targetOrigin (state w)) :: outbox w) w
    else w.
Proof.
  unfold exec, sendDisconnect, bind, read, sendToTLend, can_post.
  destruct (iframe w); [|reflexivity].
  destruct (accepts_target w (targetOrigin (state w))); reflexivity.
Qed.

(** What resolving a request id does to the pending map, the timer table
    and the outbox. *)
Lemma resolved_book rid w :
  pendingRequests (state (resolved (JStr rid) w)) = delete rid (pendingRequests (state w))
  /\ timers (resolved (JStr rid) w)
     = match pendingRequests (state w) !! rid with
       | Some p => without_timer (p_timeout p) (timers w)
       | None => timers w
       end
  /\ outbox (resolved (JStr rid) w) = outbox w.
Proof.
  unfold resolved, pending_get.
  destruct (pendingRequests (state w) !! rid) as [p|] eqn:E; cbn.
  - repeat split.
  - rewrite (delete_id _ _ E). repeat split.
Qed.

Lemma afterAuthResult_book payload w :
  let w' := exec (afterAuthResult payload) w in
  pendingRequests (state w') = pendingRequests (state w)
  /\ timers w' = timers w /\ outbox w' = outbox w.
Proof.
  unfold exec, afterAuthResult, bind, lift.
  destruct (prop payload "success") as [s|]; cbn; [|repeat split].
  destruct (truthy s).
  - rewrite logAddress_spec. destruct (address_text _); cbn; repeat split.
  - rewrite logInfo_spec. destruct (to_strings _); cbn; [|repeat split].
    destruct (input_is (el_autoReadyMode (elements w)) "immediate"); repeat split.
Qed.

Lemma handleAuthResult_after msg w :
  exec (handleAuthResult msg) w
  = exec (afterAuthResult (get msg "payload")) (resolved (get msg "requestId") w).
Proof. unfold exec, handleAuthResult, bind. rewrite clear_pending_spec. reflexivity. Qed.

Lemma handleAuthResult_book msg w :
  let w' := exec (handleAuthResult msg) w in
  let w1 := resolved (get msg "requestId") w in
  pendingRequests (state w') = pendingRequests (state w1)
  /\ timers w' = timers w1 /\ outbox w' = outbox w1.
Proof. cbn zeta. rewrite handleAuthResult_after. apply afterAuthResult_book. Qed.

Lemma afterAuthCheckResponse_book payload w :
  let w' := exec (afterAuthCheckResponse payload) w in
  pendingRequests (state w') = pendingRequests (state w)
  /\ outbox w' = outbox w
  /\ exists extra, timers w' = timers w ++ extra
                   /\ Forall (fun t => t_task t = TSendAuthCredentials) extra.
Proof.
  unfold exec, afterAuthCheckResponse, bind, lift.
  destruct (prop payload "authenticated") as [a|]; cbn.
  2:{ repeat split. exists []. rewrite app_nil_r. split; [reflexivity | constructor]. }
  destruct (negb (truthy a) || negb (truthy (get payload "matchesRequested"))); cbn.
  - destruct (walletConnected (state w)); cbn; repeat split.
    + eexists. split; [reflexivity | repeat constructor].
    + exists []. rewrite app_nil_r. split; [reflexivity | constructor].
  - rewrite logAddress_spec. cbn. repeat split.
    exists []; rewrite app_nil_r; (split; [reflexivity | constructor]).
Qed.

Lemma handleAuthCheckResponse_after msg w :
  exec (handleAuthCheckResponse msg) w
  = exec (afterAuthCheckResponse (get msg "payload")) (resolved (get msg "requestId") w).
Proof. unfold exec, handleAuthCheckResponse, bind. rewrite clear_pending_spec. reflexivity. Qed.

Lemma handleAuthCheckResponse_book msg w :
  let w' := exec (handleAuthCheckResponse msg) w in
  let w1 := resolved (get msg "requestId") w in
  pendingRequests (state w') = pendingRequests (state w1)
  /\ outbox w' = outbox w1
  /\ exists extra, timers w' = timers w1 ++ extra
                   /\ Forall (fun t => t_task t = TSendAuthCredentials) extra.
Proof. cbn zeta. rewrite handleAuthCheckResponse_after. apply afterAuthCheckResponse_book. Qed.

Lemma exec_handleAuthCheckTimeout rid w :
  exec (handleAuthCheckTimeout rid) w
  = match pendingRequests (state w) !! rid with
    | Some _ => exec (pending_delete rid) w
    | None => w
    end.
Proof.
  unfold exec, handleAuthCheckTimeout, bind, world, pending_get.
  destruct (pendingRequests (state w) !! rid); reflexivity.
Qed.

Lemma exec_handleAuthCredentialsTimeout rid w :
  exec (handleAuthCredentialsTimeout rid) w
  = match pendingRequests (state w) !! rid with
    | Some _ =>
        exec (when (input_is (el_autoReadyMode (elements w)) "immediate") (updateTLendState READY))
          (exec (pending_delete rid) w)
    | None => w
    end.
Proof.
  unfold exec, handleAuthCredentialsTimeout, bind, world, pending_get.
  destruct (pendingRequests (state w) !! rid); reflexivity.
Qed.

Lemma isIframeMessage_malformed v : malformed v -> Guards.isIframeMessage v = false.
Proof.
  unfold Guards.isIframeMessage.
  destruct (negb (JsType_eqb (typeof v) TObject) || is_null v) eqn:G; [reflexivity|].
  apply orb_false_iff in G as [G1 G2]. apply negb_false_iff, JsType_eqb_eq in G1.
  intros [[H | [H | [H | (t & Ht & Hv)]]] | H].
  - contradiction.
  - subst v. discriminate.
  - destruct (JsType_eqb (typeof (get v "type")) TString) eqn:E; [|reflexivity].
    apply JsType_eqb_eq in E. contradiction.
  - rewrite Ht, Hv. cbn. apply andb_false_r.
  - destruct (JsType_eqb (typeof (get v "timestamp")) TNumber) eqn:E.
    + apply JsType_eqb_eq in E. contradiction.
    + rewrite andb_false_r. reflexivity.
Qed.

Lemma handleMessage_dropped origin v w :
  dropped v -> exec (handleMessage origin v) w = record_origin origin w.
Proof.
  intros Hd. unfold exec, handleMessage, bind. rewrite store_origin_spec.
  destruct (negb (truthy v) || negb (JsType_eqb (typeof v) TObject)
            || negb (truthy (get v "type"))) eqn:G; [reflexivity|].
  apply orb_false_iff in G as [G G3]. apply orb_false_iff in G as [G1 G2].
  apply negb_false_iff in G1, G2, G3. apply JsType_eqb_eq in G2.
  destruct Hd as [H | [H | [H | (t & Ht & Hv)]]].
  - contradiction.
  - subst v. discriminate.
  - destruct (get v "type"); cbn in H; try congruence;
      cbn [is_str]; rewrite logInfo_spec; reflexivity.
  - rewrite Ht. cbn [is_str].
    unfold Guards.isValidMessageType in Hv. cbn [existsb Guards.validTypes] in Hv.
    repeat (apply orb_false_iff in Hv as [? Hv]).
    repeat match goal with H : (t =? _)%string = false |- _ => rewrite H; clear H end.
    reflexivity.
Qed.

End HandlerFacts.

(** ** The scenarios behave as the script does *)

Section Sanity.
Import App Scenario.

Example well_formed_message_accepted :
  Guards.isIframeMessage (msg_auth_failed (JStr "auth-001")) = true.
Proof. reflexivity. Qed.

Example truncateAddress_long :
  truncateAddress (get (wl_account wallet) "address") = Some (JStr "0:fcb91a...29232260").
Proof. reflexivity. Qed.

Example truncateAddress_number : truncateAddress (JNum 5) = None.
Proof. reflexivity. Qed.

(** An array address of at most sixteen elements is returned as it is;
    whether the log line can print it depends on its elements. *)
Example address_text_array :
  truncateAddress (JArr [unprintable]) = Some (JArr [unprintable])
  /\ address_text (JArr [unprintable]) = None
  /\ address_text (JArr [JNum 1; JNull; JStr "a"]) = Some "1,,a".
Proof. repeat split. Qed.

(** The [length] of an object is compared as a number, read as
    JavaScript reads numeric strings: hexadecimal, exponent and fraction
    included.  An object that is too long has no [slice]. *)
Example truncateAddress_object_length :
  truncateAddress (JObj [("length", JStr "0x10")]) = Some (JObj [("length", JStr "0x10")])
  /\ truncateAddress (JObj [("length", JStr " 1.6e1 ")]) = Some (JObj [("length", JStr " 1.6e1 ")])
  /\ truncateAddress (JObj [("length", JStr "0x11")]) = None
  /\ truncateAddress (JObj [("length", JStr "16.5")]) = None
  /\ truncateAddress (JObj [("length", JStr "sixteen")]) = None.
Proof. repeat split. Qed.

(** A theme that names a function every object inherits: the styles
    message cannot be cloned and nothing is posted. *)
Example theme_constructor_not_posted :
  let w := run [AEdit (mkElements (Some "https://app-test.tlend.co") (Some "partner_xyz")
                         (Some "Partner Finance") (Some "constructor") (Some "combined")
                         (Some "wait") (Some "no") true);
                AClickSendStyles] ready in
  getPartnerStyles "constructor" = None /\ outbox w = outbox ready.
Proof. vm_compute. split; reflexivity. Qed.

(** A signed transaction whose [boc] cannot be printed into the explorer
    URL is reported as failed. *)
Example unprintable_boc_reported_failed :
  exists m target,
    outbox (step (ASettle 0 (SignOk (JObj [("boc", unprintable)]))) signing_now)
    = (m, target) :: outbox signing_now
    /\ get (get m "payload") "success" = JBool false
    /\ get (get (get m "payload") "error") "code" = JStr "TRANSACTION_FAILED".
Proof. eexists. eexists. split; [vm_compute; reflexivity|]. split; reflexivity. Qed.

(** An AUTH_RESULT failure whose error code cannot be printed stops at the
    log line: the lifecycle state stays. *)
Example unprintable_error_code_stops :
  let msg := JObj [("type", JStr "AUTH_RESULT"); ("requestId", JStr "auth-001");
                   ("payload", JObj [("success", JBool false);
                                     ("error", JObj [("code", unprintable)])])] in
  tlendState (state (step (AMessage tlend msg) ready)) = Some READY.
Proof. vm_compute. reflexivity. Qed.

(** TLEND_LOADED schedules styles, logo and the auth check; with no wallet
    the auth check sends nothing. *)
Example loaded_then_timers :
  let w := run [AClickLoadIframe; AMessage tlend msg_loaded; AFire 0; AFire 1; AFire 2] start in
  tlendState (state w) = Some LOADING
  /\ map (fun p => (get (fst p) "type", snd p)) (outbox w)
     = [(JStr "SET_LOGO", tlend); (JStr "STYLES_UPGRADE", tlend)]
  /\ timers w = [].
Proof. vm_compute. repeat split. Qed.

(** A sender whose origin is opaque reports ["null"], which [postMessage]
    does not take as a target: the reject throws before the slot is freed. *)
Example opaque_origin_blocks_sending :
  let w := run [AClickLoadIframe; AMessage "null" msg_repay_request; ACallReject JUndefined] start in
  outbox w = [] /\ pendingRepayRequest (state w) <> None.
Proof. vm_compute. split; [reflexivity | discriminate]. Qed.

End Sanity.

(** ** The claims about the partner application *)

Section AppClaims.
Import App Scenario.

(** C1, evaluated on the code.  [handleMessage] never consults the
    allow-list: after the iframe at [tlend] has been recorded, a message from
    [stranger], an origin that is not in [CONFIG.TLEND_ORIGINS], still drives
    the lifecycle to ERROR, and a re-authentication request from it is
    answered with a DISCONNECT message. *)
Theorem unlisted_origin_is_processed :
  origin_listed stranger (TLEND_ORIGINS ready) = false
  /\ tlendOrigin (state ready) = Some tlend
  /\ tlendState (state ready) = Some READY
  /\ tlendState (state (step (AMessage stranger (msg_auth_failed (JStr "auth-001"))) ready))
     = Some ERROR
  /\ outbox (step (AMessage stranger msg_auth_request) ready)
     = (message "DISCONNECT" None 1734278400000 (JObj [("reason", JStr "session_expired")]), tlend)
       :: outbox ready.
Proof. vm_compute. repeat split. Qed.

(** C2 (as amended).  The validator rejects every malformed payload.
    [handleMessage] has its own, weaker guard: a payload that is not an
    object, or whose [type] is not a string, or whose [type] is not a
    protocol type, changes nothing except that the sender's origin is
    recorded when none is stored yet (so nothing at all once an origin is
    stored).  The [timestamp] is not looked at by [handleMessage]. *)
Theorem malformed_payload_handling (v : JsVal) (w : World) (origin : string) :
  malformed v ->
  Guards.isIframeMessage v = false
  /\ (dropped v ->
      step (AMessage origin v) w = record_origin origin w
      /\ (no_origin (state w) = false -> step (AMessage origin v) w = w)).
Proof.
  intros Hm. split; [apply isIframeMessage_malformed, Hm|].
  intros Hd. change (step (AMessage origin v) w) with (exec (handleMessage origin v) w).
  rewrite (handleMessage_dropped _ _ _ Hd).
  split; [reflexivity|]. intros Hn. apply record_origin_stored, Hn.
Qed.

Lemma malformed_payload_handling_witness :
  Guards.isIframeMessage msg_unknown = false
  /\ (dropped msg_unknown ->
      step (AMessage stranger msg_unknown) ready = record_origin stranger ready
      /\ (no_origin (state ready) = false -> step (AMessage stranger msg_unknown) ready = ready)).
Proof.
  apply (malformed_payload_handling msg_unknown ready stranger).
  left. right. right. right. exists "PING". split; reflexivity.
Defined.

(** C2, the claim as stated fails: a failure report without a [timestamp]
    is rejected by the validator and yet moves the lifecycle to ERROR; and
    the very first payload, even a bare string, makes the handler store its
    sender's origin. *)
Lemma malformed_payload_mutates_state :
  Guards.isIframeMessage msg_auth_failed_no_timestamp = false
  /\ tlendState (state ready) = Some READY
  /\ tlendState (state (step (AMessage tlend msg_auth_failed_no_timestamp) ready)) = Some ERROR
  /\ Guards.isIframeMessage (JStr "hello") = false
  /\ tlendOrigin (state start) = None
  /\ tlendOrigin (state (step (AMessage stranger (JStr "hello")) start)) = Some stranger.
Proof. vm_compute. repeat split. Qed.

(** C3 (as amended).  For a reply carrying the request id [rid]: while the
    id is pending, the timeout callback and the reply handler each remove the
    entry, and the reply handler also cancels the entry's timer (a
    check-response may add a credentials task); once the id is no longer
    pending, the timeout callbacks change nothing at all, and a reply leaves
    the pending map unchanged, cancels no timer (a check-response may again
    add a credentials task) and posts nothing.  In both cases the reply's
    payload is processed by the same code: the handler is the rest of its
    body, run on the world without the entry and its timer while the id is
    pending, and on the world as it is once the id is no longer pending.
    What that does to the rest of the state is not restricted here. *)
Theorem pending_resolution (w : World) (rid : string) (msg : JsVal) :
  get msg "requestId" = JStr rid ->
  match pendingRequests (state w) !! rid with
  | Some p =>
      pendingRequests (state (exec (handleAuthCheckTimeout rid) w))
      = delete rid (pendingRequests (state w))
      /\ pendingRequests (state (exec (handleAuthCredentialsTimeout rid) w))
         = delete rid (pendingRequests (state w))
      /\ pendingRequests (state (exec (handleAuthCheckResponse msg) w))
         = delete rid (pendingRequests (state w))
      /\ pendingRequests (state (exec (handleAuthResult msg) w))
         = delete rid (pendingRequests (state w))
      /\ timers (exec (handleAuthResult msg) w) = without_timer (p_timeout p) (timers w)
      /\ (exists extra,
            timers (exec (handleAuthCheckResponse msg) w)
            = without_timer (p_timeout p) (timers w) ++ extra
            /\ Forall (fun t => t_task t = TSendAuthCredentials) extra)
      /\ handleAuthCheckResponse msg w
         = afterAuthCheckResponse (get msg "payload")
             (exec (pending_delete rid) (exec (clearTimeout (p_timeout p)) w))
      /\ handleAuthResult msg w
         = afterAuthResult (get msg "payload")
             (exec (pending_delete rid) (exec (clearTimeout (p_timeout p)) w))
  | None =>
      exec (handleAuthCheckTimeout rid) w = w
      /\ exec (handleAuthCredentialsTimeout rid) w = w
      /\ pendingRequests (state (exec (handleAuthCheckResponse msg) w)) = pendingRequests (state w)
      /\ pendingRequests (state (exec (handleAuthResult msg) w)) = pendingRequests (state w)
      /\ outbox (exec (handleAuthCheckResponse msg) w) = outbox w
      /\ outbox (exec (handleAuthResult msg) w) = outbox w
      /\ timers (exec (handleAuthResult msg) w) = timers w
      /\ (exists extra,
            timers (exec (handleAuthCheckResponse msg) w) = timers w ++ extra
            /\ Forall (fun t => t_task t = TSendAuthCredentials) extra)
      /\ handleAuthCheckResponse msg w = afterAuthCheckResponse (get msg "payload") w
      /\ handleAuthResult msg w = afterAuthResult (get msg "payload") w
  end.
Proof.
  intros Hrid.
  destruct (handleAuthResult_book msg w) as (R1 & R2 & R3).
  destruct (handleAuthCheckResponse_book msg w) as (C1 & C2 & extra & C3 & C4).
  assert (HC : handleAuthCheckResponse msg w
               = afterAuthCheckResponse (get msg "payload") (resolved (JStr rid) w)).
  { unfold handleAuthCheckResponse, bind. rewrite clear_pending_spec, Hrid. reflexivity. }
  assert (HR : handleAuthResult msg w
               = afterAuthResult (get msg "payload") (resolved (JStr rid) w)).
  { unfold handleAuthResult, bind. rewrite clear_pending_spec, Hrid. reflexivity. }
  rewrite Hrid in *.
  destruct (resolved_book rid w) as (B1 & B2 & B3).
  assert (B4 : resolved (JStr rid) w
               = match pendingRequests (state w) !! rid with
                 | Some p => exec (pending_delete rid) (exec (clearTimeout (p_timeout p)) w)
                 | None => w
                 end).
  { unfold resolved, pending_get. destruct (pendingRequests (state w) !! rid); reflexivity. }
  rewrite B4 in HC, HR. clear B4.
  rewrite exec_handleAuthCheckTimeout, exec_handleAuthCredentialsTimeout.
  destruct (pendingRequests (state w) !! rid) as [p|] eqn:E.
  - split; [reflexivity|]. split.
    { destruct (input_is (el_autoReadyMode (elements w)) "immediate"); reflexivity. }
    split; [congruence|]. split; [congruence|]. split; [congruence|].
    split; [exists extra; split; [congruence | exact C4]|].
    split; assumption.
  - rewrite (delete_id _ _ E) in B1.
    split; [reflexivity|]. split; [reflexivity|].
    split; [congruence|]. split; [congruence|]. split; [congruence|].
    split; [congruence|]. split; [congruence|].
    split; [exists extra; split; [congruence | exact C4]|].
    split; assumption.
Qed.

Lemma pending_resolution_witness :
  let msg := msg_auth_failed (JStr sent_id) in
  let p := mkPending AUTH_CREDENTIALS 1734278400000 0 in
  (pendingRequests (state (exec (handleAuthCheckTimeout sent_id) credentials_sent))
   = delete sent_id (pendingRequests (state credentials_sent))
   /\ pendingRequests (state (exec (handleAuthCredentialsTimeout sent_id) credentials_sent))
      = delete sent_id (pendingRequests (state credentials_sent))
   /\ pendingRequests (state (exec (handleAuthCheckResponse msg) credentials_sent))
      = delete sent_id (pendingRequests (state credentials_sent))
   /\ pendingRequests (state (exec (handleAuthResult msg) credentials_sent))
      = delete sent_id (pendingRequests (state credentials_sent))
   /\ timers (exec (handleAuthResult msg) credentials_sent)
      = without_timer (p_timeout p) (timers credentials_sent)
   /\ (exists extra,
         timers (exec (handleAuthCheckResponse msg) credentials_sent)
         = without_timer (p_timeout p) (timers credentials_sent) ++ extra
         /\ Forall (fun t => t_task t = TSendAuthCredentials) extra)
   /\ handleAuthCheckResponse msg credentials_sent
      = afterAuthCheckResponse (get msg "payload")
          (exec (pending_delete sent_id) (exec (clearTimeout (p_timeout p)) credentials_sent))
   /\ handleAuthResult msg credentials_sent
      = afterAuthResult (get msg "payload")
          (exec (pending_delete sent_id) (exec (clearTimeout (p_timeout p)) credentials_sent)))
  /\ (exec (handleAuthCheckTimeout sent_id) timed_out = timed_out
      /\ exec (handleAuthCredentialsTimeout sent_id) timed_out = timed_out
      /\ pendingRequests (state (exec (handleAuthCheckResponse msg) timed_out))
         = pendingRequests (state timed_out)
      /\ pendingRequests (state (exec (handleAuthResult msg) timed_out))
         = pendingRequests (state timed_out)
      /\ outbox (exec (handleAuthCheckResponse msg) timed_out) = outbox timed_out
      /\ outbox (exec (handleAuthResult msg) timed_out) = outbox timed_out
      /\ timers (exec (handleAuthResult msg) timed_out) = timers timed_out
      /\ (exists extra,
            timers (exec (handleAuthCheckResponse msg) timed_out) = timers timed_out ++ extra
            /\ Forall (fun t => t_task t = TSendAuthCredentials) extra)
      /\ handleAuthCheckResponse msg timed_out
         = afterAuthCheckResponse (get msg "payload") timed_out
      /\ handleAuthResult msg timed_out = afterAuthResult (get msg "payload") timed_out).
Proof.
  split.
  - apply (pending_resolution credentials_sent sent_id (msg_auth_failed (JStr sent_id))).
    reflexivity.
  - apply (pending_resolution timed_out sent_id (msg_auth_failed (JStr sent_id))).
    reflexivity.
Defined.

(** C3, the claim as stated fails: the credentials request times out, its
    entry is removed, and the reply that arrives afterwards still moves the
    lifecycle from READY to ERROR. *)
Lemma late_reply_changes_state :
  pendingRequests (state credentials_sent) !! sent_id
  = Some (mkPending AUTH_CREDENTIALS 1734278400000 0)
  /\ pendingRequests (state timed_out) !! sent_id = None
  /\ tlendState (state timed_out) = Some READY
  /\ tlendState (state (step (AMessage tlend (msg_auth_failed (JStr sent_id))) timed_out))
     = Some ERROR.
Proof. vm_compute. repeat split. Qed.




(** C5 (as amended).  With a repayment request pending, when messages can
    be posted, [rejectRepayRequest(reason)] posts exactly one message: a
    REPAY_RESULT for the pending request id with [success = false], the
    supplied code ([USER_REJECTED] when none is supplied) and
    [userCancelled] true exactly when that code is [USER_REJECTED]; the
    pending slot is freed. *)
Theorem reject_emits_result (w : World) (req : RepayRequest) (reason : JsVal) :
  pendingRepayRequest (state w) = Some req ->
  can_post w = true ->
  let w' := step (ACallReject reason) w in
  exists m,
    outbox w' = (m, targetOrigin (state w)) :: outbox w
    /\ get m "type" = JStr "REPAY_RESULT"
    /\ get m "requestId" = r_requestId req
    /\ get (get m "payload") "success" = JBool false
    /\ get (get (get m "payload") "error") "code" = reject_code reason
    /\ get (get (get m "payload") "error") "userCancelled"
       = JBool (is_str (reject_code reason) "USER_REJECTED")
    /\ pendingRepayRequest (state w') = None.
Proof.
  intros Hp Hi w'. subst w'.
  unfold step, exec, handler, rejectRepayRequest, bind, read. rewrite Hp.
  rewrite sendToTLend_posts by exact Hi.
  eexists. split; [reflexivity|]. repeat split.
Qed.

Lemma reject_emits_result_witness :
  exists m,
    outbox (step (ACallReject JUndefined) repay_pending)
    = (m, targetOrigin (state repay_pending)) :: outbox repay_pending
    /\ get m "type" = JStr "REPAY_RESULT"
    /\ get m "requestId" = JStr "repay-001"
    /\ get (get m "payload") "success" = JBool false
    /\ get (get (get m "payload") "error") "code" = JStr "USER_REJECTED"
    /\ get (get (get m "payload") "error") "userCancelled" = JBool true
    /\ pendingRepayRequest (state (step (ACallReject JUndefined) repay_pending)) = None.
Proof.
  apply (reject_emits_result repay_pending
           (mkRepay (JStr "repay-001") (get msg_repay_request "payload") 1734278400000) JUndefined).
  - reflexivity.
  - reflexivity.
Defined.

(** C5, the claim as stated fails: rejecting with the code [TIMEOUT] posts
    a result with [userCancelled = false]. *)
Lemma reject_with_other_code_not_cancelled :
  exists m target,
    outbox (step (ACallReject (JStr "TIMEOUT")) repay_pending) = [(m, target)]
    /\ get (get m "payload") "success" = JBool false
    /\ get (get (get m "payload") "error") "code" = JStr "TIMEOUT"
    /\ get (get (get m "payload") "error") "userCancelled" = JBool false.
Proof.
  eexists. eexists. split; [vm_compute; reflexivity|]. repeat split.
Qed.

(** C8.  An AUTH_RESULT message with [success = false], whose error code
    and error message (absent or not) can be printed in the log line, sets
    the lifecycle to ERROR when the auto-ready input is not [immediate], and
    to READY when it is. *)
Theorem auth_result_failure (w : World) (origin : string) (msg : JsVal) :
  get msg "type" = JStr "AUTH_RESULT" ->
  get (get msg "payload") "success" = JBool false ->
  to_strings [optget (get (get msg "payload") "error") "code";
              optget (get (get msg "payload") "error") "message"] <> None ->
  tlendState (state (step (AMessage origin msg) w))
  = Some (if input_is (el_autoReadyMode (elements w)) "immediate" then READY else ERROR).
Proof.
  intros Ht Hs He.
  unfold step, handler. rewrite (handleMessage_AUTH_RESULT _ _ _ Ht).
  rewrite handleAuthResult_after.
  unfold exec, afterAuthResult, bind.
  unfold lift. rewrite (prop_defined _ _ _ Hs) by discriminate.
  cbn [ret truthy read]. rewrite logInfo_spec.
  destruct (to_strings _); [|congruence].
  cbn [option_map]. rewrite elements_resolved.
  destruct (record_origin_rest origin w) as (_ & _ & _ & _ & _ & _ & _ & _ & Hel).
  rewrite Hel.
  destruct (input_is (el_autoReadyMode (elements w)) "immediate"); reflexivity.
Qed.

Lemma auth_result_failure_witness :
  tlendState (state (step (AMessage tlend (msg_auth_failed (JStr "auth-001"))) connected))
  = Some ERROR
  /\ tlendState (state (step (AMessage tlend (msg_auth_failed (JStr "auth-001")))
                          connected_immediate))
     = Some READY.
Proof.
  split.
  - apply (auth_result_failure connected tlend (msg_auth_failed (JStr "auth-001")));
      [reflexivity | reflexivity | discriminate].
  - apply (auth_result_failure connected_immediate tlend (msg_auth_failed (JStr "auth-001")));
      [reflexivity | reflexivity | discriminate].
Defined.

(** C9.  Until a message has been received every message is posted to
    ["*"]; the first message received, whatever its (non-empty) origin, makes
    that origin the stored one and appends it to the allow-list if it is not
    there; from then on, as long as the iframe is not loaded afresh, the
    stored origin stays and every message is posted to it. *)
Theorem outbound_target_origin
    (w : World) (before : list Action) (origin : string) (data : JsVal) (after : list Action) :
  no_origin (state w) = true ->
  forallb (fun a => negb (is_message a)) before = true ->
  origin <> "" ->
  forallb (fun a => negb (is_load a)) after = true ->
  let w0 := run before w in
  let w1 := step (AMessage origin data) w0 in
  let w2 := run after w1 in
  posted_since w w0 "*"
  /\ tlendOrigin (state w1) = Some origin
  /\ TLEND_ORIGINS w1 = (if origin_listed origin (TLEND_ORIGINS w0) then TLEND_ORIGINS w0
                         else TLEND_ORIGINS w0 ++ [origin])
  /\ tlendOrigin (state w2) = Some origin
  /\ posted_since w0 w2 origin.
Proof.
  intros Hn Hb Hne Ha w0 w1 w2.
  destruct (run_without_origin before w Hn Hb) as [Hn0 Hp0]. fold w0 in Hn0, Hp0.
  destruct (record_origin_fresh origin w0 Hn0) as (Ho & Hl & Hout).
  pose proof (step_frame_message origin data w0) as F. fold w1 in F.
  destruct F as (Fo & Fl & Fp).
  assert (Ho1 : tlendOrigin (state w1) = Some origin) by congruence.
  destruct (run_with_origin after w1 origin Ho1 Hne Ha) as [Ho2 Hp2]. fold w2 in Ho2, Hp2.
  split; [exact Hp0|]. split; [exact Ho1|]. split; [congruence|]. split; [exact Ho2|].
  eapply posted_since_trans; [|exact Hp2].
  destruct Fp as (new & E & Fall). exists new. split.
  - rewrite E, Hout. reflexivity.
  - rewrite (targetOrigin_some _ _ Ho Hne) in Fall. exact Fall.
Qed.

Lemma outbound_target_origin_witness :
  let w0 := run [AClickLoadIframe; AClickSendStyles] start in
  let w1 := step (AMessage tlend msg_loaded) w0 in
  let w2 := run [AFire 0; AFire 1; AWalletStatus (Some wallet); AFire 2] w1 in
  posted_since start w0 "*"
  /\ tlendOrigin (state w1) = Some tlend
  /\ TLEND_ORIGINS w1 = (if origin_listed tlend (TLEND_ORIGINS w0) then TLEND_ORIGINS w0
                         else TLEND_ORIGINS w0 ++ [tlend])
  /\ tlendOrigin (state w2) = Some tlend
  /\ posted_since w0 w2 tlend.
Proof.
  apply (outbound_target_origin start [AClickLoadIframe; AClickSendStyles] tlend msg_loaded
           [AFire 0; AFire 1; AWalletStatus (Some wallet); AFire 2]).
  - reflexivity.
  - reflexivity.
  - discriminate.
  - reflexivity.
Defined.

(** C10.  With no repayment request pending, approving and rejecting both
    leave the world as it is: no message is posted and nothing changes. *)
Theorem no_pending_repay_is_noop (w : World) (reason : JsVal) :
  pendingRepayRequest (state w) = None ->
  step AClickApprove w = w /\ step (ACallReject reason) w = w.
Proof.
  intros H. unfold step, exec, handler, approveRepayRequest, rejectRepayRequest, bind, read.
  rewrite H. split; reflexivity.
Qed.

Lemma no_pending_repay_is_noop_witness :
  step AClickApprove ready = ready /\ step (ACallReject (JStr "USER_REJECTED")) ready = ready.
Proof.
  apply (no_pending_repay_is_noop ready (JStr "USER_REJECTED")). reflexivity.
Defined.

End AppClaims.

(* ===================================================================== *)
(** * Further properties *)
(* ===================================================================== *)

(** ** Patterns *)

Section RegexFacts.
Import Regex.

Lemma nullable_matches r : nullable r = true -> matches r "".
Proof.
  induction r; cbn; intros H; try discriminate.
  - constructor.
  - apply andb_true_iff in H as [H1 H2]. apply (m_seq _ _ "" ""); auto.
  - apply orb_true_iff in H as [H|H]; [apply m_alt_l | apply m_alt_r]; auto.
  - constructor.
Qed.

Lemma deriv_matches r : forall c s, matches (deriv c r) s -> matches r (String c s).
Proof.
  induction r; intros c s H; cbn in H.
  - inversion H.
  - inversion H.
  - destruct (p c) eqn:E; inversion H; subst. constructor. exact E.
  - destruct (nullable r1) eqn:N.
    + inversion H; subst.
      * inversion H3; subst. apply (m_seq _ _ (String c s1) s2); auto.
      * apply (m_seq _ _ "" (String c s)); [apply nullable_matches, N | auto].
    + inversion H; subst. apply (m_seq _ _ (String c s1) s2); auto.
  - inversion H; subst; [apply m_alt_l | apply m_alt_r]; auto.
  - inversion H; subst. apply (m_star_cons _ (String c s1) s2); auto.
Qed.

Lemma append_empty (s1 s2 : string) : (s1 ++ s2)%string = "" -> s1 = "" /\ s2 = "".
Proof. destruct s1; cbn; [auto | discriminate]. Qed.

Lemma matches_nullable r s : matches r s -> s = "" -> nullable r = true.
Proof.
  induction 1; intros E; cbn; try reflexivity; try discriminate.
  - apply append_empty in E as [E1 E2]. rewrite IHmatches1, IHmatches2; auto.
  - rewrite IHmatches; auto.
  - rewrite IHmatches; auto using orb_true_r.
Qed.

Lemma matches_deriv r s0 :
  matches r s0 -> forall c s, s0 = String c s -> matches (deriv c r) s.
Proof.
  induction 1; intros c0 s0 E; cbn.
  - discriminate.
  - injection E as -> <-. rewrite H. constructor.
  - destruct s1 as [|c1 s1]; cbn in E.
    + rewrite (matches_nullable _ _ H eq_refl). apply m_alt_r. auto.
    + injection E as -> <-.
      assert (matches (Seq (deriv c0 a) b) (s1 ++ s2)) by (constructor; auto).
      destruct (nullable a); [apply m_alt_l|]; assumption.
  - apply m_alt_l; auto.
  - apply m_alt_r; auto.
  - discriminate.
  - destruct s1 as [|c1 s1]; cbn in E.
    + apply (IHmatches2 _ _ E).
    + injection E as -> <-. constructor; auto.
Qed.

(** The matcher decides the language of the pattern. *)
Lemma test_matches s : forall r, test r s = true <-> matches r s.
Proof.
  induction s as [|c s IH]; intros r; cbn.
  - split; [apply nullable_matches | intros H; apply (matches_nullable _ _ H eq_refl)].
  - rewrite IH. split; [apply deriv_matches | intros H; apply (matches_deriv _ _ H _ _ eq_refl)].
Qed.

Lemma matches_class_inv p s : matches (Class p) s -> exists c, s = String c "" /\ p c = true.
Proof. inversion 1; subst; eauto. Qed.

Lemma matches_seq_inv a b s :
  matches (Seq a b) s -> exists s1 s2, s = (s1 ++ s2)%string /\ matches a s1 /\ matches b s2.
Proof. inversion 1; subst; eauto. Qed.

Lemma length_append (s1 s2 : string) :
  String.length (s1 ++ s2) = (String.length s1 + String.length s2)%nat.
Proof. induction s1 as [|a s1 IH]; [reflexivity|]. cbn. rewrite <- IH. reflexivity. Qed.

Lemma matches_rep_class n p : forall s, matches (Rep n (Class p)) s -> String.length s = n.
Proof.
  induction n as [|n IH]; intros s H; cbn in H.
  - inversion H; reflexivity.
  - apply matches_seq_inv in H as (s1 & s2 & -> & H1 & H2).
    apply matches_class_inv in H1 as (c & -> & _). rewrite length_append. cbn. f_equal. auto.
Qed.

(** The head of a string. *)
Lemma append_head (s1 s2 : string) c rest :
  s1 = String c rest -> (s1 ++ s2)%string = String c (rest ++ s2).
Proof. intros ->. reflexivity. Qed.

Lemma friendly_address_inv s :
  matches Guards.friendly_address s ->
  exists c rest, s = String c (String "Q" rest) /\ (c = "E"%char \/ c = "U"%char)
                 /\ String.length rest = 46%nat.
Proof.
  intros H. apply matches_seq_inv in H as (s1 & s2 & -> & H1 & H2).
  apply matches_class_inv in H1 as (c & -> & Hc).
  apply matches_seq_inv in H2 as (s3 & s4 & -> & H3 & H4).
  apply matches_class_inv in H3 as (q & -> & Hq).
  apply matches_rep_class in H4. exists c, s4. cbn.
  assert (q = "Q"%char) as ->.
  { unfold is_char, code in Hq. apply Nat.eqb_eq in Hq.
    rewrite <- (ascii_nat_embedding q), Hq. reflexivity. }
  split; [reflexivity|]. split; [|exact H4].
  apply orb_true_iff in Hc as [Hc|Hc]; unfold is_char, code in Hc; apply Nat.eqb_eq in Hc;
    rewrite <- (ascii_nat_embedding c), Hc; auto.
Qed.

Lemma raw_address_inv s :
  matches Guards.raw_address s ->
  (66 <= String.length s)%nat
  /\ exists c rest, s = String c rest /\ (is_char "-" c || digit c) = true.
Proof.
  intros H. apply matches_seq_inv in H as (s0 & s' & -> & H0 & H).
  apply matches_seq_inv in H as (s1 & s'' & -> & H1 & H).
  apply matches_seq_inv in H as (s2 & s3 & -> & H2 & H3).
  apply matches_seq_inv in H1 as (d & ds & -> & Hd & _).
  apply matches_class_inv in Hd as (c & -> & Hc).
  apply matches_class_inv in H2 as (k & -> & _).
  apply matches_rep_class in H3.
  split.
  - rewrite !length_append, H3. cbn. lia.
  - inversion H0; subst.
    + inversion H4; subst. exists c. eexists. cbn. split; [reflexivity|].
      rewrite Hc. apply orb_true_r.
    + apply matches_class_inv in H4 as (m & -> & Hm). exists m. eexists. cbn.
      split; [reflexivity|]. rewrite Hm. reflexivity.
Qed.

End RegexFacts.

(** ** The guards and helpers of utilities.ts *)

Section GuardProperties.
Import Guards.

Lemma isIframeMessage_type msg :
  isIframeMessage msg = true ->
  exists t, prop msg "type" = Some (JStr t) /\ isValidMessageType t = true.
Proof.
  unfold isIframeMessage. intros H.
  destruct (negb (JsType_eqb (typeof msg) TObject) || is_null msg) eqn:G; [discriminate|].
  apply orb_false_iff in G as [_ G].
  apply andb_true_iff in H as [_ H].
  destruct (get msg "type") as [| | | | |t| |] eqn:E; try discriminate.
  exists t. split; [|exact H].
  unfold prop. destruct msg; try discriminate; cbn in *; congruence.
Qed.

Lemma valid_type_cases t :
  isValidMessageType t = true ->
  existsb (String.eqb t) tlendTypes = negb (existsb (String.eqb t) partnerTypes).
Proof.
  unfold isValidMessageType, validTypes. cbn [existsb]. intros H.
  repeat (apply orb_true_iff in H as [H|H]); try discriminate;
    apply String.eqb_eq in H; subst t; reflexivity.
Qed.

(** X1: every message the validator accepts goes in exactly one direction. *)
Theorem direction_guards_partition (msg : JsVal) :
  isIframeMessage msg = true ->
  exists b, isTLendToPartnerMessage msg = Some b /\ isPartnerToTLendMessage msg = Some (negb b).
Proof.
  intros H. apply isIframeMessage_type in H as (t & Hp & Ht).
  unfold isTLendToPartnerMessage, isPartnerToTLendMessage. rewrite Hp. cbn.
  exists (existsb (String.eqb t) tlendTypes). split; [reflexivity|].
  rewrite (valid_type_cases _ Ht), negb_involutive. reflexivity.
Qed.

Lemma direction_guards_partition_witness :
  exists b, isTLendToPartnerMessage Scenario.msg_ready = Some b
            /\ isPartnerToTLendMessage Scenario.msg_ready = Some (negb b).
Proof. apply (direction_guards_partition Scenario.msg_ready). reflexivity. Defined.

Lemma direction_type_valid t :
  existsb (String.eqb t) tlendTypes || existsb (String.eqb t) partnerTypes = true ->
  isValidMessageType t = true.
Proof.
  unfold tlendTypes, partnerTypes. cbn [existsb]. intros H.
  apply orb_true_iff in H as [H|H];
    repeat (apply orb_true_iff in H as [H|H]); try discriminate;
    apply String.eqb_eq in H; subst t; reflexivity.
Qed.

(** X2: a message built by [createBaseMessage] passes the validator
    exactly when one of the two direction guards claims it: the two
    direction lists together are the thirteen valid types. *)
Theorem createBaseMessage_classified (type : string) (now : Z) :
  isIframeMessage (createBaseMessage type now) = true
  <-> isTLendToPartnerMessage (createBaseMessage type now) = Some true
      \/ isPartnerToTLendMessage (createBaseMessage type now) = Some true.
Proof.
  change (isIframeMessage (createBaseMessage type now)) with (isValidMessageType type).
  change (isTLendToPartnerMessage (createBaseMessage type now))
    with (Some (existsb (String.eqb type) tlendTypes)).
  change (isPartnerToTLendMessage (createBaseMessage type now))
    with (Some (existsb (String.eqb type) partnerTypes)).
  split.
  - intros H. rewrite (valid_type_cases _ H).
    destruct (existsb (String.eqb type) partnerTypes); auto.
  - intros [H|H]; apply direction_type_valid.
    + assert (E : existsb (String.eqb type) tlendTypes = true) by congruence.
      rewrite E. reflexivity.
    + assert (E : existsb (String.eqb type) partnerTypes = true) by congruence.
      rewrite E. apply orb_true_r.
Qed.

Lemma raw_not_friendly a :
  Regex.test raw_address a = true -> Regex.test friendly_address a = true -> False.
Proof.
  intros Hr Hf. apply test_matches in Hr, Hf.
  apply raw_address_inv in Hr as (_ & c & rest & -> & Hc).
  apply friendly_address_inv in Hf as (c' & rest' & E & Hc' & _).
  injection E as -> _. destruct Hc' as [-> | ->]; discriminate.
Qed.

(** X3: with no format given, an address is valid exactly when it is valid
    in one of the two formats, and no address is valid in both. *)
Theorem isValidTonAddress_formats (address : JsVal) :
  isValidTonAddress address JUndefined
  = xorb (isValidTonAddress address (JStr "raw"))
         (isValidTonAddress address (JStr "user-friendly")).
Proof.
  unfold isValidTonAddress.
  destruct (negb (truthy address) || negb (JsType_eqb (typeof address) TString));
    [reflexivity|].
  destruct address as [| | | | |a| |]; try reflexivity. cbn.
  destruct (Regex.test raw_address a) eqn:Hr, (Regex.test friendly_address a) eqn:Hf;
    try reflexivity.
  destruct (raw_not_friendly a Hr Hf).
Qed.

(** X4: only strings are valid addresses; a user-friendly one has 48
    characters and starts with EQ or UQ, a raw one has at least 66. *)
Theorem valid_address_shape (address format : JsVal) :
  isValidTonAddress address format = true ->
  exists a, address = JStr a
    /\ ((format <> JStr "raw" /\ String.length a = 48%nat
         /\ (String.prefix "EQ" a = true \/ String.prefix "UQ" a = true))
        \/ (format <> JStr "user-friendly" /\ (66 <= String.length a)%nat)).
Proof.
  unfold isValidTonAddress.
  destruct (negb (truthy address) || negb (JsType_eqb (typeof address) TString));
    [discriminate|].
  destruct address as [| | | | |a| |]; try discriminate. intros H. exists a.
  split; [reflexivity|].
  assert (Hraw : Regex.test raw_address a = true -> (66 <= String.length a)%nat).
  { intros T. apply test_matches, raw_address_inv in T. tauto. }
  assert (Hfr : Regex.test friendly_address a = true ->
                String.length a = 48%nat
                /\ (String.prefix "EQ" a = true \/ String.prefix "UQ" a = true)).
  { intros T. apply test_matches, friendly_address_inv in T as (c & rest & -> & Hc & Hl).
    cbn [String.length]. split; [congruence|]. destruct Hc as [-> | ->]; cbn.
    - left. destruct rest; reflexivity.
    - right. destruct rest; reflexivity. }
  destruct (is_str format "raw") eqn:F1.
  { right. split; [|auto]. intros ->. discriminate. }
  destruct (is_str format "user-friendly") eqn:F2.
  { left. split; [|auto]. intros ->. discriminate. }
  apply orb_true_iff in H as [H|H].
  - right. split; [|auto]. intros ->. discriminate.
  - left. split; [|auto]. intros ->. discriminate.
Qed.

Lemma valid_address_shape_witness :
  exists a, JStr "EQBvW8Z5huBkMJYdnfAEM5JqTNkuWX3diqYENkWsIL0XggGG" = JStr a
    /\ ((JStr "user-friendly" <> JStr "raw" /\ String.length a = 48%nat
         /\ (String.prefix "EQ" a = true \/ String.prefix "UQ" a = true))
        \/ (JStr "user-friendly" <> JStr "user-friendly" /\ (66 <= String.length a)%nat)).
Proof.
  apply (valid_address_shape (JStr "EQBvW8Z5huBkMJYdnfAEM5JqTNkuWX3diqYENkWsIL0XggGG")
           (JStr "user-friendly")).
  vm_compute. reflexivity.
Defined.

End GuardProperties.

(** ** The codec: what an issued payload looks like and when it is taken *)

Section CodecProperties.
Import Codec.

Lemma length_hex_encode (buf : list byte) :
  String.length (hex_encode buf) = (2 * List.length buf)%nat.
Proof. induction buf as [|b rest IH]; cbn [hex_encode String.length List.length]; lia. Qed.

Lemma length_hex_decode (s : string) :
  (2 * List.length (hex_decode s) <= String.length s)%nat.
Proof.
  revert s.
  assert (H : forall n s, (String.length s <= n)%nat ->
                          (2 * List.length (hex_decode s) <= String.length s)%nat).
  { induction n as [|n IH]; intros s Hn.
    - destruct s; cbn in *; lia.
    - destruct s as [|a [|b rest]]; cbn [hex_decode String.length List.length]; try lia.
      destruct (unhex a), (unhex b); cbn [List.length]; try lia.
      assert (Hr : (String.length rest <= n)%nat) by (cbn [String.length] in Hn; lia).
      specialize (IH rest Hr). lia. }
  intros s. apply (H (String.length s)). lia.
Qed.

Lemma writeUInt32BE_range (v : Z) :
  writeUInt32BE v = None <-> v < 0 \/ 2 ^ 32 <= v.
Proof.
  unfold writeUInt32BE.
  destruct (Z.leb_spec 0 v) as [Ha|Ha], (Z.ltb_spec v (2 ^ 32)) as [Hb|Hb]; cbn; split;
    intros Hc; try discriminate; try lia; reflexivity.
Qed.

(** The bytes behind an issued payload. *)
Lemma generatePayload_decodes (sharedSecret : list byte) (now_ms : Z) (payloadHex : string) :
  generatePayload sharedSecret now_ms = Some payloadHex ->
  exists eb,
    writeUInt32BE (now_ms / 1000 + 15 * 60) = Some eb
    /\ payloadHex = hex_encode (eb ++ subarray 0 28 (hmac_sha256 sharedSecret eb))
    /\ List.length (hex_decode payloadHex) = 32%nat
    /\ readUInt32BE (hex_decode payloadHex) = now_ms / 1000 + 15 * 60
    /\ firstn 4 (hex_decode payloadHex) = eb
    /\ subarray 4 32 (hex_decode payloadHex) = subarray 0 28 (hmac_sha256 sharedSecret eb).
Proof.
  unfold generatePayload. set (e := now_ms / 1000 + 15 * 60).
  destruct (writeUInt32BE e) as [eb|] eqn:Hw; [|discriminate].
  intros [= <-]. exists eb. set (sig := subarray 0 28 (hmac_sha256 sharedSecret eb)).
  destruct (read_write_UInt32BE e eb sig Hw) as [Hread Hlen4].
  assert (Hsig : List.length sig = 28%nat).
  { unfold sig. rewrite length_subarray; [reflexivity | rewrite length_hmac_sha256; lia]. }
  rewrite hex_roundtrip, Hread, length_app, Hlen4, Hsig.
  repeat split; try reflexivity.
  - revert Hlen4. clear. destruct eb as [|a [|b [|c [|d [|x eb]]]]]; try discriminate.
    reflexivity.
  - unfold subarray at 1.
    replace (skipn 4 (eb ++ sig)) with sig.
    + change (32 - 4)%nat with 28%nat. rewrite <- Hsig. apply firstn_all.
    + revert Hlen4. clear. destruct eb as [|a [|b [|c [|d [|x eb]]]]]; try discriminate.
      reflexivity.
Qed.

(** X5: [generatePayload] throws exactly when the expiration does not fit
    the four-byte field; otherwise it returns 64 hex characters that decode
    to 32 bytes, the first four of which read back as the issuing second
    plus 15 minutes. *)
Theorem generatePayload_shape (sharedSecret : list byte) (now_ms : Z) :
  (generatePayload sharedSecret now_ms = None
   <-> now_ms / 1000 + 15 * 60 < 0 \/ 2 ^ 32 <= now_ms / 1000 + 15 * 60)
  /\ forall payloadHex,
       generatePayload sharedSecret now_ms = Some payloadHex ->
       String.length payloadHex = 64%nat
       /\ List.length (hex_decode payloadHex) = 32%nat
       /\ readUInt32BE (hex_decode payloadHex) = now_ms / 1000 + 15 * 60.
Proof.
  split.
  - rewrite <- writeUInt32BE_range. unfold generatePayload.
    destruct (writeUInt32BE (now_ms / 1000 + 15 * 60)); split; intros H;
      try discriminate; reflexivity.
  - intros p Hp. destruct (generatePayload_decodes _ _ _ Hp) as (eb & Hw & -> & Hl & Hr & _).
    split; [|split; assumption].
    rewrite length_hex_encode. rewrite hex_roundtrip in Hl. rewrite Hl. reflexivity.
Qed.

(** X6: an issued payload is accepted under the issuing secret exactly
    while the verifier's clock (in seconds) is within 15 minutes of the
    issuer's, the upper end excluded: after its expiration, or more than 15
    minutes before it was issued, it is refused. *)
Theorem issued_payload_window
    (sharedSecret : list byte) (issued_ms now_ms : Z) (payloadHex : string) :
  generatePayload sharedSecret issued_ms = Some payloadHex ->
  verifyPartnerPayload payloadHex sharedSecret now_ms
  = Some ((issued_ms / 1000 - 15 * 60 <=? now_ms / 1000)
          && (now_ms / 1000 <? issued_ms / 1000 + 15 * 60)).
Proof.
  intros Hp. destruct (generatePayload_decodes _ _ _ Hp) as (eb & Hw & _ & Hl & Hr & Hf & Hs).
  destruct (verify_spec payloadHex sharedSecret now_ms) as [[r Hret] Hiff].
  rewrite Hr, Hf, Hl in Hiff.
  destruct ((issued_ms / 1000 - 15 * 60 <=? now_ms / 1000)
            && (now_ms / 1000 <? issued_ms / 1000 + 15 * 60)) eqn:W.
  - apply Hiff. apply andb_true_iff in W as [W1 W2].
    apply Z.leb_le in W1. apply Z.ltb_lt in W2. repeat split; [lia | lia | lia | exact Hs].
  - destruct r; [|exact Hret].
    apply Hiff in Hret as (_ & Ht & _).
    apply andb_false_iff in W as [W|W]; [apply Z.leb_gt in W | apply Z.ltb_ge in W]; lia.
Qed.

Lemma issued_payload_window_witness :
  verifyPartnerPayload "6553f484cb8eda38e03cf7869cf7d97b83eefddf12203b911ac379b751e8986a"
    (bytes_of_string "secret") 1700000900000
  = Some ((1700000000000 / 1000 - 15 * 60 <=? 1700000900000 / 1000)
          && (1700000900000 / 1000 <? 1700000000000 / 1000 + 15 * 60)).
Proof.
  apply (issued_payload_window (bytes_of_string "secret") 1700000000000 1700000900000).
  vm_compute. reflexivity.
Defined.

(** X7: a hex string of fewer than 64 characters is refused, whatever the
    secret and the time, and without an exception. *)
Theorem short_payload_refused (payloadHex : string) (sharedSecret : list byte) (now_ms : Z) :
  (String.length payloadHex < 64)%nat ->
  verifyPartnerPayload payloadHex sharedSecret now_ms = Some false.
Proof.
  intros H. unfold verifyPartnerPayload.
  pose proof (length_hex_decode payloadHex) as Hd.
  destruct (Nat.ltb_spec (List.length (hex_decode payloadHex)) 32); [reflexivity | lia].
Qed.

Lemma short_payload_refused_witness :
  verifyPartnerPayload "6553f484cb8eda38e03cf7869cf7d97b83eefddf12203b911ac379b751e89"
    (bytes_of_string "secret") 1700000000000
  = Some false.
Proof.
  apply (short_payload_refused "6553f484cb8eda38e03cf7869cf7d97b83eefddf12203b911ac379b751e89").
  vm_compute. lia.
Defined.

End CodecProperties.

(** ** The message handler: what is dispatched, what is posted *)

Section DispatchProperties.
Import App.

Lemma hex_decode_stops (s : string) (i : nat) (c : ascii) :
  String.get i s = Some c -> Codec.unhex c = None ->
  (2 * List.length (Codec.hex_decode s) <= i)%nat.
Proof.
  revert s i.
  assert (H : forall n s i, (String.length s <= n)%nat ->
                            String.get i s = Some c -> Codec.unhex c = None ->
                            (2 * List.length (Codec.hex_decode s) <= i)%nat).
  { induction n as [|n IH]; intros s i Hn Hg Hc.
    - destruct s; [discriminate | cbn in Hn; lia].
    - destruct s as [|a [|b rest]]; cbn [Codec.hex_decode List.length]; try lia.
      destruct i as [|[|i]]; cbn in Hg.
      + injection Hg as ->. rewrite Hc. cbn. lia.
      + injection Hg as ->. rewrite Hc. destruct (Codec.unhex a); cbn; lia.
      + assert (Hr : (String.length rest <= n)%nat) by (cbn [String.length] in Hn; lia).
        specialize (IH rest i Hr Hg Hc).
        destruct (Codec.unhex a), (Codec.unhex b); cbn [List.length]; lia. }
  intros s i. apply (H (String.length s)). lia.
Qed.

(** X8: a string with a character that is not a hex digit among its first
    64 is refused, whatever the secret and the time, and without an
    exception: decoding stops at that character, before the 32nd byte. *)
Theorem non_hex_payload_refused
    (payloadHex : string) (i : nat) (c : ascii) (sharedSecret : list Codec.byte) (now_ms : Z) :
  (i < 64)%nat ->
  String.get i payloadHex = Some c ->
  Codec.unhex c = None ->
  Codec.verifyPartnerPayload payloadHex sharedSecret now_ms = Some false.
Proof.
  intros Hi Hg Hc. unfold Codec.verifyPartnerPayload.
  pose proof (hex_decode_stops payloadHex i c Hg Hc) as Hd.
  destruct (Nat.ltb_spec (List.length (Codec.hex_decode payloadHex)) 32); [reflexivity | lia].
Qed.

(** So the mock challenge of [generateProofPayload], which starts with the
    letter p, is no payload of the codec. *)
Lemma non_hex_payload_refused_witness :
  Codec.verifyPartnerPayload (generateProofPayload 1734278400000)
    (Codec.bytes_of_string "secret") 1734278400000 = Some false.
Proof.
  apply (non_hex_payload_refused (generateProofPayload 1734278400000) 0 "p").
  - lia.
  - reflexivity.
  - reflexivity.
Defined.

(** X9: [handleMessage] acts on the seven TLend -> Partner types only.  For
    any other data (not an object, no type, a Partner -> TLend type echoed
    back, an unknown type) it records the sender's origin if none is stored
    and changes nothing else.  It then returns, except for a type that
    cannot be printed in the log line about an unknown type: that ends the
    handler with a TypeError, after the origin was recorded. *)
Theorem only_tlend_types_dispatched (origin : string) (data : JsVal) (w : World) :
  Guards.isTLendToPartnerMessage data <> Some true ->
  step (AMessage origin data) w = record_origin origin w
  /\ fst (handleMessage origin data w)
     = match to_string (get data "type") with Some _ => Some tt | None => None end.
Proof.
  intros Hd. change (step (AMessage origin data) w) with (snd (handleMessage origin data w)).
  unfold handleMessage, bind. rewrite store_origin_spec.
  destruct (negb (truthy data) || negb (JsType_eqb (typeof data) TObject)
            || negb (truthy (get data "type"))) eqn:G.
  - split; [reflexivity|].
    destruct (to_string (get data "type")) eqn:E; [reflexivity|]. exfalso.
    destruct data; cbn in E; try discriminate.
    cbn in G. destruct (assoc "type" props) as [| |[|]| | | | |]; cbn in E, G; discriminate.
  - apply orb_false_iff in G as [G G3]. apply orb_false_iff in G as [G1 G2].
    apply negb_false_iff in G1.
    assert (Hn : nullish data = false) by (destruct data; try discriminate; reflexivity).
    unfold Guards.isTLendToPartnerMessage, prop in Hd. rewrite Hn in Hd. cbn in Hd.
    destruct (get data "type") as [| | | | |t| |]; cbn [is_str];
      try (rewrite logInfo_spec; cbn [to_strings];
           match goal with |- context [to_string ?v] => destruct (to_string v) end;
           split; reflexivity).
    cbn in Hd.
    destruct (t =? "TLEND_LOADED")%string; [cbn in Hd; congruence|].
    destruct (t =? "AUTH_CHECK_RESPONSE")%string; [cbn in Hd; congruence|].
    destruct (t =? "AUTH_RESULT")%string; [cbn in Hd; congruence|].
    destruct (t =? "AUTH_REQUEST")%string; [cbn in Hd; congruence|].
    destruct (t =? "TLEND_READY")%string; [cbn in Hd; congruence|].
    destruct (t =? "REPAY_REQUEST")%string; [cbn in Hd; congruence|].
    destruct (t =? "ERROR")%string; [cbn in Hd; congruence|].
    split; reflexivity.
Qed.

End DispatchProperties.

(** ** What is posted, over whole runs *)

Section SendsFacts.
Import App.

Lemma sends_same P {A} (m : M A) :
  (forall w, outbox (snd (m w)) = outbox w) -> sends P m.
Proof. intros H w. exists []. split; [apply H | constructor]. Qed.

Lemma sends_ret P {A} (a : A) : sends P (ret a).
Proof. apply sends_same. reflexivity. Qed.

Lemma sends_throw P {A} : sends P (@throw A).
Proof. apply sends_same. reflexivity. Qed.

Lemma sends_read P {A} (f : World -> A) : sends P (read f).
Proof. apply sends_same. reflexivity. Qed.

Lemma sends_world P : sends P world.
Proof. apply sends_same. reflexivity. Qed.

Lemma sends_lift P {A} (o : option A) : sends P (lift o).
Proof. destruct o; [apply sends_ret | apply sends_throw]. Qed.

Lemma sends_bind P {A B} (m : M A) (k : A -> M B) :
  sends P m -> (forall a, sends P (k a)) -> sends P (bind m k).
Proof.
  intros Hm Hk w. unfold bind. destruct (Hm w) as (n1 & E1 & F1).
  destruct (m w) as [[a|] w1]; cbn in *; [|eauto].
  destruct (Hk a w1) as (n2 & E2 & F2).
  exists (n2 ++ n1). rewrite E2, E1, app_assoc. split; [reflexivity|].
  apply Forall_app; auto.
Qed.

Lemma sends_modify P (f : World -> World) :
  (forall w, outbox (f w) = outbox w) -> sends P (modify f).
Proof. intros H. apply sends_same. exact H. Qed.

Lemma sends_sendToTLend (P : JsVal -> Prop) msg : P msg -> sends P (sendToTLend msg).
Proof.
  intros Hp w. unfold sendToTLend. destruct (iframe w); [|exists []; split; [reflexivity | constructor]].
  destruct (accepts_target w (targetOrigin (state w)));
    [|exists []; split; [reflexivity | constructor]].
  exists [(msg, targetOrigin (state w))]. split; [reflexivity | repeat constructor; exact Hp].
Qed.

Lemma sends_setTimeout P task delay : sends P (setTimeout task delay).
Proof. apply sends_same. reflexivity. Qed.

Lemma sends_clearTimeout P id : sends P (clearTimeout id).
Proof. apply sends_same. reflexivity. Qed.

Lemma sends_generateRequestId P prefix : sends P (generateRequestId prefix).
Proof. apply sends_same. reflexivity. Qed.

Lemma sends_random_string P : sends P random_string.
Proof. apply sends_same. reflexivity. Qed.

Lemma sends_logInfo P vs : sends P (logInfo vs).
Proof. unfold logInfo. apply sends_bind; [apply sends_lift | intros; apply sends_ret]. Qed.

Lemma sends_logAddress P a : sends P (logAddress a).
Proof. unfold logAddress. apply sends_bind; [apply sends_lift | intros; apply sends_logInfo]. Qed.

Lemma sends_sendUncloneable P : sends P sendUncloneable.
Proof. apply sends_same. intros w. unfold sendUncloneable. destruct (iframe w); reflexivity. Qed.

(** Every message built with a Partner -> TLend type is well formed. *)
Lemma outbound_message type requestId timestamp payload :
  existsb (String.eqb type) Guards.partnerTypes = true ->
  outbound (message type requestId timestamp payload).
Proof.
  intros H.
  assert (V : Guards.isValidMessageType type = true).
  { apply direction_type_valid. rewrite H. apply orb_true_r. }
  unfold outbound. split.
  - unfold Guards.isIframeMessage.
    destruct requestId; cbn -[Guards.isValidMessageType]; exact V.
  - unfold Guards.isPartnerToTLendMessage.
    destruct requestId; cbn -[existsb Guards.partnerTypes]; rewrite H; reflexivity.
Qed.

End SendsFacts.

Create HintDb sends.

(** One step of a [sends outbound] proof, along the handler. *)
Ltac sends_step :=
  match goal with
  | |- App.sends _ (App.bind _ _) => apply sends_bind; [|intros ?]
  | |- App.sends _ (App.ret _) => apply sends_ret
  | |- App.sends _ App.throw => apply sends_throw
  | |- App.sends _ (App.read _) => apply sends_read
  | |- App.sends _ App.world => apply sends_world
  | |- App.sends _ (App.lift _) => apply sends_lift
  | |- App.sends _ (App.sendToTLend _) =>
      apply sends_sendToTLend; apply outbound_message; reflexivity
  | |- App.sends _ (App.setTimeout _ _) => apply sends_setTimeout
  | |- App.sends _ (App.clearTimeout _) => apply sends_clearTimeout
  | |- App.sends _ (App.generateRequestId _) => apply sends_generateRequestId
  | |- App.sends _ App.random_string => apply sends_random_string
  | |- App.sends _ (App.logInfo _) => apply sends_logInfo
  | |- App.sends _ (App.logAddress _) => apply sends_logAddress
  | |- App.sends _ App.sendUncloneable => apply sends_sendUncloneable
  | |- App.sends _ (App.modify _) => apply sends_modify; intros ?; reflexivity
  | |- App.sends _ (App.when ?b _) => unfold App.when
  | |- App.sends _ (if ?c then _ else _) => destruct c
  | |- App.sends _ (match ?x with _ => _ end) => destruct x
  | |- App.sends _ _ => solve [auto with sends]
  end.

Ltac sends_tac := repeat sends_step.

Section HandlersSend.
Import App.

Lemma sends_sendStylesUpgrade : sends outbound sendStylesUpgrade.
Proof. unfold sendStylesUpgrade. sends_tac. Qed.

Lemma sends_sendSetLogo : sends outbound sendSetLogo.
Proof. unfold sendSetLogo. sends_tac. Qed.

Lemma sends_sendDisconnect r : sends outbound (sendDisconnect r).
Proof. unfold sendDisconnect. sends_tac. Qed.

Lemma sends_sendAuthCheckRequest : sends outbound sendAuthCheckRequest.
Proof. unfold sendAuthCheckRequest, pending_set. sends_tac. Qed.

Lemma sends_clear_pending r : sends outbound (clear_pending r).
Proof. unfold clear_pending, pending_delete. sends_tac. Qed.

Lemma sends_generateMockTonProof a : sends outbound (generateMockTonProof a).
Proof. unfold generateMockTonProof. sends_tac. Qed.

Lemma sends_updateTLendState s : sends outbound (updateTLendState s).
Proof. unfold updateTLendState. sends_tac. Qed.

Lemma sends_repay_cleanup : sends outbound repay_cleanup.
Proof. unfold repay_cleanup. sends_tac. Qed.

#[local] Hint Resolve sends_sendStylesUpgrade sends_sendSetLogo sends_sendDisconnect
  sends_sendAuthCheckRequest sends_clear_pending sends_generateMockTonProof
  sends_updateTLendState sends_repay_cleanup : sends.

Lemma sends_sendAuthCredentials : sends outbound sendAuthCredentials.
Proof. unfold sendAuthCredentials, pending_set. sends_tac. Qed.

Lemma sends_handleAuthCheckTimeout r : sends outbound (handleAuthCheckTimeout r).
Proof. unfold handleAuthCheckTimeout, pending_delete. sends_tac. Qed.

Lemma sends_handleAuthCredentialsTimeout r : sends outbound (handleAuthCredentialsTimeout r).
Proof. unfold handleAuthCredentialsTimeout, pending_delete. sends_tac. Qed.

Lemma sends_afterAuthCheckResponse p : sends outbound (afterAuthCheckResponse p).
Proof. unfold afterAuthCheckResponse. sends_tac. Qed.

Lemma sends_afterAuthResult p : sends outbound (afterAuthResult p).
Proof. unfold afterAuthResult. sends_tac. Qed.

#[local] Hint Resolve sends_afterAuthCheckResponse sends_afterAuthResult : sends.

Lemma sends_handleAuthCheckResponse m : sends outbound (handleAuthCheckResponse m).
Proof. unfold handleAuthCheckResponse. sends_tac. Qed.

Lemma sends_handleAuthResult m : sends outbound (handleAuthResult m).
Proof. unfold handleAuthResult. sends_tac. Qed.

Lemma sends_handleAuthRequest m : sends outbound (handleAuthRequest m).
Proof. unfold handleAuthRequest. sends_tac. Qed.

Lemma sends_handleRepayRequest m : sends outbound (handleRepayRequest m).
Proof. unfold handleRepayRequest. sends_tac. Qed.

Lemma sends_approve_catch r e : sends outbound (approve_catch r e).
Proof. unfold approve_catch. sends_tac. Qed.

#[local] Hint Resolve sends_approve_catch : sends.

Lemma sends_approve_signed r x : sends outbound (approve_signed r x).
Proof. unfold approve_signed. sends_tac. Qed.

#[local] Hint Resolve sends_approve_signed : sends.

Lemma sends_approveRepayRequest : sends outbound approveRepayRequest.
Proof. unfold approveRepayRequest. sends_tac. Qed.

Lemma sends_approve_resume r o : sends outbound (approve_resume r o).
Proof. unfold approve_resume. sends_tac. Qed.

Lemma sends_mockRepayResult r : sends outbound (mockRepayResult r).
Proof. unfold mockRepayResult. sends_tac. Qed.

Lemma sends_rejectRepayRequest r : sends outbound (rejectRepayRequest r).
Proof. unfold rejectRepayRequest. sends_tac. Qed.

Lemma sends_handleTLendLoaded m : sends outbound (handleTLendLoaded m).
Proof. unfold handleTLendLoaded. sends_tac. Qed.

Lemma sends_handleTLendReady m : sends outbound (handleTLendReady m).
Proof. unfold handleTLendReady. sends_tac. Qed.

Lemma sends_handleError m : sends outbound (handleError m).
Proof. unfold handleError. sends_tac. Qed.

Lemma sends_store_origin o : sends outbound (store_origin o).
Proof. unfold store_origin. sends_tac. Qed.

#[local] Hint Resolve sends_sendAuthCredentials sends_handleAuthCheckTimeout
  sends_handleAuthCredentialsTimeout sends_handleAuthCheckResponse sends_handleAuthResult
  sends_handleAuthRequest sends_handleRepayRequest sends_approveRepayRequest
  sends_approve_resume sends_mockRepayResult sends_rejectRepayRequest sends_handleTLendLoaded
  sends_handleTLendReady sends_handleError sends_store_origin : sends.

Lemma sends_handleMessage o d : sends outbound (handleMessage o d).
Proof. unfold handleMessage. sends_tac. Qed.

Lemma sends_loadIframe : sends outbound loadIframe.
Proof. unfold loadIframe. sends_tac. Qed.

Lemma sends_iframe_onload : sends outbound iframe_onload.
Proof. unfold iframe_onload. sends_tac. Qed.

Lemma sends_onloadReady : sends outbound onloadReady.
Proof. unfold onloadReady. sends_tac. Qed.

Lemma sends_reloadIframe : sends outbound reloadIframe.
Proof. unfold reloadIframe. sends_tac. Qed.

Lemma sends_forceSetReady : sends outbound forceSetReady.
Proof. unfold forceSetReady. sends_tac. Qed.

Lemma sends_onStatusChange wl : sends outbound (onStatusChange wl).
Proof. unfold onStatusChange. sends_tac. Qed.

#[local] Hint Resolve sends_handleMessage sends_loadIframe sends_iframe_onload
  sends_onloadReady sends_reloadIframe sends_forceSetReady sends_onStatusChange : sends.

Lemma sends_run_task t : sends outbound (run_task t).
Proof. destruct t; cbn [run_task]; auto with sends. Qed.

#[local] Hint Resolve sends_run_task : sends.

Lemma sends_fire id : sends outbound (fire id).
Proof. unfold fire. sends_tac. Qed.

Lemma sends_settle i o : sends outbound (settle i o).
Proof. unfold settle. sends_tac. Qed.

#[local] Hint Resolve sends_fire sends_settle : sends.

Lemma sends_handler a : sends outbound (handler a).
Proof. destruct a; cbn [handler]; sends_tac. Qed.

(** X10: over every run, nothing leaves the outbox, and every message the
    page posts passes the validator of the types package and has a
    Partner -> TLend type. *)
Theorem posted_messages_outbound (acts : list Action) (w : World) :
  exists new,
    outbox (run acts w) = new ++ outbox w
    /\ Forall (fun p => Guards.isIframeMessage (fst p) = true
                        /\ Guards.isPartnerToTLendMessage (fst p) = Some true) new.
Proof.
  revert w. induction acts as [|a acts IH]; intros w.
  - exists []. split; [reflexivity | constructor].
  - rewrite run_cons. destruct (IH (step a w)) as (n2 & E2 & F2).
    destruct (sends_handler a w) as (n1 & E1 & F1).
    exists (n2 ++ n1). split.
    + rewrite E2. unfold step, exec. rewrite E1, app_assoc. reflexivity.
    + apply Forall_app. split; [exact F2 | exact F1].
Qed.

End HandlersSend.

(** ** The allow-list, over whole runs *)

Section AllowListProperties.
Import App.

Lemma origin_listed_In o l : origin_listed o l = true <-> In o l.
Proof.
  unfold origin_listed. rewrite existsb_exists. split.
  - intros (x & Hx & E). apply String.eqb_eq in E. subst. exact Hx.
  - intros H. exists o. split; [exact H | apply String.eqb_refl].
Qed.

Lemma record_origin_list o w :
  TLEND_ORIGINS (record_origin o w) = TLEND_ORIGINS w
  \/ (~ In o (TLEND_ORIGINS w) /\ TLEND_ORIGINS (record_origin o w) = TLEND_ORIGINS w ++ [o]).
Proof.
  unfold record_origin. destruct (no_origin (state w)); [|left; reflexivity].
  destruct (origin_listed o (TLEND_ORIGINS w)) eqn:E; [left; reflexivity|].
  right. split; [|reflexivity]. intros Hin. apply origin_listed_In in Hin. congruence.
Qed.

Lemma record_origin_on_list o w : origin_on_list w -> origin_on_list (record_origin o w).
Proof.
  unfold record_origin, origin_on_list. destruct (no_origin (state w)); [|auto].
  intros _. destruct (origin_listed o (TLEND_ORIGINS w)) eqn:E; cbn.
  - apply origin_listed_In, E.
  - apply in_or_app. right. left. reflexivity.
Qed.

Lemma step_load_list w : TLEND_ORIGINS (step AClickLoadIframe w) = TLEND_ORIGINS w.
Proof.
  unfold step, exec, handler, loadIframe, bind, read.
  destruct (el_tlendUrl (elements w)) as [url|]; [|reflexivity].
  destruct (url =? "")%string; [reflexivity|].
  destruct (el_iframeContainer (elements w)); reflexivity.
Qed.

(** What one step does to the allow-list. *)
Lemma step_list a w :
  TLEND_ORIGINS (step a w) = TLEND_ORIGINS w
  \/ exists o d, a = AMessage o d /\ ~ In o (TLEND_ORIGINS w)
                 /\ TLEND_ORIGINS (step a w) = TLEND_ORIGINS w ++ [o].
Proof.
  destruct (is_message a) eqn:Hm.
  - destruct a; try discriminate.
    destruct (step_frame_message origin data w) as (_ & Hl & _). rewrite Hl.
    destruct (record_origin_list origin w) as [E | [Hn E]]; [left; exact E|].
    right. exists origin, data. auto.
  - left. destruct (is_load a) eqn:Hl.
    + destruct a; try discriminate. apply step_load_list.
    + apply (step_frame_other a w Hl Hm).
Qed.

(** X11: the allow-list only grows, by senders of received messages that
    were not on it, so it keeps its entries and stays free of duplicates. *)
Theorem allow_list_append_only (acts : list Action) (w : World) :
  exists added,
    TLEND_ORIGINS (run acts w) = TLEND_ORIGINS w ++ added
    /\ incl added (senders acts)
    /\ (NoDup (TLEND_ORIGINS w) -> NoDup (TLEND_ORIGINS (run acts w))).
Proof.
  revert w. induction acts as [|a acts IH]; intros w.
  - exists []. cbn. rewrite app_nil_r. split; [reflexivity|]. split; [apply incl_refl | auto].
  - rewrite run_cons. destruct (IH (step a w)) as (added & E & Hin & Hnd).
    destruct (step_list a w) as [Hs | (o & d & -> & Hn & Hs)].
    + exists added. rewrite E, Hs. split; [reflexivity|]. split.
      * intros x Hx. apply Hin in Hx. destruct a; cbn [senders]; auto using in_cons.
      * intros H. rewrite <- Hs, <- E. apply Hnd. rewrite Hs. exact H.
    + exists (o :: added). rewrite E, Hs, <- app_assoc. split; [reflexivity|]. split.
      * cbn [senders]. intros x [<- | Hx]; [left; reflexivity | right; auto].
      * intros H. rewrite app_assoc, <- Hs, <- E. apply Hnd. rewrite Hs.
        apply NoDup_app. split; [exact H|]. split.
        -- intros x Hx Ho. apply list_elem_of_singleton in Ho. subst x.
           apply Hn, list_elem_of_In, Hx.
        -- apply NoDup_singleton.
Qed.

Lemma step_on_list a w : origin_on_list w -> origin_on_list (step a w).
Proof.
  intros H. destruct (is_message a) eqn:Hm.
  - destruct a; try discriminate.
    destruct (step_frame_message origin data w) as (Ho & Hl & _).
    apply (record_origin_on_list origin) in H.
    unfold origin_on_list in *. rewrite Ho, Hl. exact H.
  - destruct (is_load a) eqn:Hl.
    + destruct a; try discriminate. unfold origin_on_list.
      rewrite step_load_list. destruct (step_load w) as [_ [-> | ->]]; [exact I | exact H].
    + destruct (step_frame_other a w Hl Hm) as (Ho & Hli & _).
      unfold origin_on_list in *. rewrite Ho, Hli. exact H.
Qed.

(** X12: whenever an origin is stored it is on the allow-list: the first
    sender after a load is put there, whoever it is. *)
Theorem stored_origin_on_list (acts : list Action) (w : World) :
  origin_on_list w -> origin_on_list (run acts w).
Proof.
  revert w. induction acts as [|a acts IH]; intros w H; [exact H|].
  rewrite run_cons. apply IH, step_on_list, H.
Qed.

Lemma stored_origin_on_list_witness :
  origin_on_list (run [AClickLoadIframe; AMessage Scenario.stranger Scenario.msg_ready]
                      Scenario.start).
Proof.
  apply (stored_origin_on_list
           [AClickLoadIframe; AMessage Scenario.stranger Scenario.msg_ready] Scenario.start).
  exact I.
Defined.

End AllowListProperties.

(** ** Pending requests and their timers, over whole runs *)

Section TimerFacts.
Import App.

(** Nothing but forgetting pending requests. *)
Lemma timed_shrink x w w' :
  timed_except x w ->
  timers w' = timers w -> nextTimer w' = nextTimer w ->
  (forall k p, pendingRequests (state w') !! k = Some p ->
               pendingRequests (state w) !! k = Some p /\ Some k <> x) ->
  pending_timed w'.
Proof.
  intros (Hf & Hn & Hp) Et En Hsub. unfold pending_timed, timed_except, has_timeout.
  rewrite Et, En. split; [exact Hf | split; [exact Hn|]].
  intros k p Hk _. destruct (Hsub k p Hk) as [Hk' Hx]. exact (Hp k p Hk' Hx).
Qed.

Lemma timed_same {A} (m : M A) :
  (forall w, timers (snd (m w)) = timers w /\ nextTimer (snd (m w)) = nextTimer w
             /\ forall k p, pendingRequests (state (snd (m w))) !! k = Some p ->
                            pendingRequests (state w) !! k = Some p) ->
  keeps_timed m.
Proof.
  intros H w Hw. destruct (H w) as (Et & En & Hs).
  apply (timed_shrink None w); [exact Hw | exact Et | exact En |].
  intros k p Hk. split; [auto | discriminate].
Qed.

Lemma timed_ret {A} (a : A) : keeps_timed (ret a).
Proof. intros w H. exact H. Qed.

Lemma timed_throw {A} : keeps_timed (@throw A).
Proof. intros w H. exact H. Qed.

Lemma timed_read {A} (f : World -> A) : keeps_timed (read f).
Proof. intros w H. exact H. Qed.

Lemma timed_world : keeps_timed world.
Proof. intros w H. exact H. Qed.

Lemma timed_lift {A} (o : option A) : keeps_timed (lift o).
Proof. destruct o; [apply timed_ret | apply timed_throw]. Qed.

Lemma timed_bind {A B} (m : M A) (k : A -> M B) :
  keeps_timed m -> (forall a, keeps_timed (k a)) -> keeps_timed (bind m k).
Proof.
  intros Hm Hk w Hw. unfold bind. specialize (Hm w Hw).
  destruct (m w) as [[a|] w1]; cbn in *; [|exact Hm]. apply Hk, Hm.
Qed.

Lemma timed_modify (f : World -> World) :
  (forall w, timers (f w) = timers w /\ nextTimer (f w) = nextTimer w
             /\ forall k p, pendingRequests (state (f w)) !! k = Some p ->
                            pendingRequests (state w) !! k = Some p) ->
  keeps_timed (modify f).
Proof. intros H. apply timed_same. exact H. Qed.

Lemma timed_sendToTLend msg : keeps_timed (sendToTLend msg).
Proof.
  apply timed_same. intros w. unfold sendToTLend. destruct (iframe w); [|auto].
  destruct (accepts_target w (targetOrigin (state w))); auto.
Qed.

Lemma timed_generateRequestId prefix : keeps_timed (generateRequestId prefix).
Proof. apply timed_same. intros w. auto. Qed.

Lemma timed_random_string : keeps_timed random_string.
Proof. apply timed_same. intros w. auto. Qed.

Lemma timed_logInfo vs : keeps_timed (logInfo vs).
Proof. unfold logInfo. apply timed_bind; [apply timed_lift | intros; apply timed_ret]. Qed.

Lemma timed_logAddress a : keeps_timed (logAddress a).
Proof. unfold logAddress. apply timed_bind; [apply timed_lift | intros; apply timed_logInfo]. Qed.

Lemma timed_sendUncloneable : keeps_timed sendUncloneable.
Proof.
  apply timed_same. intros w. unfold sendUncloneable. destruct (iframe w); auto.
Qed.

Lemma timed_pending_delete k : keeps_timed (pending_delete k).
Proof.
  apply timed_modify. intros w. repeat split. intros k' p H. cbn in H.
  apply lookup_delete_Some in H. tauto.
Qed.

Lemma fresh_snoc w task delay :
  Forall (fun t => (t_id t < nextTimer w)%nat) (timers w) ->
  NoDup (map t_id (timers w)) ->
  Forall (fun t => (t_id t < S (nextTimer w))%nat) (timers w ++ [mkTimer (nextTimer w) delay task])
  /\ NoDup (map t_id (timers w ++ [mkTimer (nextTimer w) delay task])).
Proof.
  intros Hf Hn. split.
  - apply Forall_app. split.
    + eapply Forall_impl; [exact Hf|]. cbn. intros t Ht. lia.
    + constructor; [cbn; lia | constructor].
  - rewrite map_app. apply NoDup_app. split; [exact Hn|]. split; [|apply NoDup_singleton].
    intros x Hx Hy. apply list_elem_of_singleton in Hy. cbn in Hy. subst x.
    apply list_elem_of_In, in_map_iff in Hx as (t & Et & Ht).
    rewrite Forall_forall in Hf. apply list_elem_of_In, Hf in Ht. lia.
Qed.

Lemma timed_setTimeout task delay : keeps_timed (setTimeout task delay).
Proof.
  intros w (Hf & Hn & Hp). unfold pending_timed, timed_except, setTimeout. cbn.
  destruct (fresh_snoc w task delay Hf Hn) as [Hf' Hn'].
  split; [exact Hf' | split; [exact Hn'|]].
  intros k p Hk Hx. destruct (Hp k p Hk Hx) as (t & Ht & Hid & Hto).
  exists t. split; [apply in_or_app; left; exact Ht | auto].
Qed.

(** A handle names one timer. *)
Lemma timer_unique (ts : list Timer) a b :
  NoDup (map t_id ts) -> In a ts -> In b ts -> t_id a = t_id b -> a = b.
Proof.
  induction ts as [|t ts IH]; cbn; intros Hn Ha Hb E; [contradiction|].
  apply NoDup_cons in Hn as [Hnot Hn].
  destruct Ha as [<- | Ha], Hb as [<- | Hb]; [reflexivity | | | auto].
  - exfalso. apply Hnot. rewrite E. apply list_elem_of_In, in_map, Hb.
  - exfalso. apply Hnot. rewrite <- E. apply list_elem_of_In, in_map, Ha.
Qed.

Lemma NoDup_without id (ts : list Timer) :
  NoDup (map t_id ts) -> NoDup (map t_id (without_timer id ts)).
Proof.
  unfold without_timer. induction ts as [|t ts IH]; intros Hn; [constructor|].
  cbn [map] in Hn. apply NoDup_cons in Hn as [Hnot Hn]. cbn [List.filter].
  destruct (negb (t_id t =? id)%nat); [|auto].
  cbn [map]. apply NoDup_cons. split; [|auto].
  intros Hin. apply Hnot. apply list_elem_of_In, in_map_iff in Hin as (u & Eu & Hu).
  apply filter_In in Hu as [Hu _]. apply list_elem_of_In, in_map_iff. eauto.
Qed.

Lemma fresh_without id w :
  Forall (fun t => (t_id t < nextTimer w)%nat) (timers w) ->
  NoDup (map t_id (timers w)) ->
  Forall (fun t => (t_id t < nextTimer w)%nat) (without_timer id (timers w))
  /\ NoDup (map t_id (without_timer id (timers w))).
Proof.
  intros Hf Hn. split; [|apply NoDup_without, Hn]. unfold without_timer.
  rewrite List.Forall_forall in *. intros t Ht. apply filter_In in Ht as [Ht _]. auto.
Qed.

(** Cancelling the timer of handle [id]: the requests whose timeout it
    was not keep theirs. *)
Lemma timed_cancel w t :
  pending_timed w -> In t (timers w) ->
  timed_except (timeout_of (t_task t))
    (with_timers (without_timer (t_id t) (timers w)) (nextTimer w) w).
Proof.
  intros (Hf & Hn & Hp) Ht. unfold timed_except. cbn.
  destruct (fresh_without (t_id t) w Hf Hn) as [Hf' Hn'].
  split; [exact Hf' | split; [exact Hn'|]].
  intros k p Hk Hx. destruct (Hp k p Hk) as (u & Hu & Hid & Hto); [discriminate|].
  exists u. split; [|auto]. apply filter_In. split; [exact Hu|].
  apply negb_true_iff, Nat.eqb_neq. intros E.
  apply Hx. rewrite <- Hto. f_equal. f_equal. symmetry.
  apply (timer_unique (timers w)); auto.
Qed.

End TimerFacts.

Section TimerBlocks.
Import App.

(** The block that resolves a pending request cancels the request's own
    timer and no other request's. *)
Lemma timed_resolved requestId w : pending_timed w -> pending_timed (resolved requestId w).
Proof.
  intros Hw. unfold resolved, pending_get.
  destruct requestId as [| | | | |k| |]; try exact Hw.
  destruct (pendingRequests (state w) !! k) as [p|] eqn:Hk; [|exact Hw]. cbn [option_map].
  destruct Hw as (Hf & Hn & Hp).
  destruct (Hp k p Hk) as (t & Ht & Hid & Hto); [discriminate|].
  pose proof (timed_cancel w t (conj Hf (conj Hn Hp)) Ht) as Hc.
  rewrite Hid, Hto in Hc.
  eapply timed_shrink; [exact Hc | reflexivity | reflexivity |].
  intros k' p' H. cbn in H. apply lookup_delete_Some in H as [Hne H].
  split; [exact H | congruence].
Qed.

Lemma timed_clear_pending requestId : keeps_timed (clear_pending requestId).
Proof. intros w Hw. rewrite clear_pending_spec. apply timed_resolved, Hw. Qed.

(** Registering a request: the timer is set first, its handle goes into
    the entry. *)
Lemma timed_register {A} task delay k kind ts (rest : M A) :
  timeout_of task = Some k ->
  keeps_timed rest ->
  keeps_timed (bind (setTimeout task delay)
                 (fun tid => bind (pending_set k (mkPending kind ts tid)) (fun _ => rest))).
Proof.
  intros Hto Hrest w (Hf & Hn & Hp). unfold bind, setTimeout, pending_set, modify.
  apply Hrest. destruct (fresh_snoc w task delay Hf Hn) as [Hf' Hn'].
  split; [exact Hf' | split; [exact Hn'|]]. cbn.
  intros k' p' H _. destruct (decide (k = k')) as [<- | Hne].
  - rewrite lookup_insert_eq in H. injection H as <-.
    exists (mkTimer (nextTimer w) delay task). split; [|split; [reflexivity | exact Hto]].
    apply in_or_app. right. left. reflexivity.
  - rewrite lookup_insert_ne in H by exact Hne.
    destruct (Hp k' p' H) as (t & Ht & Hid & Hk); [discriminate|].
    exists t. split; [apply in_or_app; left; exact Ht | auto].
Qed.

(** The timeout callbacks, run once their timer has left the table. *)
Lemma timed_handleAuthCheckTimeout k w :
  timed_except (Some k) w -> pending_timed (snd (handleAuthCheckTimeout k w)).
Proof.
  intros Hw. unfold handleAuthCheckTimeout, bind, world, pending_get.
  destruct (pendingRequests (state w) !! k) as [p|] eqn:Hk; cbn.
  - eapply timed_shrink; [exact Hw | reflexivity | reflexivity |].
    intros k' p' H. cbn in H. apply lookup_delete_Some in H as [Hne H].
    split; [exact H | congruence].
  - eapply timed_shrink; [exact Hw | reflexivity | reflexivity |].
    intros k' p' H. split; [exact H | congruence].
Qed.

Lemma timed_handleAuthCredentialsTimeout k w :
  timed_except (Some k) w -> pending_timed (snd (handleAuthCredentialsTimeout k w)).
Proof.
  intros Hw. unfold handleAuthCredentialsTimeout, bind, world, pending_get.
  destruct (pendingRequests (state w) !! k) as [p|] eqn:Hk; cbn.
  - eapply timed_shrink; [exact Hw | | |].
    + destruct (input_is (el_autoReadyMode (elements w)) "immediate"); reflexivity.
    + destruct (input_is (el_autoReadyMode (elements w)) "immediate"); reflexivity.
    + intros k' p' H.
      assert (H' : delete k (pendingRequests (state w)) !! k' = Some p').
      { destruct (input_is (el_autoReadyMode (elements w)) "immediate"); exact H. }
      apply lookup_delete_Some in H' as [Hne H']. split; [exact H' | congruence].
  - eapply timed_shrink; [exact Hw | reflexivity | reflexivity |].
    intros k' p' H. split; [exact H | congruence].
Qed.

End TimerBlocks.

Create HintDb timed.

(** One step of a [keeps_timed] proof, along the handler. *)
Ltac timed_step :=
  match goal with
  | |- App.keeps_timed (App.bind (App.setTimeout _ _) _) =>
      first [ apply timed_register; [reflexivity|]
            | apply timed_bind; [apply timed_setTimeout | intros ?] ]
  | |- App.keeps_timed (App.bind _ _) => apply timed_bind; [|intros ?]
  | |- App.keeps_timed (App.ret _) => apply timed_ret
  | |- App.keeps_timed App.throw => apply timed_throw
  | |- App.keeps_timed (App.read _) => apply timed_read
  | |- App.keeps_timed App.world => apply timed_world
  | |- App.keeps_timed (App.lift _) => apply timed_lift
  | |- App.keeps_timed (App.sendToTLend _) => apply timed_sendToTLend
  | |- App.keeps_timed (App.setTimeout _ _) => apply timed_setTimeout
  | |- App.keeps_timed (App.clear_pending _) => apply timed_clear_pending
  | |- App.keeps_timed (App.pending_delete _) => apply timed_pending_delete
  | |- App.keeps_timed (App.generateRequestId _) => apply timed_generateRequestId
  | |- App.keeps_timed App.random_string => apply timed_random_string
  | |- App.keeps_timed (App.logInfo _) => apply timed_logInfo
  | |- App.keeps_timed (App.logAddress _) => apply timed_logAddress
  | |- App.keeps_timed App.sendUncloneable => apply timed_sendUncloneable
  | |- App.keeps_timed (App.modify _) =>
      apply timed_modify; intros ?; split; [reflexivity | split; [reflexivity|]];
      intros ? ? Hlk; first [exact Hlk | cbn in Hlk; rewrite lookup_empty in Hlk; discriminate]
  | |- App.keeps_timed (App.when ?b _) => unfold App.when
  | |- App.keeps_timed (if ?c then _ else _) => destruct c
  | |- App.keeps_timed (match ?x with _ => _ end) => destruct x
  | |- App.keeps_timed _ => solve [auto with timed]
  end.

Ltac timed_tac := repeat timed_step.

Section HandlersTimed.
Import App.

Lemma timed_updateTLendState s : keeps_timed (updateTLendState s).
Proof. unfold updateTLendState. timed_tac. Qed.

Lemma timed_repay_cleanup : keeps_timed repay_cleanup.
Proof. unfold repay_cleanup. timed_tac. Qed.

Lemma timed_sendStylesUpgrade : keeps_timed sendStylesUpgrade.
Proof. unfold sendStylesUpgrade. timed_tac. Qed.

Lemma timed_sendSetLogo : keeps_timed sendSetLogo.
Proof. unfold sendSetLogo. timed_tac. Qed.

Lemma timed_sendDisconnect r : keeps_timed (sendDisconnect r).
Proof. unfold sendDisconnect. timed_tac. Qed.

Lemma timed_generateMockTonProof a : keeps_timed (generateMockTonProof a).
Proof. unfold generateMockTonProof. timed_tac. Qed.

#[local] Hint Resolve timed_updateTLendState timed_repay_cleanup timed_sendStylesUpgrade
  timed_sendSetLogo timed_sendDisconnect timed_generateMockTonProof : timed.

Lemma timed_sendAuthCheckRequest : keeps_timed sendAuthCheckRequest.
Proof. unfold sendAuthCheckRequest. timed_tac. Qed.

Lemma timed_sendAuthCredentials : keeps_timed sendAuthCredentials.
Proof. unfold sendAuthCredentials. timed_tac. Qed.

Lemma timed_afterAuthCheckResponse p : keeps_timed (afterAuthCheckResponse p).
Proof. unfold afterAuthCheckResponse. timed_tac. Qed.

Lemma timed_afterAuthResult p : keeps_timed (afterAuthResult p).
Proof. unfold afterAuthResult. timed_tac. Qed.

#[local] Hint Resolve timed_afterAuthCheckResponse timed_afterAuthResult : timed.

Lemma timed_handleAuthCheckResponse m : keeps_timed (handleAuthCheckResponse m).
Proof. unfold handleAuthCheckResponse. timed_tac. Qed.

Lemma timed_handleAuthResult m : keeps_timed (handleAuthResult m).
Proof. unfold handleAuthResult. timed_tac. Qed.

Lemma timed_handleAuthRequest m : keeps_timed (handleAuthRequest m).
Proof. unfold handleAuthRequest. timed_tac. Qed.

Lemma timed_handleRepayRequest m : keeps_timed (handleRepayRequest m).
Proof. unfold handleRepayRequest. timed_tac. Qed.

Lemma timed_approve_catch r e : keeps_timed (approve_catch r e).
Proof. unfold approve_catch. timed_tac. Qed.

#[local] Hint Resolve timed_approve_catch : timed.

Lemma timed_approve_signed r x : keeps_timed (approve_signed r x).
Proof. unfold approve_signed. timed_tac. Qed.

#[local] Hint Resolve timed_approve_signed : timed.

Lemma timed_approveRepayRequest : keeps_timed approveRepayRequest.
Proof. unfold approveRepayRequest. timed_tac. Qed.

Lemma timed_approve_resume r o : keeps_timed (approve_resume r o).
Proof. unfold approve_resume. timed_tac. Qed.

Lemma timed_mockRepayResult r : keeps_timed (mockRepayResult r).
Proof. unfold mockRepayResult. timed_tac. Qed.

Lemma timed_rejectRepayRequest r : keeps_timed (rejectRepayRequest r).
Proof. unfold rejectRepayRequest. timed_tac. Qed.

Lemma timed_handleTLendLoaded m : keeps_timed (handleTLendLoaded m).
Proof. unfold handleTLendLoaded. timed_tac. Qed.

Lemma timed_handleTLendReady m : keeps_timed (handleTLendReady m).
Proof. unfold handleTLendReady. timed_tac. Qed.

Lemma timed_handleError m : keeps_timed (handleError m).
Proof. unfold handleError. timed_tac. Qed.

Lemma timed_store_origin o : keeps_timed (store_origin o).
Proof. unfold store_origin. timed_tac. Qed.

#[local] Hint Resolve timed_sendAuthCheckRequest timed_sendAuthCredentials
  timed_handleAuthCheckResponse timed_handleAuthResult timed_handleAuthRequest
  timed_handleRepayRequest timed_approveRepayRequest timed_approve_resume
  timed_mockRepayResult timed_rejectRepayRequest timed_handleTLendLoaded
  timed_handleTLendReady timed_handleError timed_store_origin : timed.

Lemma timed_handleMessage o d : keeps_timed (handleMessage o d).
Proof. unfold handleMessage. timed_tac. Qed.

Lemma timed_loadIframe : keeps_timed loadIframe.
Proof. unfold loadIframe. timed_tac. Qed.

Lemma timed_iframe_onload : keeps_timed iframe_onload.
Proof. unfold iframe_onload. timed_tac. Qed.

Lemma timed_onloadReady : keeps_timed onloadReady.
Proof. unfold onloadReady. timed_tac. Qed.

Lemma timed_reloadIframe : keeps_timed reloadIframe.
Proof. unfold reloadIframe. timed_tac. Qed.

Lemma timed_forceSetReady : keeps_timed forceSetReady.
Proof. unfold forceSetReady. timed_tac. Qed.

Lemma timed_onStatusChange wl : keeps_timed (onStatusChange wl).
Proof. unfold onStatusChange. timed_tac. Qed.

Lemma timed_settle i o : keeps_timed (settle i o).
Proof. unfold settle. timed_tac. Qed.

#[local] Hint Resolve timed_handleMessage timed_loadIframe timed_iframe_onload
  timed_onloadReady timed_reloadIframe timed_forceSetReady timed_onStatusChange
  timed_settle : timed.

(** A timer expires: it leaves the table, and if it was a timeout its
    callback removes the request it belonged to. *)
Lemma timed_fire id : keeps_timed (fire id).
Proof.
  intros w Hw. unfold fire, bind, world, find_timer.
  destruct (List.find (fun t => (t_id t =? id)%nat) (timers w)) as [t|] eqn:Hf; [|exact Hw].
  apply find_some in Hf as [Ht Hid]. apply Nat.eqb_eq in Hid. subst id.
  pose proof (timed_cancel w t Hw Ht) as Hc. cbn.
  destruct (t_task t); cbn [timeout_of run_task] in *;
    try (revert Hc; match goal with |- _ -> pending_timed (snd (?m _)) =>
                      assert (K : keeps_timed m) by auto with timed; apply K end).
  - apply timed_handleAuthCheckTimeout, Hc.
  - apply timed_handleAuthCredentialsTimeout, Hc.
Qed.

#[local] Hint Resolve timed_fire : timed.

Lemma timed_handler a : keeps_timed (handler a).
Proof. destruct a; cbn [handler]; timed_tac. Qed.

(** X13: timer handles are never reused, and every pending request has
    its timeout timer in the table with the request's id: no request can
    stay pending once its timer has run, and resolving one request never
    cancels another's timeout. *)
Theorem pending_requests_timed (acts : list Action) (w : World) :
  pending_timed w -> pending_timed (run acts w).
Proof.
  revert w. induction acts as [|a acts IH]; intros w H; [exact H|].
  rewrite run_cons. apply IH. apply (timed_handler a w H).
Qed.

Lemma pending_requests_timed_witness :
  pending_timed (run [AClickLoadIframe; AMessage Scenario.tlend Scenario.msg_ready;
                      AWalletStatus (Some Scenario.wallet); AClickSendAuthCreds; AFire 0%nat]
                   Scenario.start).
Proof.
  apply (pending_requests_timed
           [AClickLoadIframe; AMessage Scenario.tlend Scenario.msg_ready;
            AWalletStatus (Some Scenario.wallet); AClickSendAuthCreds; AFire 0%nat]
           Scenario.start).
  split; [constructor | split; [constructor | intros k p H; discriminate]].
Defined.

End HandlersTimed.

(** ** Inbound messages: what each one does *)

Section InboundProperties.
Import App.

Lemma is_str_eq v lit : is_str v lit = true -> v = JStr lit.
Proof.
  destruct v; cbn; try discriminate. intros H. apply String.eqb_eq in H. congruence.
Qed.

Lemma record_origin_lifecycle o w :
  tlendState (state (record_origin o w)) = tlendState (state w)
  /\ elements (record_origin o w) = elements w.
Proof.
  unfold record_origin. destruct (no_origin (state w)); [|auto].
  destruct (origin_listed o (TLEND_ORIGINS w)); auto.
Qed.

Lemma resolved_lifecycle r w :
  tlendState (state (resolved r w)) = tlendState (state w).
Proof. unfold resolved. destruct (pending_get r w) as [[k p]|]; reflexivity. Qed.

Lemma lifecycle_handleTLendLoaded msg w :
  tlendState (state (snd (handleTLendLoaded msg w))) = Some LOADING.
Proof.
  unfold handleTLendLoaded, updateTLendState, bind, modify, read. cbn zeta.
  rewrite logInfo_spec. destruct (to_strings _); cbn; [|reflexivity].
  destruct (or_else (optget (get msg "payload") "capabilities") (JArr [])); cbn;
    try reflexivity.
  destruct (join ", " items); cbn; [|reflexivity].
  destruct (input_is (el_skipAuth (elements w)) "yes"); [|reflexivity].
  destruct (input_is (el_autoReadyMode (elements w)) "immediate"); reflexivity.
Qed.

Lemma lifecycle_handleAuthCheckResponse msg w :
  tlendState (state (snd (handleAuthCheckResponse msg w))) = tlendState (state w)
  \/ tlendState (state (snd (handleAuthCheckResponse msg w))) = Some PENDING_AUTH.
Proof.
  unfold handleAuthCheckResponse, bind. rewrite clear_pending_spec.
  rewrite <- (resolved_lifecycle (get msg "requestId") w).
  generalize (resolved (get msg "requestId") w). intros w1. cbn zeta.
  unfold afterAuthCheckResponse, bind.
  unfold lift. destruct (prop (get msg "payload") "authenticated") as [a|]; cbn; [|auto].
  destruct (negb (truthy a) || negb (truthy (get (get msg "payload") "matchesRequested"))); cbn.
  - destruct (walletConnected (state w1)); cbn; auto.
  - rewrite logAddress_spec. auto.
Qed.

Lemma lifecycle_handleAuthResult msg w :
  tlendState (state (snd (handleAuthResult msg w))) = tlendState (state w)
  \/ tlendState (state (snd (handleAuthResult msg w)))
     = Some (if input_is (el_autoReadyMode (elements w)) "immediate" then READY else ERROR).
Proof.
  unfold handleAuthResult, bind. rewrite clear_pending_spec.
  rewrite <- (resolved_lifecycle (get msg "requestId") w).
  rewrite <- (elements_resolved (get msg "requestId") w).
  generalize (resolved (get msg "requestId") w). intros w1. cbn zeta.
  unfold afterAuthResult, bind.
  unfold lift. destruct (prop (get msg "payload") "success") as [s|]; cbn; [|auto].
  destruct (truthy s).
  - rewrite logAddress_spec. destruct (address_text _); cbn; auto.
  - rewrite logInfo_spec. destruct (to_strings _); cbn; [|auto].
    unfold read. destruct (input_is (el_autoReadyMode (elements w1)) "immediate"); cbn; auto.
Qed.

Lemma lifecycle_handleTLendReady msg w :
  tlendState (state (snd (handleTLendReady msg w))) = tlendState (state w)
  \/ tlendState (state (snd (handleTLendReady msg w))) = Some READY.
Proof.
  unfold handleTLendReady, bind, modify, read. cbn zeta.
  rewrite logAddress_spec. destruct (address_text _); cbn; [|auto].
  destruct (negb (input_is (el_skipAuth (elements w)) "yes") && walletConnected (state w));
    cbn; [auto|].
  destruct (input_is (el_skipAuth (elements w)) "yes"); cbn; auto.
Qed.

Lemma lifecycle_sendDisconnect reason w :
  tlendState (state (snd (sendDisconnect reason w))) = tlendState (state w).
Proof.
  unfold sendDisconnect, bind, read. cbn zeta.
  assert (H : forall m, tlendState (state (snd (sendToTLend m w))) = tlendState (state w)
                        /\ (fst (sendToTLend m w) = None \/ exists b, fst (sendToTLend m w) = Some b)).
  { intros m. unfold sendToTLend, bind, read.
    destruct (iframe w); [|split; [reflexivity | right; eexists; reflexivity]].
    destruct (accepts_target w (targetOrigin (state w)));
      (split; [reflexivity|]); [right; eexists; reflexivity | left; reflexivity]. }
  match goal with |- context [sendToTLend ?m w] => destruct (H m) as [H1 H2]; revert H1 H2 end.
  match goal with |- context [sendToTLend ?m w] => destruct (sendToTLend m w) as [o w1] end.
  cbn [fst snd]. intros H1 H2. destruct o; [|exact H1].
  rewrite logInfo_spec. exact H1.
Qed.

Lemma lifecycle_handleAuthRequest msg w :
  tlendState (state (snd (handleAuthRequest msg w))) = tlendState (state w)
  \/ tlendState (state (snd (handleAuthRequest msg w))) = Some PENDING_AUTH.
Proof.
  remember (handleAuthRequest msg w) as r eqn:Hr.
  unfold handleAuthRequest in Hr. cbn zeta in Hr. unfold bind at 1 in Hr.
  rewrite logInfo_spec in Hr.
  destruct (to_strings _); cbn [option_map] in Hr; [|subst r; auto].
  unfold bind at 1 in Hr.
  assert (L : forall a, exists o,
                (if truthy a then logAddress a else ret tt) w = (o, w)).
  { intros a. destruct (truthy a); [|eexists; reflexivity].
    rewrite logAddress_spec. eexists; reflexivity. }
  destruct (L (optget (get msg "payload") "currentAddress")) as [o Ho].
  rewrite Ho in Hr. destruct o; [|subst r; auto].
  unfold bind at 1, read in Hr.
  destruct (walletConnected (state w) && truthy (walletAddress (state w))); subst r.
  - right. reflexivity.
  - left. apply lifecycle_sendDisconnect.
Qed.

Lemma lifecycle_handleError msg w :
  tlendState (state (snd (handleError msg w))) = tlendState (state w)
  \/ tlendState (state (snd (handleError msg w))) = Some ERROR.
Proof.
  unfold handleError, bind, lift. cbn zeta.
  destruct (prop (get msg "payload") "code"); cbn; [|auto].
  rewrite logInfo_spec. destruct (to_strings _); cbn; [|auto].
  destruct (negb (truthy (get (get msg "payload") "recoverable"))); cbn; auto.
Qed.

Lemma lifecycle_handleRepayRequest msg w :
  tlendState (state (snd (handleRepayRequest msg w))) = tlendState (state w).
Proof.
  unfold handleRepayRequest, bind, read, modify, world. cbn.
  destruct (renders w (get msg "payload")); reflexivity.
Qed.

(** X14: the lifecycle transitions an inbound message can cause.  Whatever
    is received, the lifecycle state stays as it is or moves as follows:
    TLEND_LOADED to LOADING; AUTH_CHECK_RESPONSE and AUTH_REQUEST to
    PENDING_AUTH; TLEND_READY to READY; AUTH_RESULT to READY in immediate
    mode and to ERROR otherwise; ERROR to ERROR.  REPAY_REQUEST and every
    other data leave it alone. *)
Theorem inbound_lifecycle (origin : string) (msg : JsVal) (w : World) :
  let after := tlendState (state (step (AMessage origin msg) w)) in
  after = tlendState (state w)
  \/ (get msg "type" = JStr "TLEND_LOADED" /\ after = Some LOADING)
  \/ (get msg "type" = JStr "AUTH_CHECK_RESPONSE" /\ after = Some PENDING_AUTH)
  \/ (get msg "type" = JStr "AUTH_REQUEST" /\ after = Some PENDING_AUTH)
  \/ (get msg "type" = JStr "TLEND_READY" /\ after = Some READY)
  \/ (get msg "type" = JStr "AUTH_RESULT"
      /\ after = Some (if input_is (el_autoReadyMode (elements w)) "immediate"
                       then READY else ERROR))
  \/ (get msg "type" = JStr "ERROR" /\ after = Some ERROR).
Proof.
  cbn zeta. unfold step, exec, handler, handleMessage, bind. rewrite store_origin_spec.
  destruct (record_origin_lifecycle origin w) as [Hl He]. rewrite <- Hl, <- He.
  generalize (record_origin origin w). intros w1.
  destruct (negb (truthy msg) || negb (JsType_eqb (typeof msg) TObject)
            || negb (truthy (get msg "type"))); [left; reflexivity|].
  cbn zeta.
  destruct (is_str (get msg "type") "TLEND_LOADED") eqn:T1.
  { right. left. split; [apply is_str_eq, T1 | apply lifecycle_handleTLendLoaded]. }
  destruct (is_str (get msg "type") "AUTH_CHECK_RESPONSE") eqn:T2.
  { destruct (lifecycle_handleAuthCheckResponse msg w1) as [H|H]; [left; exact H|].
    right. right. left. split; [apply is_str_eq, T2 | exact H]. }
  destruct (is_str (get msg "type") "AUTH_RESULT") eqn:T3.
  { destruct (lifecycle_handleAuthResult msg w1) as [H|H]; [left; exact H|].
    do 5 right. left. split; [apply is_str_eq, T3 | exact H]. }
  destruct (is_str (get msg "type") "TLEND_READY") eqn:T4.
  { destruct (lifecycle_handleTLendReady msg w1) as [H|H]; [left; exact H|].
    do 4 right. left. split; [apply is_str_eq, T4 | exact H]. }
  destruct (is_str (get msg "type") "REPAY_REQUEST") eqn:T5.
  { left. apply lifecycle_handleRepayRequest. }
  destruct (is_str (get msg "type") "AUTH_REQUEST") eqn:T6.
  { destruct (lifecycle_handleAuthRequest msg w1) as [H|H]; [left; exact H|].
    do 3 right. left. split; [apply is_str_eq, T6 | exact H]. }
  destruct (is_str (get msg "type") "ERROR") eqn:T7.
  { destruct (lifecycle_handleError msg w1) as [H|H]; [left; exact H|].
    do 6 right. split; [apply is_str_eq, T7 | exact H]. }
  left. rewrite logInfo_spec. reflexivity.
Qed.

End InboundProperties.

Section InboundDetails.
Import App.

Lemma handleMessage_TLEND_LOADED origin msg w :
  get msg "type" = JStr "TLEND_LOADED" ->
  exec (handleMessage origin msg) w = exec (handleTLendLoaded msg) (record_origin origin w).
Proof.
  intros Ht. unfold exec, handleMessage, bind. rewrite store_origin_spec.
  rewrite (get_str_guard _ _ _ Ht) by discriminate.
  rewrite Ht. reflexivity.
Qed.

Lemma handleMessage_TLEND_READY origin msg w :
  get msg "type" = JStr "TLEND_READY" ->
  exec (handleMessage origin msg) w = exec (handleTLendReady msg) (record_origin origin w).
Proof.
  intros Ht. unfold exec, handleMessage, bind. rewrite store_origin_spec.
  rewrite (get_str_guard _ _ _ Ht) by discriminate.
  rewrite Ht. reflexivity.
Qed.

Lemma handleMessage_REPAY_REQUEST origin msg w :
  get msg "type" = JStr "REPAY_REQUEST" ->
  exec (handleMessage origin msg) w = exec (handleRepayRequest msg) (record_origin origin w).
Proof.
  intros Ht. unfold exec, handleMessage, bind. rewrite store_origin_spec.
  rewrite (get_str_guard _ _ _ Ht) by discriminate.
  rewrite Ht. reflexivity.
Qed.

Lemma truthy_prop v k : truthy (get v k) = true -> prop v k = Some (get v k).
Proof.
  intros H. unfold prop. destruct (nullish v) eqn:E; [|reflexivity].
  rewrite (get_nullish_undefined _ _ E) in H. discriminate.
Qed.

(** X15: a successful AUTH_RESULT replaces the stored wallet address by
    the address of the reply (by [undefined] when the reply has none),
    resolves the request it answers, posts nothing, and leaves the
    lifecycle state where it was. *)
Theorem auth_result_success (origin : string) (msg : JsVal) (w : World) :
  get msg "type" = JStr "AUTH_RESULT" ->
  truthy (get (get msg "payload") "success") = true ->
  address_or_absent (get (get msg "payload") "address") ->
  step (AMessage origin msg) w
  = with_state (set_walletAddress (get (get msg "payload") "address"))
      (resolved (get msg "requestId") (record_origin origin w))
  /\ tlendState (state (step (AMessage origin msg) w)) = tlendState (state w)
  /\ outbox (step (AMessage origin msg) w) = outbox w.
Proof.
  intros Ht Hs Ha.
  assert (E : step (AMessage origin msg) w
              = with_state (set_walletAddress (get (get msg "payload") "address"))
                  (resolved (get msg "requestId") (record_origin origin w))).
  { unfold step, handler. rewrite (handleMessage_AUTH_RESULT _ _ _ Ht).
    rewrite handleAuthResult_after. unfold exec, afterAuthResult, bind.
    rewrite (truthy_prop _ _ Hs). cbn [lift ret]. rewrite Hs.
    rewrite (logAddress_ok _ _ (address_text_absent _ Ha)). reflexivity. }
  split; [exact E|]. rewrite E. split.
  - cbn. rewrite resolved_lifecycle. apply record_origin_lifecycle.
  - cbn. unfold resolved. destruct (pending_get _ _) as [[k p]|]; cbn;
      unfold record_origin; destruct (no_origin (state w)); try reflexivity;
      destruct (origin_listed origin (TLEND_ORIGINS w)); reflexivity.
Qed.

(** X16: TLEND_READY marks the iframe loaded, then writes a log line with
    the shortened address of the payload.  When that line can be built (the
    address is absent, or a string, or any value that has a length and can
    be printed), then, with authentication on and a wallet connected, the
    handshake starts (styles after 100 ms, logo after 200 ms, auth check
    after 400 ms) and the lifecycle state stays; otherwise READY is set and
    nothing is scheduled.  When the line cannot be built the handler stops
    there: the iframe is marked loaded and nothing else happens. *)
Theorem tlend_ready_handling (origin : string) (msg : JsVal) (w : World) :
  get msg "type" = JStr "TLEND_READY" ->
  let w1 := with_state (set_iframeLoaded true) (record_origin origin w) in
  step (AMessage origin msg) w
  = match address_text (optget (get msg "payload") "address") with
    | Some _ =>
        if negb (input_is (el_skipAuth (elements w)) "yes") && walletConnected (state w)
        then with_timers (timers w ++ [ mkTimer (nextTimer w) 100 TSendStylesUpgrade;
                                        mkTimer (S (nextTimer w)) 200 TSendSetLogo;
                                        mkTimer (S (S (nextTimer w))) 400 TSendAuthCheckRequest ])
               (S (S (S (nextTimer w)))) w1
        else with_state (set_tlendState (Some READY)) w1
    | None => w1
    end.
Proof.
  intros Ht. cbn zeta. unfold step, handler. rewrite (handleMessage_TLEND_READY _ _ _ Ht).
  assert (R : elements (record_origin origin w) = elements w
              /\ walletConnected (state (record_origin origin w)) = walletConnected (state w)
              /\ timers (record_origin origin w) = timers w
              /\ nextTimer (record_origin origin w) = nextTimer w).
  { unfold record_origin. destruct (no_origin (state w)); [|auto].
    destruct (origin_listed origin (TLEND_ORIGINS w)); auto. }
  destruct R as (Re & Rw & Rt & Rn). rewrite <- Re, <- Rw, <- Rt, <- Rn.
  generalize (record_origin origin w). intros w0.
  unfold exec, handleTLendReady, bind, modify, read. cbn zeta.
  rewrite logAddress_spec.
  destruct (address_text (optget (get msg "payload") "address")); [|reflexivity].
  cbn.
  destruct (negb (input_is (el_skipAuth (elements w0)) "yes") && walletConnected (state w0)).
  - cbn. unfold with_timers. cbn. rewrite <- !app_assoc. reflexivity.
  - destruct (input_is (el_skipAuth (elements w0)) "yes"); reflexivity.
Qed.

End InboundDetails.

Section LoadedAndRepay.
Import App.

(** What recording the origin leaves alone. *)
Lemma record_origin_keeps o w :
  elements (record_origin o w) = elements w
  /\ timers (record_origin o w) = timers w
  /\ nextTimer (record_origin o w) = nextTimer w
  /\ outbox (record_origin o w) = outbox w
  /\ now (record_origin o w) = now w
  /\ iframe (record_origin o w) = iframe w
  /\ pendingRepayRequest (state (record_origin o w)) = pendingRepayRequest (state w).
Proof.
  unfold record_origin. destruct (no_origin (state w)); [|repeat split].
  destruct (origin_listed o (TLEND_ORIGINS w)); repeat split.
Qed.

(** X17: TLEND_LOADED stores version and capabilities, marks the iframe
    loaded and sets LOADING, then writes a log line with the version and the
    capabilities joined.  When that line can be built (the version can be
    printed, the capabilities are absent or an array whose elements can be
    printed) it schedules styles (100 ms) and logo (200 ms), followed by the
    auth check (300 ms) or, with authentication skipped, by READY (500 ms)
    in immediate mode only.  When the line cannot be built the handler stops
    there and schedules nothing.  It posts nothing itself. *)
Theorem tlend_loaded_handling (origin : string) (msg : JsVal) (w : World) :
  get msg "type" = JStr "TLEND_LOADED" ->
  let w' := step (AMessage origin msg) w in
  let version := optget (get msg "payload") "version" in
  let capabilities := or_else (optget (get msg "payload") "capabilities") (JArr []) in
  let n := nextTimer w in
  iframeLoaded (state w') = true
  /\ tlendState (state w') = Some LOADING
  /\ tlendVersion (state w') = version
  /\ tlendCapabilities (state w') = capabilities
  /\ outbox w' = outbox w
  /\ timers w'
     = timers w
       ++ match to_string version, capabilities with
          | Some _, JArr items =>
              match join ", " items with
              | Some _ =>
                  [mkTimer n 100 TSendStylesUpgrade; mkTimer (S n) 200 TSendSetLogo]
                  ++ (if input_is (el_skipAuth (elements w)) "yes"
                      then if input_is (el_autoReadyMode (elements w)) "immediate"
                           then [mkTimer (S (S n)) 500 TSetReady] else []
                      else [mkTimer (S (S n)) 300 TSendAuthCheckRequest])
              | None => []
              end
          | _, _ => []
          end.
Proof.
  intros Ht. cbn zeta. unfold step, handler. rewrite (handleMessage_TLEND_LOADED _ _ _ Ht).
  destruct (record_origin_keeps origin w) as (Re & Rt & Rn & Ro & _).
  rewrite <- Re, <- Rt, <- Rn, <- Ro.
  generalize (record_origin origin w). intros w0.
  unfold exec, handleTLendLoaded, updateTLendState, bind, modify, read. cbn zeta.
  rewrite logInfo_spec. cbn [to_strings].
  destruct (to_string (optget (get msg "payload") "version")); cbn [option_map];
    [|cbn; rewrite app_nil_r; repeat split; reflexivity].
  destruct (or_else (optget (get msg "payload") "capabilities") (JArr [])); cbn;
    rewrite ?app_nil_r; try (repeat split; reflexivity).
  destruct (join ", " items); cbn; rewrite ?app_nil_r; [|repeat split; reflexivity].
  destruct (input_is (el_skipAuth (elements w0)) "yes").
  - destruct (input_is (el_autoReadyMode (elements w0)) "immediate"); cbn;
      rewrite <- ?app_assoc; repeat split; reflexivity.
  - cbn. rewrite <- ?app_assoc. repeat split; reflexivity.
Qed.

(** Whether or not the panel and the modal can show the payload, the
    request is in the slot. *)
Lemma exec_handleRepayRequest msg w :
  exec (handleRepayRequest msg) w
  = with_state (set_pendingRepayRequest
                  (Some (mkRepay (get msg "requestId") (get msg "payload") (now w)))) w.
Proof.
  unfold exec, handleRepayRequest, bind, read, modify, world. cbn.
  destruct (renders w (get msg "payload")); reflexivity.
Qed.

Lemma no_origin_record o w : no_origin (state w) = false -> record_origin o w = w.
Proof. unfold record_origin. intros ->. reflexivity. Qed.

(** X18: there is one slot for repayment requests.  A second
    REPAY_REQUEST replaces the first; a reject then answers the second
    one's requestId, once, and the first request is never answered. *)
Theorem latest_repay_request_wins
    (w : World) (o1 o2 : string) (m1 m2 reason : JsVal) :
  no_origin (state w) = false ->
  can_post w = true ->
  get m1 "type" = JStr "REPAY_REQUEST" ->
  get m2 "type" = JStr "REPAY_REQUEST" ->
  let w' := run [AMessage o1 m1; AMessage o2 m2; ACallReject reason] w in
  (exists payload,
     outbox w' = (message "REPAY_RESULT" (Some (get m2 "requestId")) (now w) payload,
                  targetOrigin (state w)) :: outbox w
     /\ get payload "success" = JBool false)
  /\ pendingRepayRequest (state w') = None.
Proof.
  intros Hno Hcp H1 H2. cbn zeta.
  assert (E : forall o m x, get m "type" = JStr "REPAY_REQUEST" -> no_origin (state x) = false ->
                            step (AMessage o m) x = exec (handleRepayRequest m) x).
  { intros o m x Hm Hx. unfold step, handler.
    rewrite (handleMessage_REPAY_REQUEST _ _ _ Hm), (no_origin_record _ _ Hx). reflexivity. }
  assert (E' : forall o m x, get m "type" = JStr "REPAY_REQUEST" -> no_origin (state x) = false ->
                 step (AMessage o m) x
                 = with_state (set_pendingRepayRequest
                                 (Some (mkRepay (get m "requestId") (get m "payload") (now x)))) x).
  { intros o m x Hm Hx. rewrite (E o m x Hm Hx). apply exec_handleRepayRequest. }
  clear E. rename E' into E.
  change (run [AMessage o1 m1; AMessage o2 m2; ACallReject reason] w)
    with (step (ACallReject reason) (step (AMessage o2 m2) (step (AMessage o1 m1) w))).
  rewrite (E o1 m1 w H1 Hno).
  set (wa := with_state _ w).
  assert (Ha : no_origin (state wa) = false) by exact Hno.
  rewrite (E o2 m2 wa H2 Ha).
  set (wb := with_state _ wa).
  assert (Hb : can_post wb = true) by exact Hcp.
  unfold step, handler, exec, rejectRepayRequest, bind, read.
  change (pendingRepayRequest (state wb))
    with (Some (mkRepay (get m2 "requestId") (get m2 "payload") (now w))).
  cbn zeta. cbn [r_requestId]. rewrite (sendToTLend_posts _ _ Hb).
  split; [|reflexivity]. eexists. split; reflexivity.
Qed.

End LoadedAndRepay.

(** ** Repayment: approval, signing, settlement *)

Section RepayProperties.
Import App.

Lemma find_fresh (ts : list Timer) n d task :
  Forall (fun t => (t_id t < n)%nat) ts ->
  List.find (fun t => (t_id t =? n)%nat) (ts ++ [mkTimer n d task]) = Some (mkTimer n d task).
Proof.
  induction 1 as [|t ts Ht _ IH]; cbn.
  - rewrite Nat.eqb_refl. reflexivity.
  - destruct (Nat.eqb_spec (t_id t) n); [lia | exact IH].
Qed.

Lemma without_fresh (ts : list Timer) n d task :
  Forall (fun t => (t_id t < n)%nat) ts ->
  without_timer n (ts ++ [mkTimer n d task]) = ts.
Proof.
  unfold without_timer. induction 1 as [|t ts Ht _ IH]; cbn.
  - rewrite Nat.eqb_refl. reflexivity.
  - destruct (Nat.eqb_spec (t_id t) n); [lia|]. cbn. f_equal. exact IH.
Qed.

(** Approval without a signer: the slot is freed at once and the
    simulated result is scheduled. *)
Lemma approve_simulated w req :
  pendingRepayRequest (state w) = Some req ->
  tonConnectUI (state w) && walletConnected (state w) = false ->
  step AClickApprove w
  = with_state (set_pendingRepayRequest None)
      (with_timers (timers w ++ [mkTimer (nextTimer w) 2000 (TMockRepayResult (r_requestId req))])
         (S (nextTimer w)) w).
Proof.
  intros Hp Hs. unfold step, handler, exec, approveRepayRequest, bind, read.
  rewrite Hp. cbn zeta. rewrite Hs. reflexivity.
Qed.

Lemma reject_nothing_pending w reason :
  pendingRepayRequest (state w) = None -> step (ACallReject reason) w = w.
Proof.
  intros Hp. unfold step, handler, exec, rejectRepayRequest, bind, read. rewrite Hp. reflexivity.
Qed.

(** X19: approving without a signer answers the request exactly once.
    The slot is freed at once, so a reject that follows does nothing, and
    when the 2 s timer expires one REPAY_RESULT with success=true is posted
    for the approved requestId. *)
Theorem simulated_approval_answers_once (w : World) (req : RepayRequest) (reason : JsVal) :
  pendingRepayRequest (state w) = Some req ->
  tonConnectUI (state w) && walletConnected (state w) = false ->
  can_post w = true ->
  Forall (fun t => (t_id t < nextTimer w)%nat) (timers w) ->
  let w' := run [AClickApprove; ACallReject reason; AFire (nextTimer w)] w in
  let hash := entropy w (drawn w) in
  outbox w'
  = (message "REPAY_RESULT" (Some (r_requestId req)) (now w)
       (JObj [ ("success", JBool true); ("transactionHash", JStr hash);
               ("explorerUrl", JStr ("https://tonscan.org/tx/" ++ hash)%string) ]),
     targetOrigin (state w)) :: outbox w
  /\ pendingRepayRequest (state w') = None
  /\ timers w' = timers w.
Proof.
  intros Hp Hs Hcp Hf. cbn zeta.
  change (run [AClickApprove; ACallReject reason; AFire (nextTimer w)] w)
    with (step (AFire (nextTimer w)) (step (ACallReject reason) (step AClickApprove w))).
  rewrite (approve_simulated w req Hp Hs).
  rewrite reject_nothing_pending by reflexivity.
  unfold step, handler, exec, fire, bind, world, find_timer.
  cbn [timers with_state with_timers].
  rewrite (find_fresh _ _ _ _ Hf). cbn [t_task run_task].
  unfold clearTimeout, modify. cbn [timers with_state with_timers nextTimer snd].
  rewrite (without_fresh _ _ _ _ Hf).
  unfold mockRepayResult, bind, random_string, read. cbn zeta.
  rewrite sendToTLend_posts by exact Hcp. repeat split.
Qed.

(** Approval with a signer: the request is handed to the wallet and stays
    in the slot. *)
Lemma approve_signing w req :
  pendingRepayRequest (state w) = Some req ->
  tonConnectUI (state w) && walletConnected (state w) = true ->
  truthy (get (r_payload req) "transaction") = true ->
  transaction_args_ok (get (r_payload req) "transaction") = true ->
  step AClickApprove w = with_signing (signing w ++ [r_requestId req]) w.
Proof.
  intros Hp Hs Ht Ha. unfold step, handler, exec, approveRepayRequest, bind, read.
  rewrite Hp. cbn zeta. rewrite Hs. rewrite (truthy_prop _ _ Ht). cbn [lift ret].
  rewrite Ht, Ha. reflexivity.
Qed.

(** A settlement posts one result for the request that was signed and
    then empties the slot. *)
Lemma settle_posts w i requestId outcome :
  nth_error (signing w) i = Some requestId ->
  can_post w = true ->
  settles outcome ->
  exists m,
    step (ASettle i outcome) w
    = with_state (set_pendingRepayRequest None)
        (with_outbox ((m, targetOrigin (state w)) :: outbox w)
           (with_signing (firstn i (signing w) ++ skipn (S i) (signing w)) w))
    /\ get m "type" = JStr "REPAY_RESULT"
    /\ get m "requestId" = requestId
    /\ get (get m "payload") "success" = JBool (signed_ok outcome)
    /\ match outcome with
       | SignOk _ => True
       | SignFail error =>
           forall s, get error "message" = JStr s ->
                     get (get (get m "payload") "error") "code"
                     = JStr (if contains "rejected" s then "USER_REJECTED"
                             else "TRANSACTION_FAILED")
       end.
Proof.
  intros Hn Hcp Hs. unfold step, handler, exec, settle, bind, world. rewrite Hn.
  unfold modify. cbn [snd fst].
  set (w1 := with_signing (firstn i (signing w) ++ skipn (S i) (signing w)) w).
  assert (Hcp1 : can_post w1 = true) by exact Hcp.
  destruct outcome as [result | error]; cbn [settles] in Hs; unfold approve_resume, bind.
  - destruct Hs as [Hr Hb]. unfold approve_signed, prop, bind, world. rewrite Hr.
    destruct (to_string (get result "boc")) as [text|]; [|congruence].
    unfold bind, read.
    rewrite (sendToTLend_posts _ _ Hcp1). eexists. split; [reflexivity|]. repeat split.
  - destruct Hs as [s Hm]. unfold approve_catch, bind.
    rewrite (prop_defined error "message" (JStr s) Hm) by discriminate.
    cbn [lift ret includes_rejected]. rewrite logInfo_spec.
    cbn [to_strings to_string option_map includes_rejected lift ret]. unfold read.
    rewrite (sendToTLend_posts _ _ Hcp1). eexists. split; [reflexivity|].
    split; [reflexivity|]. split; [reflexivity|]. split; [reflexivity|].
    intros s' Hs'. rewrite Hm in Hs'. injection Hs' as <-. reflexivity.
Qed.

(** X20: a settlement (a result whose [boc] can be printed into the
    explorer URL, or an error whose message is a string) posts exactly one
    REPAY_RESULT, for the request that was signed: success=true for a
    result, and for an error the code USER_REJECTED when its message
    contains "rejected", TRANSACTION_FAILED otherwise.  It then empties the slot whatever the
    slot holds, so a request received during the signing is dropped
    unanswered. *)
Theorem settlement_result (w : World) (i : nat) (requestId : JsVal) (outcome : SignOutcome) :
  nth_error (signing w) i = Some requestId ->
  can_post w = true ->
  settles outcome ->
  let w' := step (ASettle i outcome) w in
  (exists m,
     outbox w' = (m, targetOrigin (state w)) :: outbox w
     /\ get m "type" = JStr "REPAY_RESULT"
     /\ get m "requestId" = requestId
     /\ get (get m "payload") "success" = JBool (signed_ok outcome)
     /\ match outcome with
        | SignOk _ => True
        | SignFail error =>
            forall s, get error "message" = JStr s ->
                      get (get (get m "payload") "error") "code"
                      = JStr (if contains "rejected" s then "USER_REJECTED"
                              else "TRANSACTION_FAILED")
        end)
  /\ pendingRepayRequest (state w') = None
  /\ signing w' = firstn i (signing w) ++ skipn (S i) (signing w).
Proof.
  intros Hn Hcp Hs. cbn zeta.
  destruct (settle_posts w i requestId outcome Hn Hcp Hs) as (m & E & H1 & H2 & H3 & H4).
  rewrite E. split; [|split; reflexivity]. exists m. repeat split; assumption.
Qed.

(** X21: with a signer the request stays in the slot while the wallet
    signs.  A reject issued meanwhile is answered, and so is the
    settlement (a result whose [boc] can be printed, or an error whose
    message is a string): two REPAY_RESULT messages are posted for the one
    requestId. *)
Theorem reject_while_signing_answers_twice
    (w : World) (req : RepayRequest) (reason : JsVal) (outcome : SignOutcome) :
  pendingRepayRequest (state w) = Some req ->
  tonConnectUI (state w) && walletConnected (state w) = true ->
  truthy (get (r_payload req) "transaction") = true ->
  transaction_args_ok (get (r_payload req) "transaction") = true ->
  can_post w = true ->
  settles outcome ->
  let w' := run [AClickApprove; ACallReject reason; ASettle (List.length (signing w)) outcome] w in
  exists m1 m2,
    outbox w' = (m2, targetOrigin (state w)) :: (m1, targetOrigin (state w)) :: outbox w
    /\ get m1 "type" = JStr "REPAY_RESULT" /\ get m2 "type" = JStr "REPAY_RESULT"
    /\ get m1 "requestId" = r_requestId req /\ get m2 "requestId" = r_requestId req
    /\ get (get m1 "payload") "success" = JBool false
    /\ get (get m2 "payload") "success" = JBool (signed_ok outcome).
Proof.
  intros Hp Hsg Ht Ha Hcp Hs. cbn zeta.
  change (run [AClickApprove; ACallReject reason; ASettle (List.length (signing w)) outcome] w)
    with (step (ASettle (List.length (signing w)) outcome)
            (step (ACallReject reason) (step AClickApprove w))).
  rewrite (approve_signing w req Hp Hsg Ht Ha).
  set (w1 := with_signing (signing w ++ [r_requestId req]) w).
  assert (Hcp1 : can_post w1 = true) by exact Hcp.
  assert (E2 : exists m1,
             step (ACallReject reason) w1
             = with_state (set_pendingRepayRequest None)
                 (with_outbox ((m1, targetOrigin (state w)) :: outbox w) w1)
             /\ get m1 "type" = JStr "REPAY_RESULT"
             /\ get m1 "requestId" = r_requestId req
             /\ get (get m1 "payload") "success" = JBool false).
  { unfold step, handler, exec, rejectRepayRequest, bind, read.
    change (pendingRepayRequest (state w1)) with (pendingRepayRequest (state w)).
    rewrite Hp. cbn zeta. rewrite (sendToTLend_posts _ _ Hcp1).
    eexists. split; [reflexivity|]. repeat split. }
  destruct E2 as (m1 & E2 & A1 & A2 & A3). rewrite E2.
  set (w2 := with_state (set_pendingRepayRequest None)
               (with_outbox ((m1, targetOrigin (state w)) :: outbox w) w1)).
  assert (Hcp2 : can_post w2 = true) by exact Hcp.
  assert (Hn : nth_error (signing w2) (List.length (signing w)) = Some (r_requestId req)).
  { change (signing w2) with (signing w ++ [r_requestId req]).
    rewrite nth_error_app2 by lia. rewrite Nat.sub_diag. reflexivity. }
  destruct (settle_posts w2 _ _ outcome Hn Hcp2 Hs) as (m2 & E3 & B1 & B2 & B3 & _).
  rewrite E3. exists m1, m2. repeat split; assumption.
Qed.

End RepayProperties.

(** ** The wallet *)

Section WalletProperties.
Import App.

(** X22: when the wallet disconnects, the wallet fields of the state are
    cleared, and TLend is told (DISCONNECT, reason user_initiated, one
    message) exactly when a wallet was connected and the iframe had
    announced itself; nothing else is posted. *)
Theorem wallet_disconnect (w : World) :
  let w' := step (AWalletStatus None) w in
  walletConnected (state w') = false
  /\ walletAddress (state w') = JNull
  /\ walletAccount (state w') = JNull
  /\ tonProof (state w') = JNull
  /\ outbox w'
     = if walletConnected (state w) && iframeLoaded (state w) && can_post w
       then (message "DISCONNECT" None (now w) (JObj [("reason", JStr "user_initiated")]),
             targetOrigin (state w)) :: outbox w
       else outbox w.
Proof.
  cbn zeta. unfold step, handler, exec, onStatusChange, bind, read, modify. cbn zeta.
  cbn [fst snd state with_state walletConnected iframeLoaded set_walletConnected
       set_walletAddress set_walletAccount set_tonProof].
  destruct (walletConnected (state w) && iframeLoaded (state w)); cbn [andb].
  - match goal with |- context [sendDisconnect ?r ?x] =>
      change (snd (sendDisconnect r x)) with (exec (sendDisconnect r) x);
      rewrite (exec_sendDisconnect "user_initiated" x);
      change (can_post x) with (can_post w)
    end.
    destruct (can_post w); repeat split.
  - repeat split.
Qed.

End WalletProperties.

(** ** The handshake, end to end *)

Section Handshake.
Import App.

Lemma find_among (ts rest : list Timer) t :
  Forall (fun x => (t_id x < t_id t)%nat) ts ->
  List.find (fun x => (t_id x =? t_id t)%nat) (ts ++ t :: rest) = Some t.
Proof.
  induction 1 as [|x ts Hx _ IH]; cbn.
  - rewrite Nat.eqb_refl. reflexivity.
  - destruct (Nat.eqb_spec (t_id x) (t_id t)); [lia | exact IH].
Qed.

Lemma without_among (ts rest : list Timer) t :
  Forall (fun x => (t_id x < t_id t)%nat) ts ->
  Forall (fun x => (t_id t < t_id x)%nat) rest ->
  without_timer (t_id t) (ts ++ t :: rest) = ts ++ rest.
Proof.
  unfold without_timer. intros Hts Hrest. induction Hts as [|x ts Hx _ IH]; cbn.
  - rewrite Nat.eqb_refl. cbn. induction Hrest as [|y rest Hy _ IHr]; cbn; [reflexivity|].
    destruct (Nat.eqb_spec (t_id y) (t_id t)); [lia|]. cbn. f_equal. exact IHr.
  - destruct (Nat.eqb_spec (t_id x) (t_id t)); [lia|]. cbn. f_equal. exact IH.
Qed.

(** A timer expires whose handle is above the older ones and below the
    younger ones: it alone leaves the table, and its callback runs. *)
Lemma fire_among w ts t rest :
  timers w = ts ++ t :: rest ->
  Forall (fun x => (t_id x < t_id t)%nat) ts ->
  Forall (fun x => (t_id t < t_id x)%nat) rest ->
  step (AFire (t_id t)) w
  = exec (run_task (t_task t)) (with_timers (ts ++ rest) (nextTimer w) w).
Proof.
  intros E Hts Hrest. unfold step, handler, exec, fire, bind, world, find_timer.
  rewrite E, (find_among _ _ _ Hts). unfold clearTimeout, modify. cbn [snd].
  rewrite E, (without_among _ _ _ Hts Hrest). reflexivity.
Qed.




Lemma record_origin_session o w :
  walletAddress (state (record_origin o w)) = walletAddress (state w)
  /\ pendingRequests (state (record_origin o w)) = pendingRequests (state w)
  /\ entropy (record_origin o w) = entropy w
  /\ drawn (record_origin o w) = drawn w.
Proof.
  unfold record_origin. destruct (no_origin (state w)); [|repeat split].
  destruct (origin_listed o (TLEND_ORIGINS w)); repeat split.
Qed.



End Handshake.

Section AuthCheckReply.
Import App.

Lemma handleMessage_AUTH_CHECK_RESPONSE origin msg w :
  get msg "type" = JStr "AUTH_CHECK_RESPONSE" ->
  exec (handleMessage origin msg) w
  = exec (handleAuthCheckResponse msg) (record_origin origin w).
Proof.
  intros Ht. unfold exec, handleMessage, bind. rewrite store_origin_spec.
  rewrite (get_str_guard _ _ _ Ht) by discriminate.
  rewrite Ht. reflexivity.
Qed.

Lemma resolved_keeps r w :
  walletAddress (state (resolved r w)) = walletAddress (state w)
  /\ walletConnected (state (resolved r w)) = walletConnected (state w)
  /\ nextTimer (resolved r w) = nextTimer w
  /\ outbox (resolved r w) = outbox w
  /\ can_post (resolved r w) = can_post w
  /\ targetOrigin (state (resolved r w)) = targetOrigin (state w)
  /\ (forall n, Forall (fun t => (t_id t < n)%nat) (timers w) ->
                Forall (fun t => (t_id t < n)%nat) (timers (resolved r w))).
Proof.
  unfold resolved. destruct (pending_get r w) as [[k p]|]; [|repeat split; auto].
  repeat split. intros n H. cbn. unfold without_timer.
  rewrite List.Forall_forall in *. intros t Ht. apply filter_In in Ht as [Ht _]. auto.
Qed.

(** The reply to the auth check, when TLend is not authenticated for the
    requested address. *)
Lemma exec_handleAuthCheckResponse_unauthenticated msg w :
  nullish (get msg "payload") = false ->
  truthy (get (get msg "payload") "authenticated")
  && truthy (get (get msg "payload") "matchesRequested") = false ->
  let w1 := resolved (get msg "requestId") w in
  exec (handleAuthCheckResponse msg) w
  = if walletConnected (state w)
    then with_timers (timers w1 ++ [mkTimer (nextTimer w) 500 TSendAuthCredentials])
           (S (nextTimer w)) (with_state (set_tlendState (Some PENDING_AUTH)) w1)
    else with_state (set_tlendState (Some PENDING_AUTH)) w1.
Proof.
  intros Hp Hau. cbn zeta.
  destruct (resolved_keeps (get msg "requestId") w) as (_ & Hc & Hn & _).
  rewrite <- Hc, <- Hn.
  rewrite handleAuthCheckResponse_after.
  generalize (resolved (get msg "requestId") w). intros w1.
  unfold exec, afterAuthCheckResponse, bind.
  unfold prop. rewrite Hp. cbn [lift ret].
  assert (G : negb (truthy (get (get msg "payload") "authenticated"))
              || negb (truthy (get (get msg "payload") "matchesRequested")) = true).
  { rewrite <- negb_andb, Hau. reflexivity. }
  rewrite G. unfold updateTLendState, modify, read. cbn [fst snd].
  cbn [state with_state walletConnected set_tlendState].
  destruct (walletConnected (state w1)); reflexivity.
Qed.

Lemma sendAuthCredentials_lifecycle w :
  truthy (walletAddress (state w)) = true ->
  can_post w = true ->
  tlendState (state (exec sendAuthCredentials w)) = tlendState (state w).
Proof.
  intros Ha Hi. unfold exec, sendAuthCredentials, bind, read. rewrite Ha. cbn [negb].
  unfold generateRequestId.
  destruct (truthy (walletAccount (state w)) && truthy (tonProof (state w)));
    cbn -[message show_Z show_hex padStart0 String.append Z.div Z.add Z.mul sendToTLend];
    (rewrite sendToTLend_posts by exact Hi); reflexivity.
Qed.

(** X24: an AUTH_CHECK_RESPONSE saying that TLend is not authenticated, or
    is so for another address, sets PENDING_AUTH; with a wallet connected
    it schedules the credentials 500 ms ahead, and when that timer expires
    one AUTH_CREDENTIALS message is posted to the stored origin. *)
Theorem credentials_after_failed_check (w : World) (origin : string) (msg : JsVal) :
  get msg "type" = JStr "AUTH_CHECK_RESPONSE" ->
  nullish (get msg "payload") = false ->
  truthy (get (get msg "payload") "authenticated")
  && truthy (get (get msg "payload") "matchesRequested") = false ->
  walletConnected (state w) = true ->
  truthy (walletAddress (state w)) = true ->
  Forall (fun t => (t_id t < nextTimer w)%nat) (timers w) ->
  can_post (record_origin origin w) = true ->
  let w1 := step (AMessage origin msg) w in
  let w2 := step (AFire (nextTimer w)) w1 in
  tlendState (state w1) = Some PENDING_AUTH
  /\ outbox w1 = outbox w
  /\ tlendState (state w2) = Some PENDING_AUTH
  /\ exists m,
       outbox w2 = (m, targetOrigin (state (record_origin origin w))) :: outbox w
       /\ get m "type" = JStr "AUTH_CREDENTIALS".
Proof.
  intros Ht Hp Hau Hwc Ha Hf Hcp. cbn zeta.
  assert (E0 : step (AMessage origin msg) w
               = exec (handleAuthCheckResponse msg) (record_origin origin w)).
  { unfold step, handler. apply (handleMessage_AUTH_CHECK_RESPONSE _ _ _ Ht). }
  rewrite E0. clear E0.
  destruct (record_origin_keeps origin w) as (_ & Rt & Rn & Ro & _).
  destruct (record_origin_session origin w) as (Rw & _).
  assert (Rc : walletConnected (state (record_origin origin w)) = walletConnected (state w)).
  { unfold record_origin. destruct (no_origin (state w)); [|reflexivity].
    destruct (origin_listed origin (TLEND_ORIGINS w)); reflexivity. }
  rewrite <- Rc in Hwc. rewrite <- Rw in Ha. rewrite <- Rt, <- Rn in Hf. rewrite <- Rn, <- Ro.
  revert Hwc Ha Hf Hcp. generalize (record_origin origin w). clear w Rt Rn Ro Rw Rc.
  intros w Hwc Ha Hf Hcp.
  rewrite (exec_handleAuthCheckResponse_unauthenticated msg w Hp Hau). cbn zeta. rewrite Hwc.
  destruct (resolved_keeps (get msg "requestId") w) as (Ka & _ & Kn & Ko & Kc & Kt & Kf).
  set (wr := resolved (get msg "requestId") w) in *.
  set (t := mkTimer (nextTimer w) 500 TSendAuthCredentials).
  set (w1 := with_timers _ _ _).
  split; [reflexivity|]. split; [exact Ko|].
  change (AFire (nextTimer w)) with (AFire (t_id t)).
  rewrite (fire_among w1 (timers wr) t []); [| reflexivity | apply Kf, Hf | constructor].
  change (run_task (t_task t)) with sendAuthCredentials.
  set (x := with_timers _ _ w1).
  assert (Hx : truthy (walletAddress (state x)) = true) by (rewrite <- Ka in Ha; exact Ha).
  assert (Hxc : can_post x = true) by (rewrite <- Kc in Hcp; exact Hcp).
  split.
  - rewrite (sendAuthCredentials_lifecycle x Hx Hxc). reflexivity.
  - destruct (sendAuthCredentials_posts x Hx Hxc) as (m & Em & Tm).
    exists m. rewrite Em. split; [|exact Tm]. rewrite <- Kt, <- Ko. reflexivity.
Qed.

End AuthCheckReply.

(** ** The properties above, at concrete pages *)

Section Instances.
Import App Scenario.

Lemma only_tlend_types_dispatched_witness :
  (step (AMessage stranger msg_echo) ready = record_origin stranger ready
   /\ fst (handleMessage stranger msg_echo ready) = Some tt)
  /\ (step (AMessage stranger msg_unprintable_type) start = record_origin stranger start
      /\ fst (handleMessage stranger msg_unprintable_type start) = None).
Proof.
  split.
  - apply (only_tlend_types_dispatched stranger msg_echo ready). discriminate.
  - apply (only_tlend_types_dispatched stranger msg_unprintable_type start). discriminate.
Defined.

Lemma generatePayload_shape_witness :
  String.length "6553f484cb8eda38e03cf7869cf7d97b83eefddf12203b911ac379b751e8986a" = 64%nat
  /\ List.length
       (Codec.hex_decode "6553f484cb8eda38e03cf7869cf7d97b83eefddf12203b911ac379b751e8986a")
     = 32%nat
  /\ Codec.readUInt32BE
       (Codec.hex_decode "6553f484cb8eda38e03cf7869cf7d97b83eefddf12203b911ac379b751e8986a")
     = 1700000000000 / 1000 + 15 * 60.
Proof.
  apply (proj2 (generatePayload_shape (Codec.bytes_of_string "secret") 1700000000000)).
  vm_compute. reflexivity.
Defined.

Lemma allow_list_append_only_witness :
  NoDup (TLEND_ORIGINS (run [AClickLoadIframe; AMessage stranger msg_ready] start)).
Proof.
  destruct (allow_list_append_only [AClickLoadIframe; AMessage stranger msg_ready] start)
    as (added & _ & _ & H).
  apply H. apply NoDup_cons. split; [|apply NoDup_singleton].
  intros Hin. apply list_elem_of_singleton in Hin. discriminate.
Defined.

Lemma auth_result_success_witness :
  walletAddress (state (step (AMessage tlend msg_auth_ok) credentials_sent))
  = JStr "0:fcb91a3a3816d0f7b8c2c76108b8a9bc5a6b7a55bd79f8ab101c52db29232260"
  /\ tlendState (state (step (AMessage tlend msg_auth_ok) credentials_sent))
     = tlendState (state credentials_sent).
Proof.
  destruct (auth_result_success tlend msg_auth_ok credentials_sent) as (E & Hl & _);
    [reflexivity | reflexivity | exact I |].
  split; [rewrite E; reflexivity | exact Hl].
Defined.

Lemma tlend_ready_handling_witness :
  step (AMessage tlend msg_ready) start
  = with_state (set_tlendState (Some READY))
      (with_state (set_iframeLoaded true) (record_origin tlend start))
  /\ step (AMessage tlend msg_ready) wallet_first
     = with_timers [ mkTimer 0 100 TSendStylesUpgrade; mkTimer 1 200 TSendSetLogo;
                     mkTimer 2 400 TSendAuthCheckRequest ] 3
         (with_state (set_iframeLoaded true) (record_origin tlend wallet_first))
  /\ step (AMessage tlend msg_ready_numeric) wallet_first
     = with_state (set_iframeLoaded true) (record_origin tlend wallet_first).
Proof.
  split; [|split].
  - apply (tlend_ready_handling tlend msg_ready start). reflexivity.
  - apply (tlend_ready_handling tlend msg_ready wallet_first). reflexivity.
  - apply (tlend_ready_handling tlend msg_ready_numeric wallet_first). reflexivity.
Defined.

Lemma tlend_loaded_handling_witness :
  (tlendState (state (step (AMessage tlend msg_loaded) start)) = Some LOADING
   /\ timers (step (AMessage tlend msg_loaded) start)
      = [mkTimer 0 100 TSendStylesUpgrade; mkTimer 1 200 TSendSetLogo;
         mkTimer 2 300 TSendAuthCheckRequest])
  /\ (tlendState (state (step (AMessage tlend msg_loaded_unprintable) start)) = Some LOADING
      /\ timers (step (AMessage tlend msg_loaded_unprintable) start) = []).
Proof.
  split.
  - destruct (tlend_loaded_handling tlend msg_loaded start) as (_ & Hl & _ & _ & _ & Ht);
      [reflexivity|].
    split; [exact Hl | exact Ht].
  - destruct (tlend_loaded_handling tlend msg_loaded_unprintable start)
      as (_ & Hl & _ & _ & _ & Ht); [reflexivity|].
    split; [exact Hl | exact Ht].
Defined.

Lemma latest_repay_request_wins_witness :
  pendingRepayRequest
    (state (run [AMessage tlend msg_repay_request; AMessage tlend msg_repay_tx;
                 ACallReject JUndefined] ready)) = None.
Proof.
  apply (latest_repay_request_wins ready tlend tlend msg_repay_request msg_repay_tx JUndefined);
    reflexivity.
Defined.

Lemma simulated_approval_answers_once_witness :
  List.length (outbox (run [AClickApprove; ACallReject JUndefined; AFire (nextTimer repay_pending)]
                         repay_pending))
  = S (List.length (outbox repay_pending)).
Proof.
  destruct (simulated_approval_answers_once repay_pending
              (mkRepay (JStr "repay-001") (get msg_repay_request "payload") 1734278400000)
              JUndefined) as (E & _).
  - reflexivity.
  - reflexivity.
  - reflexivity.
  - vm_compute. constructor.
  - rewrite E. reflexivity.
Defined.

Lemma settlement_result_witness :
  pendingRepayRequest (state (step (ASettle 0 sign_rejected) signing_now)) = None.
Proof.
  apply (settlement_result signing_now 0 (JStr "repay-002") sign_rejected).
  - reflexivity.
  - reflexivity.
  - eexists. reflexivity.
Defined.

Lemma reject_while_signing_answers_twice_witness :
  List.length
    (outbox (run [AClickApprove; ACallReject (JStr "TIMEOUT");
                  ASettle (List.length (signing signer_ready)) sign_done] signer_ready))
  = S (S (List.length (outbox signer_ready))).
Proof.
  destruct (reject_while_signing_answers_twice signer_ready
              (mkRepay (JStr "repay-002") (get msg_repay_tx "payload") 1734278400000)
              (JStr "TIMEOUT") sign_done) as (m1 & m2 & E & _).
  - reflexivity.
  - reflexivity.
  - reflexivity.
  - reflexivity.
  - reflexivity.
  - split; [reflexivity | discriminate].
  - rewrite E. reflexivity.
Defined.


Lemma credentials_after_failed_check_witness :
  tlendState (state (step (AMessage tlend msg_check_unauthenticated) connected))
  = Some PENDING_AUTH.
Proof.
  apply (credentials_after_failed_check connected tlend msg_check_unauthenticated).
  - reflexivity.
  - reflexivity.
  - reflexivity.
  - reflexivity.
  - reflexivity.
  - vm_compute. constructor.
  - reflexivity.
Defined.

End Instances.
